(** * CPI computation pipeline of [cpi_calculater.py]

    A shallow embedding of [calculate_cpi] (the index composer) and of
    [save_combined_results] (the series merger), with the pandas
    operations they call.

    Modelling choices, fixed once for the whole development:

    - A [float64] cell is modelled by its IEEE-754 class: [NaN], an
      infinity with its sign, or a finite value.  A finite value is an
      exact rational, which every operation returns in lowest terms;
      rounding of finite results and overflow are not modelled, and the
      two zeros are identified (a zero divisor behaves as [+0.0]).  What
      the development tracks is how [NaN] and the infinities arise and
      propagate through the arithmetic and through the NaN-skipping
      sums.
    - The three ClickHouse queries are an external service: their result
      sets are the inputs of [calculate_cpi].  A cell of a numeric column
      is either something [pd.to_numeric] parses, or not.
    - [time_period] values delivered by the store are calendar dates,
      counted in days since 1970-01-01; [pd.to_datetime] turns them into
      nanosecond timestamps. *)

From Stdlib Require Import ZArith QArith Lia.
From stdpp Require Import base option list sorting gmap strings.

Local Open Scope Z_scope.

(** ** float64 *)

Module Float.

Inductive float64 : Type :=
  | NaN
  | Inf (neg : bool)
  | Fin (q : Q).

Definition Q_neg (q : Q) : bool := Qnum q <? 0.

Definition Q_zero (q : Q) : bool := Qnum q =? 0.

Definition of_Z (n : Z) : float64 := Fin (inject_Z n).

Definition isna (x : float64) : bool :=
  match x with NaN => true | _ => false end.

Definition is_finite (x : float64) : bool :=
  match x with Fin _ => true | _ => false end.

Definition is_zero (x : float64) : bool :=
  match x with Fin q => Q_zero q | _ => false end.

(** [x + y] *)
Definition add (x y : float64) : float64 :=
  match x, y with
  | NaN, _ | _, NaN => NaN
  | Inf a, Inf b => if Bool.eqb a b then Inf a else NaN
  | Inf a, Fin _ => Inf a
  | Fin _, Inf b => Inf b
  | Fin p, Fin q => Fin (Qred (p + q))
  end.

(** [x * y] *)
Definition mul (x y : float64) : float64 :=
  match x, y with
  | NaN, _ | _, NaN => NaN
  | Inf a, Inf b => Inf (xorb a b)
  | Inf a, Fin q => if Q_zero q then NaN else Inf (xorb a (Q_neg q))
  | Fin p, Inf b => if Q_zero p then NaN else Inf (xorb (Q_neg p) b)
  | Fin p, Fin q => Fin (Qred (p * q))
  end.

(** [x / y], numpy true division: a zero divisor gives an infinity (or
    [NaN] for [0 / 0]), never an exception. *)
Definition div (x y : float64) : float64 :=
  match x, y with
  | NaN, _ | _, NaN => NaN
  | Inf _, Inf _ => NaN
  | Inf a, Fin q => Inf (xorb a (Q_neg q))
  | Fin _, Inf _ => Fin 0
  | Fin p, Fin q =>
      if Q_zero q then (if Q_zero p then NaN else Inf (Q_neg p))
      else Fin (Qred (p / q))
  end.

(** [|x - c| <= tol], false on [NaN] and on the infinities. *)
Definition within (tol c x : float64) : bool :=
  match tol, c, x with
  | Fin t, Fin c, Fin q => Qle_bool (q - c) t && Qle_bool (c - q) t
  | _, _, _ => false
  end.

(** Series.sum / GroupBy.sum with the default [skipna=True],
    [min_count=0]: NaN entries are left out, the empty sum is [0.0].
    An infinite entry is added like any other (the sum of a group that
    holds one is that infinity, or NaN when both signs occur), as pandas
    does since 2.1. *)
Definition nansum (l : list float64) : float64 :=
  foldl add (Fin 0) (filter (λ x, isna x = false) l).

End Float.

Export Float.

(** ** Exceptions, results and the log *)

Definition loc := positive.

Inductive exn : Type :=
  | ValueError_merged_empty   (* line 95: the merged frame is empty *)
  | ValueError_result_empty   (* line 114: the CPI result is empty *)
  | IndexError                (* [.values[0]] on an empty selection *)
  | KeyError (column : string)
  | OutOfBoundsDatetime
  | NameError (l : loc)
  | OSError.                  (* [mkdir] or [to_csv] of lines 190-194 *)

Inductive result (A : Type) : Type :=
  | Ok (a : A)
  | Raise (e : exn).
Arguments Ok {A} a.
Arguments Raise {A} e.

(** The records written by [logger] at the configured level ([INFO]);
    the [logger.debug] calls are below it and write nothing. *)
Inductive log_record : Type :=
  | Info_start (granularity : string)
  | Info_base_rows (n : nat)
  | Info_time_rows (n : nat) (granularity : string)
  | Info_weight_rows (n : nat)
  | Info_merge_start (granularity : string)
  | Warning_invalid_base_price (n : nat)
  | Info_dynamic_base (base_date : Z)
  | Error_failed (granularity : string) (e : exn).

(** ** Query results *)

(** A cell of a numeric column as the store delivers it: something
    [pd.to_numeric] parses, something it does not, or [None]. *)
Inductive raw : Type :=
  | Numeric (x : float64)
  | Unparseable
  | Missing.

(** [pd.to_numeric(_, errors='coerce')] on one cell. *)
Definition to_numeric (v : raw) : float64 :=
  match v with
  | Numeric x => x
  | Unparseable | Missing => NaN
  end.

(** Row of [base_df]: columns [category_id], [base_price]. *)
Record base_row : Type :=
  { b_category_id : string; b_base_price : raw }.

(** Row of [time_df]: columns [time_period], [category_id], [avg_price]. *)
Record time_row : Type :=
  { t_time_period : Z; t_category_id : string; t_avg_price : raw }.

(** Row of [weight_df]: columns [category_id], [weight]. *)
Record weight_row : Type :=
  { w_category_id : string; w_weight : raw }.

(** Row of [merged] once the three numeric columns went through
    [to_numeric]. *)
Record merged_row : Type :=
  { time_period : Z;
    category_id : string;
    avg_price : float64;
    base_price : float64;
    weight : float64 }.

(** ** The CPI frame returned by [calculate_cpi] *)

Inductive time_cell : Type :=
  | PyDate (days : Z)        (* a [datetime.date], object column *)
  | Timestamp (ns : Z).      (* a [datetime64[ns]] value *)

(** Columns [time_period_<g>], [cpi], [cpi_index_<g>]. *)
Record cpi_row : Type :=
  { r_time_period : time_cell; r_cpi : float64; r_cpi_index : float64 }.

Record cpi_frame : Type :=
  { granularity : string; rows : list cpi_row }.

Global Instance Q_eq_dec : EqDecision Q.
Proof. solve_decision. Defined.
Global Instance float64_eq_dec : EqDecision float64.
Proof. solve_decision. Defined.
Global Instance raw_eq_dec : EqDecision raw.
Proof. solve_decision. Defined.
Global Instance time_cell_eq_dec : EqDecision time_cell.
Proof. solve_decision. Defined.
Global Instance cpi_row_eq_dec : EqDecision cpi_row.
Proof. solve_decision. Defined.

(** ** calculate_cpi *)

Section Merge.
Context {A B : Type}.
Variable key_l : A → string.
Variable key_r : B → string.

(** [left.merge(right, on='category_id', how='inner')]: every pair of a
    left and a right row with the same key, in the order of the left
    rows. *)
Definition merge_inner (left : list A) (right : list B) : list (A * B) :=
  a ← left; b ← filter (λ b, key_r b = key_l a) right; [(a, b)].
End Merge.

(** Lines 86-92: the two joins, then the coercion of the numeric columns. *)
Definition coerce (x : time_row * base_row * weight_row) : merged_row :=
  let '(t, b, w) := x in
  {| time_period := t_time_period t;
     category_id := t_category_id t;
     avg_price := to_numeric (t_avg_price t);
     base_price := to_numeric (b_base_price b);
     weight := to_numeric (w_weight w) |}.

Definition merged_of (time_df : list time_row) (base_df : list base_row)
    (weight_df : list weight_row) : list merged_row :=
  coerce <$>
    merge_inner (λ tb, t_category_id (fst tb)) w_category_id
      (merge_inner t_category_id b_category_id time_df base_df) weight_df.

(** Line 100. *)
Definition price_index (r : merged_row) : float64 :=
  mul (div (avg_price r) (base_price r)) (of_Z 100).

(** Line 104. *)
Definition weighted (r : merged_row) : float64 :=
  mul (price_index r) (weight r).

(** The group keys of [groupby('time_period')] (default [sort=True]):
    the distinct keys in ascending order. *)
Fixpoint insert_key (k : Z) (l : list Z) : list Z :=
  match l with
  | [] => [k]
  | x :: l' =>
      if k <? x then k :: l
      else if k =? x then l
      else x :: insert_key k l'
  end.

Definition group_keys (l : list Z) : list Z := foldr insert_key [] l.

Definition group (t : Z) (merged : list merged_row) : list merged_row :=
  filter (λ r, time_period r = t) merged.

(** Row of [cpi_result] after the aggregation (lines 105-109). *)
Record bucket : Type :=
  { g_time_period : Z;
    total_weight : float64;
    total_weighted : float64 }.

Definition cpi (g : bucket) : float64 :=
  div (total_weighted g) (total_weight g).

Definition aggregate (t : Z) (merged : list merged_row) : bucket :=
  {| g_time_period := t;
     total_weight := nansum (weight <$> group t merged);
     total_weighted := nansum (weighted <$> group t merged) |}.

Definition groupby_agg (merged : list merged_row) : list bucket :=
  (λ t, aggregate t merged) <$> group_keys (time_period <$> merged).

(** [Series.min()] on a non-empty column. *)
Definition min_of (x : Z) (l : list Z) : Z := foldl Z.min x l.

(** Lines 116-120 and the renaming of lines 124-127. *)
Definition rebase (g : string) (base_cpi : float64) (cpi_result : list bucket)
    : cpi_frame :=
  {| granularity := g;
     rows := (λ b, {| r_time_period := PyDate (g_time_period b);
                      r_cpi := cpi b;
                      r_cpi_index := mul (div (cpi b) base_cpi) (of_Z 100) |})
             <$> cpi_result |}.

(** Number of rows whose [base_price] is NaN (line 98). *)
Definition isna_sum (merged : list merged_row) : nat :=
  length (filter (λ r, isna (base_price r) = true) merged).

(** Lines 97-98: one warning carrying the count, when there is any. *)
Definition base_price_warning (merged : list merged_row) : list log_record :=
  if decide (isna_sum merged = 0%nat) then []
  else [Warning_invalid_base_price (isna_sum merged)].

(** The body of the [try], after the three queries returned: the records
    logged on the way and the frame or the exception raised. *)
Definition compose (g : string) (merged : list merged_row)
    : list log_record * result cpi_frame :=
  match merged with
  | [] => ([], Raise ValueError_merged_empty)
  | _ :: _ =>
      let warn := base_price_warning merged in
      let cpi_result := groupby_agg merged in
      match cpi_result with
      | [] => (warn, Raise ValueError_result_empty)
      | b0 :: bs =>
          let base_date := min_of (g_time_period b0) (g_time_period <$> bs) in
          match filter (λ b, g_time_period b = base_date) cpi_result with
          | [] => (warn, Raise IndexError)
          | b :: _ =>
              (warn ++ [Info_dynamic_base base_date],
               Ok (rebase g (cpi b) cpi_result))
          end
      end
  end.

(** The records logged while the three queries run and before the merge
    (lines 24, 43, 75, 82, 85). *)
Definition query_log (g : string) (base_prices : list base_row)
    (time_data : list time_row) (weights : list weight_row)
    : list log_record :=
  [Info_start g;
   Info_base_rows (length base_prices);
   Info_time_rows (length time_data) g;
   Info_weight_rows (length weights);
   Info_merge_start g].

(** [calculate_cpi(granularity)], given what the three queries return.
    The [except] clause logs the exception and raises it again. *)
Definition calculate_cpi (g : string) (base_prices : list base_row)
    (time_data : list time_row) (weights : list weight_row)
    : list log_record * result cpi_frame :=
  let '(log, res) := compose g (merged_of time_data base_prices weights) in
  let head := query_log g base_prices time_data weights in
  match res with
  | Ok f => (head ++ log, Ok f)
  | Raise e => (head ++ log ++ [Error_failed g e], Raise e)
  end.

(** Lines 112-127 taken alone, on the frame that line 110 leaves: the
    columns [time_period] and [cpi], whatever the values of [cpi].  The
    base date is the earliest period, the base cpi the [cpi] of the first
    row of that period, and every [cpi] is divided by it and scaled by
    100.  The result is the base date, as logged, and the frame
    returned. *)
Definition dynamic_base (g : string) (cpi_result : list (Z * float64))
    : result (Z * cpi_frame) :=
  match cpi_result with
  | [] => Raise ValueError_result_empty
  | p0 :: ps =>
      let base_date := min_of (fst p0) (fst <$> ps) in
      match filter (λ p, fst p = base_date) cpi_result with
      | [] => Raise IndexError
      | p :: _ =>
          let base_cpi := snd p in
          Ok (base_date,
              {| granularity := g;
                 rows := (λ q, {| r_time_period := PyDate (fst q);
                                  r_cpi := snd q;
                                  r_cpi_index :=
                                    mul (div (snd q) base_cpi) (of_Z 100) |})
                         <$> cpi_result |})
      end
  end.

(** The columns [time_period] and [cpi] of the aggregated frame (lines
    109-110). *)
Definition cpi_columns (cpi_result : list bucket) : list (Z * float64) :=
  (λ b, (g_time_period b, cpi b)) <$> cpi_result.

(** ** save_combined_results *)

(** The frames live in a store and the caller passes references: an
    assignment to a column of a parameter is seen by the caller. *)
Abbreviation heap := (gmap loc cpi_frame).

(** State and exceptions: what was written to the store before an
    exception stays written. *)
Definition M (A : Type) : Type := heap → heap * result A.

Global Instance M_ret : MRet M := λ A a h, (h, Ok a).
Global Instance M_bind : MBind M := λ A B f m h,
  match m h with
  | (h', Ok a) => f a h'
  | (h', Raise e) => (h', Raise e)
  end.

Definition raise {A} (e : exn) : M A := λ h, (h, Raise e).

Definition lift {A} (r : result A) : M A := λ h, (h, r).

Definition load (l : loc) : M cpi_frame := λ h,
  match h !! l with
  | Some f => (h, Ok f)
  | None => (h, Raise (NameError l))
  end.

Definition store (l : loc) (f : cpi_frame) : M () := λ h, (<[l := f]> h, Ok ()).

(** Name of the time column of a frame, as renamed on lines 124-127. *)
Definition time_column (f : cpi_frame) : string :=
  "time_period_" +:+ granularity f.

(** [df[col]] for the time column. *)
Definition getitem (l : loc) (col : string) : M (list time_cell) :=
  f ← load l;
  if decide (col = time_column f) then mret (r_time_period <$> rows f)
  else raise (KeyError col).

Definition set_time (r : cpi_row) (t : time_cell) : cpi_row :=
  {| r_time_period := t; r_cpi := r_cpi r; r_cpi_index := r_cpi_index r |}.

(** [df[col] = values] for the time column: the frame object is updated
    in place. *)
Definition setitem (l : loc) (col : string) (values : list time_cell) : M () :=
  f ← load l;
  if decide (col = time_column f)
  then store l {| granularity := granularity f;
                  rows := zip_with set_time (rows f) values |}
  else raise (KeyError col).

Definition ns_per_day : Z := 86400000000000.

(** [pd.to_datetime] on one cell: a date becomes the timestamp of its
    midnight, in nanoseconds; a value outside the range of a 64-bit
    nanosecond count is refused. *)
Definition to_datetime1 (c : time_cell) : result time_cell :=
  let ns := match c with PyDate d => d * ns_per_day | Timestamp n => n end in
  if decide (- 2 ^ 63 < ns < 2 ^ 63) then Ok (Timestamp ns)
  else Raise OutOfBoundsDatetime.

Fixpoint to_datetime (col : list time_cell) : result (list time_cell) :=
  match col with
  | [] => Ok []
  | c :: col' =>
      match to_datetime1 c with
      | Raise e => Raise e
      | Ok c' =>
          match to_datetime col' with
          | Raise e => Raise e
          | Ok l => Ok (c' :: l)
          end
      end
  end.

(** Position of a row on the time axis, the sort and join key. *)
Definition key (r : cpi_row) : Z :=
  match r_time_period r with
  | PyDate d => d * ns_per_day
  | Timestamp n => n
  end.

Definition key_le (a b : cpi_row) : Prop := key a ≤ key b.

Global Instance key_le_dec : RelDecision key_le.
Proof. intros a b. unfold key_le. apply _. Defined.

(** The sorting of [sort_values]: rows in ascending order of their key,
    rows of equal key in the order they had, as the sort leaves the
    short frames of this program.  (For longer frames the default sort
    of pandas does not promise the order of equal keys; no statement
    below depends on it.) *)
Fixpoint insert_row (r : cpi_row) (l : list cpi_row) : list cpi_row :=
  match l with
  | [] => [r]
  | x :: l' =>
      if decide (key r < key x) then r :: l else x :: insert_row r l'
  end.

Definition sort_rows (rs : list cpi_row) : list cpi_row :=
  foldl (λ sorted r, insert_row r sorted) [] rs.

(** [df.sort_values(col)]: a sorted copy, the frame itself is not
    touched. *)
Definition sort_values (l : loc) (col : string) : M (list cpi_row) :=
  f ← load l;
  if decide (col = time_column f) then mret (sort_rows (rows f))
  else raise (KeyError col).

(** [pd.merge_asof], backward search: the last right row whose key is at
    most [t], scanning the sorted right rows from the start. *)
Fixpoint asof_backward (t : Z) (right : list cpi_row) (found : option cpi_row)
    : option cpi_row :=
  match right with
  | [] => found
  | r :: right' =>
      if decide (key r ≤ t) then asof_backward t right' (Some r) else found
  end.

(** Forward search: the first right row whose key is at least [t]. *)
Fixpoint asof_forward (t : Z) (right : list cpi_row) : option cpi_row :=
  match right with
  | [] => None
  | r :: right' =>
      if decide (t ≤ key r) then Some r else asof_forward t right'
  end.

(** [direction='nearest']: of the two candidates the one with the smaller
    distance, the backward one when the distances are equal. *)
Definition asof_nearest (t : Z) (right : list cpi_row) : option cpi_row :=
  match asof_backward t right None, asof_forward t right with
  | Some b, Some f => if decide (t - key b ≤ key f - t) then Some b else Some f
  | Some b, None => Some b
  | None, f => f
  end.

(** Row of [combined]: the columns of the daily row, then those of the
    monthly row attached to it ([None]: the monthly columns are null).
    The two [cpi] columns come out as [cpi_x] and [cpi_y]. *)
Record combined_row : Type :=
  { c_daily : cpi_row; c_monthly : option cpi_row }.

Definition merge_asof (left right : list cpi_row) : list combined_row :=
  (λ l, {| c_daily := l; c_monthly := asof_nearest (key l) right |}) <$> left.

(** [save_combined_results(monthly_data, daily_data)] up to the merge
    (lines 176-188), on a disk that takes the file: the value returned is
    the frame that line 194 writes to [combined_cpi_results.csv].  The
    log records of this function are left out; the failure of lines
    190-194 is in [Disk.save_combined_results] below.  [NameError] stands
    for a reference that names no object of the store, which a Python
    caller cannot produce. *)
Definition save_combined_results (monthly_data daily_data : loc)
    : M (list combined_row) :=
  d ← getitem daily_data "time_period_day";
  d' ← lift (to_datetime d);
  _ ← setitem daily_data "time_period_day" d';
  m ← getitem monthly_data "time_period_month";
  m' ← lift (to_datetime m);
  _ ← setitem monthly_data "time_period_month" m';
  left ← sort_values daily_data "time_period_day";
  right ← sort_values monthly_data "time_period_month";
  mret (merge_asof left right).

(** ** save_combined_results and the disk *)

Module Disk.

(** The whole function: the merge, then lines 190-194.  [writable] tells
    whether [mkdir] and [to_csv] succeed; otherwise one of them raises an
    [OSError] (the directory cannot be made, the file cannot be written),
    which the [except] clause logs and raises again.  By then both frames
    of the caller are converted. *)
Definition save_combined_results (writable : bool)
    (monthly_data daily_data : loc) : M (list combined_row) :=
  combined ← save_combined_results monthly_data daily_data;
  if writable then mret combined else raise OSError.

End Disk.

(** * Notions used in the statements *)

(** The rows of a frame at its minimum [time_period]. *)
Definition earliest (f : cpi_frame) (r : cpi_row) : Prop :=
  r ∈ rows f ∧ ∀ r', r' ∈ rows f → key r ≤ key r'.

Definition tolerance : float64 := Fin (1 # 1000000000).

(** The index of the earliest bucket is 100, up to [tolerance]. *)
Definition rebase_invariant (f : cpi_frame) : Prop :=
  ∀ r, earliest f r → within tolerance (of_Z 100) (r_cpi_index r) = true.

(** A cell that is null or zero. *)
Definition null_or_zero (x : float64) : bool := isna x || is_zero x.

(** The records by which a run reports a problem: a warning, or the
    error logged when it fails. *)
Definition is_flag (x : log_record) : bool :=
  match x with
  | Warning_invalid_base_price _ | Error_failed _ _ => true
  | _ => false
  end.

(** A run reports a problem: it logs a warning or it fails. *)
Definition flagged (run : list log_record * result cpi_frame) : Prop :=
  Exists (λ x, is_flag x = true) (fst run) ∨ ∃ e, snd run = Raise e.

(** The weight table with every weight cell rewritten by [f]. *)
Definition map_weights (f : raw → raw) (weights : list weight_row)
    : list weight_row :=
  (λ w, {| w_category_id := w_category_id w; w_weight := f (w_weight w) |})
    <$> weights.

(** A table without the rows of category [c]. *)
Definition drop_category {A : Type} (cat : A → string) (c : string)
    (l : list A) : list A :=
  filter (λ x, cat x ≠ c) l.

(** A frame whose time column went through [pd.to_datetime]. *)
Definition converted (f : cpi_frame) : cpi_frame :=
  {| granularity := granularity f;
     rows := (λ r, set_time r (Timestamp (key r))) <$> rows f |}.

(** Every time of the frame fits a 64-bit count of nanoseconds. *)
Definition in_range (f : cpi_frame) : Prop :=
  Forall (λ r, - 2 ^ 63 < key r < 2 ^ 63) (rows f).

Global Instance in_range_dec (f : cpi_frame) : Decision (in_range f).
Proof. unfold in_range. apply _. Defined.

(** One assignment of lines 178-179: read the time column of a frame,
    convert it, write it back. *)
Definition convert_column (l : loc) (g : string) : M () :=
  c ← getitem l ("time_period_" +:+ g);
  c' ← lift (to_datetime c);
  setitem l ("time_period_" +:+ g) c'.

(** ** Example data *)

Definition num (n : Z) (d : positive) : raw := Numeric (Fin (n # d)).

(** Days from 1970-01-01 to the calendar date [y]-[m]-[d]. *)
Definition days_from_civil (y m d : Z) : Z :=
  let y' := if m <=? 2 then y - 1 else y in
  let era := y' / 400 in
  let yoe := y' - era * 400 in
  let doy := (153 * (if 2 <? m then m - 3 else m + 9) + 2) / 5 + d - 1 in
  let doe := yoe * 365 + yoe / 4 - yoe / 100 + doy in
  era * 146097 + doe - 719468.

Definition d_2025_01_01 : Z := Eval cbv in days_from_civil 2025 1 1.
Definition d_2025_01_15 : Z := Eval cbv in days_from_civil 2025 1 15.
Definition d_2025_02_01 : Z := Eval cbv in days_from_civil 2025 2 1.
Definition d_2025_02_15 : Z := Eval cbv in days_from_civil 2025 2 15.
Definition d_2025_03_01 : Z := Eval cbv in days_from_civil 2025 3 1.

(** The end-to-end example: base prices A 10, B 20; weights A 0.6, B 0.4;
    one bucket with average prices A 12, B 22. *)
Definition ex_base : list base_row :=
  [ {| b_category_id := "A"; b_base_price := num 10 1 |};
    {| b_category_id := "B"; b_base_price := num 20 1 |} ].
Definition ex_weights : list weight_row :=
  [ {| w_category_id := "A"; w_weight := num 6 10 |};
    {| w_category_id := "B"; w_weight := num 4 10 |} ].
Definition ex_time : list time_row :=
  [ {| t_time_period := d_2025_01_01; t_category_id := "A";
       t_avg_price := num 12 1 |};
    {| t_time_period := d_2025_01_01; t_category_id := "B";
       t_avg_price := num 22 1 |} ].

(** No weight parses. *)
Definition bad_weights : list weight_row :=
  [ {| w_category_id := "A"; w_weight := Unparseable |};
    {| w_category_id := "B"; w_weight := Unparseable |} ].

(** One category whose base price is null. *)
Definition null_base : list base_row :=
  [ {| b_category_id := "A"; b_base_price := Missing |};
    {| b_category_id := "B"; b_base_price := num 20 1 |} ].

(** One category whose base price is zero. *)
Definition zero_base : list base_row :=
  [ {| b_category_id := "A"; b_base_price := num 10 1 |};
    {| b_category_id := "B"; b_base_price := num 0 1 |} ].

(** Every weight is zero. *)
Definition zero_weights : list weight_row :=
  [ {| w_category_id := "A"; w_weight := num 0 1 |};
    {| w_category_id := "B"; w_weight := num 0 1 |} ].

(** Base prices for category C only, period prices for D only. *)
Definition only_C : list base_row :=
  [ {| b_category_id := "C"; b_base_price := num 10 1 |} ].
Definition only_D : list time_row :=
  [ {| t_time_period := d_2025_01_01; t_category_id := "D";
       t_avg_price := num 12 1 |} ].

(** The frame with a single bucket, at 2025-01-01. *)
Definition one_bucket (g : string) (c i : float64) : cpi_frame :=
  {| granularity := g;
     rows := [ {| r_time_period := PyDate d_2025_01_01;
                  r_cpi := c; r_cpi_index := i |} ] |}.

(** The weight of A does not parse, that of B does. *)
Definition one_bad_weight : list weight_row :=
  [ {| w_category_id := "A"; w_weight := Unparseable |};
    {| w_category_id := "B"; w_weight := num 4 10 |} ].

(** Joined rows of the examples, for a base price and a weight. *)
Definition row_A (base w : float64) : merged_row :=
  {| time_period := d_2025_01_01; category_id := "A";
     avg_price := Fin 12; base_price := base; weight := w |}.
Definition row_B (base w : float64) : merged_row :=
  {| time_period := d_2025_01_01; category_id := "B";
     avg_price := Fin 22; base_price := base; weight := w |}.

(** Period prices with a category E that has a base price but no weight. *)
Definition time_with_E : list time_row :=
  ex_time ++ [ {| t_time_period := d_2025_01_01; t_category_id := "E";
                  t_avg_price := num 99 1 |} ].
Definition base_with_E : list base_row :=
  ex_base ++ [ {| b_category_id := "E"; b_base_price := num 9 1 |} ].

Definition point (d n i : Z) : cpi_row :=
  {| r_time_period := PyDate d; r_cpi := of_Z n; r_cpi_index := of_Z i |}.

Definition stamped (d n i : Z) : cpi_row :=
  {| r_time_period := Timestamp (d * ns_per_day);
     r_cpi := of_Z n; r_cpi_index := of_Z i |}.

(** A monthly series with three buckets, a daily series with two, as
    [calculate_cpi] returns them, and the store holding them. *)
Definition monthly_ex : cpi_frame :=
  {| granularity := "month";
     rows := [ point d_2025_01_01 116 100;
               point d_2025_02_01 145 125;
               point d_2025_03_01 174 150 ] |}.
Definition daily_ex : cpi_frame :=
  {| granularity := "day";
     rows := [ point d_2025_01_15 120 100;
               point d_2025_02_15 150 125 ] |}.
Definition empty_frame (g : string) : cpi_frame :=
  {| granularity := g; rows := [] |}.

Definition store_of (monthly daily : cpi_frame) : heap :=
  <[1%positive := monthly]> (<[2%positive := daily]> ∅).

(** The file written for [monthly_ex] and [daily_ex]. *)
Definition combined_ex : list combined_row :=
  [ {| c_daily := stamped d_2025_01_15 120 100;
       c_monthly := Some (stamped d_2025_01_01 116 100) |};
    {| c_daily := stamped d_2025_02_15 150 125;
       c_monthly := Some (stamped d_2025_02_01 145 125) |} ].

(** The file written for an empty monthly series and [daily_ex]. *)
Definition combined_no_month : list combined_row :=
  [ {| c_daily := stamped d_2025_01_15 120 100; c_monthly := None |};
    {| c_daily := stamped d_2025_02_15 150 125; c_monthly := None |} ].

(** A daily series with one bucket, on the first day of a month. *)
Definition daily_feb : cpi_frame :=
  {| granularity := "day"; rows := [ point d_2025_02_01 145 100 ] |}.
Definition combined_feb : list combined_row :=
  [ {| c_daily := stamped d_2025_02_01 145 100;
       c_monthly := Some (stamped d_2025_02_01 145 125) |} ].

(** Daily period prices of the example categories, for the day series. *)
Definition ex_time_day : list time_row :=
  [ {| t_time_period := d_2025_01_15; t_category_id := "A";
       t_avg_price := num 12 1 |};
    {| t_time_period := d_2025_02_15; t_category_id := "B";
       t_avg_price := num 22 1 |} ].

(** The frame [calculate_cpi] returns for them. *)
Definition ex_day_frame : cpi_frame :=
  {| granularity := "day";
     rows := [ {| r_time_period := PyDate d_2025_01_15;
                  r_cpi := Fin 120; r_cpi_index := Fin 100 |};
               {| r_time_period := PyDate d_2025_02_15;
                  r_cpi := Fin 110; r_cpi_index := Fin (275 # 3) |} ] |}.

(** * cleaner.py *)

Module Cleaner.

Inductive exn : Type :=
  | KeyError (missing : list string)  (* columns asked for and not there *)
  | TypeError                         (* ['>' between str and int] *)
  | ReadError                         (* raised by [pd.read_csv], line 96 *)
  | ValueError_base_data              (* line 68 *)
  | ValueError_no_price_data.         (* line 85 *)

Inductive outcome (A : Type) : Type :=
  | Return (a : A)
  | Raised (e : exn).
Arguments Return {A} a.
Arguments Raised {A} e.

(** A cell of [change_date]: text, with what [pd.to_datetime] reads in it
    (nanoseconds, or nothing when it does not parse); a timestamp; or
    the null [NaT]. *)
Inductive date_cell : Type :=
  | Text (parsed : option Z)
  | Stamp (ns : Z)
  | NaT.

(** A cell of [price]: a number of a numeric column (NaN where the file
    has nothing), or a string of a column that [read_csv] left as text. *)
Inductive price_cell : Type :=
  | Number (x : float64)
  | Str (s : string).

(** Row of a daily price file.  The columns [product_id] and
    [category_id] are read as strings, a missing value is null. *)
Record row : Type :=
  { product_id : option string;
    category_id : option string;
    name : option string;
    price : price_cell;
    change_date : date_cell }.

(** A frame read from a file: its header and its rows.  The cells of a
    row for a column that is not in the header are not looked at. *)
Record frame : Type :=
  { columns : list string; rows : list row }.

(** Row of the cleaned frame: columns [product_id], [category_id],
    [name], [price], [date].  [date] is the day of the timestamp, counted
    from 1970-01-01, for its text in the form year-month-day. *)
Record clean_row : Type :=
  { c_product_id : option string;
    c_category_id : option string;
    c_name : option string;
    c_price : price_cell;
    date : Z }.

Global Instance date_cell_eq_dec : EqDecision date_cell.
Proof. solve_decision. Defined.
Global Instance price_cell_eq_dec : EqDecision price_cell.
Proof. solve_decision. Defined.
Global Instance row_eq_dec : EqDecision row.
Proof. solve_decision. Defined.
Global Instance clean_row_eq_dec : EqDecision clean_row.
Proof. solve_decision. Defined.

(** [df.empty]: no row or no column. *)
Definition empty (df : frame) : bool :=
  match columns df, rows df with
  | [], _ | _, [] => true
  | _, _ => false
  end.

(** [pd.to_datetime(_, errors='coerce')] on one cell. *)
Definition to_datetime_coerce (c : date_cell) : date_cell :=
  match c with
  | Text (Some ns) => Stamp ns
  | Text None => NaT
  | Stamp ns => Stamp ns
  | NaT => NaT
  end.

Definition set_change_date (r : row) (c : date_cell) : row :=
  {| product_id := product_id r; category_id := category_id r;
     name := name r; price := price r; change_date := c |}.

(** [x > 0] on a float: false on NaN. *)
Definition gt0 (x : float64) : bool :=
  match x with
  | Fin q => 0 <? Qnum q
  | Inf neg => negb neg
  | NaN => false
  end.

(** [df['price'] > 0]: the comparison of the whole column; a string cell
    makes it raise. *)
Fixpoint price_gt0 (col : list price_cell) : outcome (list bool) :=
  match col with
  | [] => Return []
  | Number x :: col' =>
      match price_gt0 col' with
      | Return m => Return (gt0 x :: m)
      | Raised e => Raised e
      end
  | Str _ :: _ => Raised TypeError
  end.

(** [df[mask]]: the rows where the mask holds. *)
Fixpoint select {A : Type} (mask : list bool) (l : list A) : list A :=
  match mask, l with
  | b :: mask', x :: l' => if b then x :: select mask' l' else select mask' l'
  | _, _ => []
  end.

Definition notna {A : Type} (c : option A) : bool :=
  match c with Some _ => true | None => false end.

(** [dt.strftime('%Y-%m-%d')]: the day a timestamp falls on. *)
Definition strftime_day (c : date_cell) : Z :=
  match c with
  | Stamp ns => ns `div` ns_per_day
  | Text _ | NaT => 0
  end.

Definition format (r : row) : clean_row :=
  {| c_product_id := product_id r; c_category_id := category_id r;
     c_name := name r; c_price := price r;
     date := strftime_day (change_date r) |}.

(** The columns that line 40 selects. *)
Definition wanted : list string :=
  ["product_id"; "category_id"; "name"; "price"; "change_date"].

(** [clean_price_data(df)]: the frame of the caller as the call leaves
    it, and what the call returns or raises. *)
Definition clean_price_data (df : option frame)
    : option frame * outcome (option (list clean_row)) :=
  match df with
  | None => (None, Return None)
  | Some f =>
      if empty f then (Some f, Return None)
      else if decide ("change_date" ∈ columns f) then
        (* line 36: the column of the caller's frame is replaced *)
        let f1 := {| columns := columns f;
                     rows := (λ r, set_change_date r
                                     (to_datetime_coerce (change_date r)))
                             <$> rows f |} in
        (* line 37 *)
        let kept := filter (λ r, change_date r ≠ NaT) (rows f1) in
        (* line 40 *)
        match filter (λ c, c ∉ columns f) wanted with
        | (_ :: _) as missing => (Some f1, Raised (KeyError missing))
        | [] =>
            (* lines 44-46 *)
            match price_gt0 (price <$> kept) with
            | Raised e => (Some f1, Raised e)
            | Return positive =>
                let mask :=
                  zip_with andb positive
                    (zip_with andb (notna ∘ product_id <$> kept)
                                   (notna ∘ category_id <$> kept)) in
                (Some f1, Return (Some (format <$> select mask kept)))
            end
        end
      else (Some f, Raised (KeyError ["change_date"]))
  end.

(** What the steps amount to on a row of the file as it was read: whether
    the row is kept, and the row written for it. *)
Definition parses (c : date_cell) : bool :=
  match to_datetime_coerce c with Stamp _ => true | _ => false end.

Definition positive_price (p : price_cell) : bool :=
  match p with Number x => gt0 x | Str _ => false end.

Definition valid (r : row) : bool :=
  parses (change_date r) && positive_price (price r) &&
  notna (product_id r) && notna (category_id r).

Definition cleaned (r : row) : clean_row :=
  format (set_change_date r (to_datetime_coerce (change_date r))).

(** The frame of the caller after line 36. *)
Definition dates_converted (f : frame) : frame :=
  {| columns := columns f;
     rows := (λ r, set_change_date r (to_datetime_coerce (change_date r)))
             <$> rows f |}.

(** The rows a daily file contributes: none when it could not be read or
    is empty. *)
Definition file_rows (df : option frame) : option (list clean_row) :=
  match df with
  | Some f =>
      if empty f then None
      else Some (cleaned <$> filter (λ r, valid r = true) (rows f))
  | None => None
  end.

(** A cell of [categories.csv] as [pd.read_csv] gives it. *)
Inductive cat_cell : Type :=
  | CNull
  | CText (s : string)
  | CNumber (x : float64).

(** [df_cat.fillna(-1)] on one cell. *)
Definition fillna (c : cat_cell) : cat_cell :=
  match c with
  | CNull => CNumber (of_Z (-1))
  | c => c
  end.

Definition fillna_frame (cat : list (list cat_cell)) : list (list cat_cell) :=
  (λ r : list cat_cell, fillna <$> r) <$> cat.

(** The files [main] has written. *)
Record written : Type :=
  { price_csv : option (list clean_row);
    categories_csv : option (list (list cat_cell)) }.

(** Lines 74-81: the daily files in the order of the directory listing,
    each one as [safe_read_csv] returns it ([None]: the file could not be
    read). *)
Fixpoint clean_all (files : list (option frame))
    (all_price_data : list (list clean_row))
    : outcome (list (list clean_row)) :=
  match files with
  | [] => Return all_price_data
  | df_daily :: files' =>
      match snd (clean_price_data df_daily) with
      | Raised e => Raised e
      | Return None => clean_all files' all_price_data
      | Return (Some df_clean) =>
          clean_all files' (all_price_data ++ [df_clean])
      end
  end.

(** [main()], given what [safe_read_csv] returns for the products, the
    categories and each daily file, whether [categories.csv] exists at
    line 95 and what [pd.read_csv] then reads in it.  It returns the
    number of files processed. *)
Definition main {P C : Type} (df_products : option P)
    (df_categories : option C) (daily : list (option frame))
    (categories_exists : bool) (df_cat : outcome (list (list cat_cell)))
    : written * outcome nat :=
  let nothing := {| price_csv := None; categories_csv := None |} in
  match df_products, df_categories with
  | Some _, Some _ =>
      match clean_all daily [] with
      | Raised e => (nothing, Raised e)
      | Return [] => (nothing, Raised ValueError_no_price_data)
      | Return all_price_data =>
          let df_all := concat all_price_data in
          let processed_files := length all_price_data in
          if categories_exists then
            match df_cat with
            | Raised e =>
                ({| price_csv := Some df_all; categories_csv := None |},
                 Raised e)
            | Return cat =>
                ({| price_csv := Some df_all;
                    categories_csv := Some (fillna_frame cat) |},
                 Return processed_files)
            end
          else ({| price_csv := Some df_all; categories_csv := None |},
                Return processed_files)
      end
  | _, _ => (nothing, Raised ValueError_base_data)
  end.

(** ** Example files *)

Definition header : list string :=
  ["product_id"; "category_id"; "name"; "price"; "change_date"; "unit"].

Definition record (p c : option string) (x : price_cell) (d : date_cell)
    : row :=
  {| product_id := p; category_id := c; name := Some "rice";
     price := x; change_date := d |}.

(** 2025-01-15 08:00:00. *)
Definition morning : Z := d_2025_01_15 * ns_per_day + 8 * 3600000000000.

(** A file with one good row, a row of price zero, a row without
    product and a row whose date does not parse and whose price is text. *)
Definition good_file : frame :=
  {| columns := header;
     rows := [ record (Some "p1") (Some "c1") (Number (Fin (7 # 2)))
                 (Text (Some morning));
               record (Some "p2") (Some "c1") (Number (Fin 0))
                 (Text (Some morning));
               record None (Some "c1") (Number (Fin 5)) (Text (Some morning));
               record (Some "p4") (Some "c2") (Str "n/a") (Text None) ] |}.

(** A file whose only row has a text price and a date that parses. *)
Definition text_price_file : frame :=
  {| columns := header;
     rows := [ record (Some "p1") (Some "c1") (Str "n/a")
                 (Text (Some morning)) ] |}.

(** A file whose only row has no price. *)
Definition blank_price_file : frame :=
  {| columns := header;
     rows := [ record (Some "p1") (Some "c1") (Number NaN)
                 (Text (Some morning)) ] |}.

Definition good_clean_row : clean_row :=
  {| c_product_id := Some "p1"; c_category_id := Some "c1";
     c_name := Some "rice"; c_price := Number (Fin (7 # 2));
     date := d_2025_01_15 |}.

End Cleaner.

(** * clickhouse_connector.py and the queries of calculate_cpi *)

Module Connector.

Inductive failure : Type :=
  | ConfigError               (* settings.yml cannot be opened or parsed *)
  | TypeError                 (* a subscript on what is not a mapping *)
  | KeyError (key : string)   (* a key the mapping does not have *)
  | AttributeError            (* [.get] on what is not a mapping *)
  | DriverError (msg : string)  (* raised by the driver when it runs a query *)
  | Computation (e : exn).    (* raised by [calculate_cpi] after the queries *)

Inductive outcome (A : Type) : Type :=
  | Return (a : A)
  | Raised (e : failure).
Arguments Return {A} a.
Arguments Raised {A} e.

(** What [yaml.safe_load] gives: [None] for an empty document or an
    empty value, a scalar (a string, a number, a boolean, a date), a
    list, or a dict.  Of the keys of a dict only the strings are kept:
    the program looks up no other key. *)
#[warnings="-register-all"]
Inductive yaml : Type :=
  | Null
  | Scalar (s : string)
  | Sequence (l : list yaml)
  | Mapping (m : gmap string yaml).

Abbreviation config := yaml.

Definition is_mapping (v : yaml) : bool :=
  match v with Mapping _ => true | _ => false end.

(** The arguments of the driver's [Client], as the configuration gives
    them. *)
Record params : Type :=
  { host : yaml; port : yaml; user : yaml; password : yaml;
    database : yaml; settings : yaml }.

(** What happens to the driver's clients, in order.  A client is named by
    the number of its creation. *)
Inductive event (Q : Type) : Type :=
  | New (client : nat) (p : params)
  | Execute (client : nat) (q : Q)
  | Disconnect (client : nat).
Arguments New {Q} client p.
Arguments Execute {Q} client q.
Arguments Disconnect {Q} client.

Record world (Q : Type) : Type :=
  { next : nat; events : list (event Q) }.
Arguments next {Q} w.
Arguments events {Q} w.

(** A [ClickHouseConnector] object: [self.config], and [self.client] once
    [__enter__] has set it. *)
Record connector : Type :=
  { self_config : config; self_client : option nat }.

(** [__init__]: the configuration is loaded, or loading raised. *)
Definition init (loaded : option config) : outcome connector :=
  match loaded with
  | Some c => Return {| self_config := c; self_client := None |}
  | None => Raised ConfigError
  end.

(** [v[key]] for a string key: the value of a dict, [KeyError] for a
    dict without the key, [TypeError] for [None], a scalar or a list. *)
Definition subscript (v : yaml) (key : string) : outcome yaml :=
  match v with
  | Mapping m =>
      match m !! key with
      | Some x => Return x
      | None => Raised (KeyError key)
      end
  | _ => Raised TypeError
  end.

(** [config['clickhouse'][key]] *)
Definition setting (c : config) (key : string) : outcome yaml :=
  match subscript c "clickhouse" with
  | Raised e => Raised e
  | Return section => subscript section key
  end.

(** [config['clickhouse'].get('settings', {})] *)
Definition get_settings (c : config) : outcome yaml :=
  match subscript c "clickhouse" with
  | Raised e => Raised e
  | Return (Mapping section) =>
      Return (default (Mapping ∅) (section !! "settings"))
  | Return _ => Raised AttributeError
  end.

(** The configurations on which a subscript of [__enter__] meets what is
    not a mapping: the document itself, or its [clickhouse] value. *)
Definition not_mappings (c : config) : Prop :=
  is_mapping c = false ∨
  ∃ m v, c = Mapping m ∧ m !! "clickhouse" = Some v ∧ is_mapping v = false.

(** The arguments of [Client(...)], evaluated from left to right; only
    [settings] has a default. *)
Definition client_params (c : config) : outcome params :=
  match setting c "host" with
  | Raised e => Raised e
  | Return h =>
  match setting c "port" with
  | Raised e => Raised e
  | Return p =>
  match setting c "user" with
  | Raised e => Raised e
  | Return u =>
  match setting c "password" with
  | Raised e => Raised e
  | Return pw =>
  match setting c "database" with
  | Raised e => Raised e
  | Return d =>
  match get_settings c with
  | Raised e => Raised e
  | Return s =>
      Return {| host := h; port := p; user := u; password := pw;
                database := d; settings := s |}
  end end end end end end.

Section Clients.
Context {Q : Type}.

Definition emit (w : world Q) (e : event Q) : world Q :=
  {| next := next w; events := events w ++ [e] |}.

(** [__enter__]: a new client is made and kept in [self.client].  The
    driver's [Client(...)] records its arguments and does not connect;
    it is taken to accept the arguments it is given. *)
Definition enter (self : connector) (w : world Q)
    : connector * world Q * outcome nat :=
  match client_params (self_config self) with
  | Raised e => (self, w, Raised e)
  | Return p =>
      ({| self_config := self_config self; self_client := Some (next w) |},
       {| next := S (next w); events := events w ++ [New (next w) p] |},
       Return (next w))
  end.

(** [__exit__]: the client in [self.client], if there is one, is
    disconnected; an exception of the block is not swallowed. *)
Definition exit_ (self : connector) (w : world Q) : world Q :=
  match self_client self with
  | Some n => emit w (Disconnect n)
  | None => w
  end.

(** [execute(query, params)]: [with self as client: return
    client.execute(query, params)], where [answer] is what the driver
    does with the query. *)
Definition execute {R : Type} (self : connector) (w : world Q) (q : Q)
    (answer : outcome R) : connector * world Q * outcome R :=
  match enter self w with
  | (self', w', Raised e) => (self', w', Raised e)
  | (self', w', Return n) => (self', exit_ self' (emit w' (Execute n q)), answer)
  end.

(** The clients that were made and not disconnected since. *)
Definition open_clients (evs : list (event Q)) : gset nat :=
  foldl (λ s e, match e with
                | New n _ => s ∪ {[n]}
                | Disconnect n => s ∖ {[n]}
                | Execute _ _ => s
                end) ∅ evs.

(** The number of a client is below the next number to give out. *)
Definition client_of (e : event Q) : nat :=
  match e with New n _ | Execute n _ | Disconnect n => n end.

Definition well_formed (w : world Q) : Prop :=
  Forall (λ e, (client_of e < next w)%nat) (events w).

End Clients.

(** clickhouse_connector1.py, [test_connection(client)] *)
Inductive message (T : Type) : Type :=
  | Sample (result : list T)     (* "Connection successful. Sample data: ..." *)
  | No_data                      (* "No data in products table" *)
  | Connection_failed (e : failure).
Arguments Sample {T} result.
Arguments No_data {T}.
Arguments Connection_failed {T} e.

Definition products_query : string := "SELECT * FROM products LIMIT 3".

Definition test_connection {T : Type} (client : connector)
    (w : world string) (answer : outcome (list T))
    : connector * world string * (bool * message T) :=
  match execute client w products_query answer with
  | (client', w', Return []) => (client', w', (false, No_data))
  | (client', w', Return result) => (client', w', (true, Sample result))
  | (client', w', Raised e) => (client', w', (false, Connection_failed e))
  end.

(** ** The queries of calculate_cpi (lines 23-83) *)

Inductive query : Type :=
  | Base_query (start_date end_date : string)
  | Time_query (by_month : bool) (start_date end_date : string)
  | Weight_query.

(** The store, as far as [calculate_cpi] asks it: what each query
    returns, or that it raises. *)
Record store : Type :=
  { base_prices_of : string → string → outcome (list base_row);
    time_data_of : bool → string → string → outcome (list time_row);
    weights_of : outcome (list weight_row) }.

(** A record of the log: one of [calculate_cpi] as before, or the error
    logged by its [except] clause for a failure of the connection. *)
Inductive log_line : Type :=
  | Logged (r : log_record)
  | Failed (granularity : string) (e : failure).

(** [calculate_cpi(granularity)] with its connection: [loaded] is what
    [_load_config] gives, [db] the store. *)
Definition run_calculate_cpi (g : string) (loaded : option config)
    (db : store) (w : world query)
    : world query * list log_line * outcome cpi_frame :=
  let fail (w' : world query) (log : list log_record) (e : failure) :=
    (w', (Logged <$> log) ++ [Failed g e], Raised e) in
  match init loaded with
  | Raised e => fail w [Info_start g] e
  | Return self =>
  match enter self w with
  | (_, w1, Raised e) => fail w1 [Info_start g] e
  | (self1, w1, Return client) =>
  let q_base := Base_query "2025-05-17" "2026-05-17" in
  let w2 := emit w1 (Execute client q_base) in
  match base_prices_of db "2025-05-17" "2026-05-17" with
  | Raised e => fail (exit_ self1 w2) [Info_start g] e
  | Return base_prices =>
  let by_month := bool_decide (g = "month") in
  let q_time := Time_query by_month "2025-05-17" "2028-05-15" in
  let w3 := emit w2 (Execute client q_time) in
  match time_data_of db by_month "2025-05-17" "2028-05-15" with
  | Raised e =>
      fail (exit_ self1 w3)
        [Info_start g; Info_base_rows (length base_prices)] e
  | Return time_data =>
  let w4 := emit w3 (Execute client Weight_query) in
  match weights_of db with
  | Raised e =>
      fail (exit_ self1 w4)
        [Info_start g; Info_base_rows (length base_prices);
         Info_time_rows (length time_data) g] e
  | Return weights =>
      let w5 := exit_ self1 w4 in
      match calculate_cpi g base_prices time_data weights with
      | (log, Ok f) => (w5, Logged <$> log, Return f)
      | (log, Raise e) => (w5, Logged <$> log, Raised (Computation e))
      end
  end end end end end.

(** ** Example configuration and store *)

Definition section_ex : gmap string yaml :=
  <["host" := Scalar "localhost"]> (<["port" := Scalar "9000"]>
    (<["user" := Scalar "default"]> (<["password" := Scalar "secret"]>
      (<["database" := Scalar "prices"]> ∅)))).

Definition config_ex : config :=
  Mapping (<["clickhouse" := Mapping section_ex]> ∅).

(** A configuration without [port]. *)
Definition config_no_port : config :=
  Mapping (<["clickhouse" := Mapping (delete "port" section_ex)]> ∅).

(** settings.yml with the line [clickhouse:] and nothing under it. *)
Definition config_empty_section : config :=
  Mapping (<["clickhouse" := Null]> ∅).

Definition params_ex : params :=
  {| host := Scalar "localhost"; port := Scalar "9000";
     user := Scalar "default"; password := Scalar "secret";
     database := Scalar "prices"; settings := Mapping ∅ |}.

Definition world0 {Q : Type} : world Q := {| next := 0; events := [] |}.

Definition connector_ex : connector :=
  {| self_config := config_ex; self_client := None |}.

(** The connector and the world after one [execute] from [world0]. *)
Definition connector_used : connector :=
  {| self_config := config_ex; self_client := Some 0%nat |}.
Definition world_used {Q : Type} (q : Q) : world Q :=
  {| next := 1;
     events := [New 0 params_ex; Execute 0 q; Disconnect 0] |}.

Definition store_ex : store :=
  {| base_prices_of := λ _ _, Return ex_base;
     time_data_of := λ by_month _ _,
       Return (if by_month then ex_time else ex_time_day);
     weights_of := Return ex_weights |}.

(** A store whose categories table cannot be read. *)
Definition store_no_weights : store :=
  {| base_prices_of := λ _ _, Return ex_base;
     time_data_of := λ _ _ _, Return ex_time;
     weights_of := Raised (DriverError "table categories") |}.

End Connector.

(** * gbk_utf8/batch_converter.py *)

Module Converter.

Abbreviation bytes := (list Byte.byte).

(** The characters of a file opened in text mode, as code points. *)
Abbreviation text := (list N).

(** A path [os.path.join(dir, filename)]: a directory and a name in it.
    A directory is named by its resolved path: two names are the same
    directory exactly when they are equal. *)
Abbreviation path := (string * string)%type.

Inductive exn : Type :=
  | OSError                          (* [os.makedirs] or [os.listdir] *)
  | FileNotFoundError (p : path)     (* [open] of a path that is gone *)
  | IsADirectoryError (p : path)     (* [open] of a directory *)
  | LookupError (encoding : string)  (* [open] with an unknown encoding *)
  | UnicodeEncodeError (encoding : string).  (* [write] of a character the
                                                encoding does not have *)

Inductive outcome (A : Type) : Type :=
  | Return (a : A)
  | Raised (e : exn).
Arguments Return {A} a.
Arguments Raised {A} e.

(** What a path names: a file with its bytes, or a directory.  The
    process may open every file. *)
Inductive entry : Type :=
  | File (raw : bytes)
  | Directory.

(** The incremental encoder that a file opened for writing holds:
    [encode s chunk] is what [write(chunk)] adds to the file when the
    encoder is in the state [s], with the state it is left in, or [None]
    when the chunk holds a character the encoding does not have and
    [write] raises [UnicodeEncodeError], adding nothing. *)
Record encoder : Type :=
  { enc_state : Type;
    enc_start : enc_state;
    encode : enc_state → text → option (bytes * enc_state) }.

(** The library services the function calls.  [detect] is chardet's
    [detect(raw)["encoding"]].  [decoder encoding], when Python knows the
    encoding, gives the text that a file delivers when it is opened for
    reading with that encoding and [errors="ignore"].  [encoder_of
    encoding], when Python knows the encoding, is the encoder of a file
    opened for writing with it. *)
Record codecs : Type :=
  { detect : bytes → option string;
    decoder : string → option (bytes → text);
    encoder_of : string → option encoder }.

(** The files, and the lines printed. *)
Record disk : Type :=
  { files : gmap path entry;
    printed : list (string * string * string) }.

(** [f.lower()], on the letters A to Z: no other character becomes one
    of the characters of the suffix tested below. *)
Definition lower_ascii (c : Ascii.ascii) : Ascii.ascii :=
  let n := Ascii.nat_of_ascii c in
  if decide (65 ≤ n ≤ 90)%nat then Ascii.ascii_of_nat (n + 32) else c.

Definition lower (f : string) : list Ascii.ascii :=
  lower_ascii <$> String.list_ascii_of_string f.

(** [f.lower().endswith(".csv")] *)
Definition is_csv (f : string) : bool :=
  bool_decide (String.list_ascii_of_string ".csv" `suffix_of` lower f).

(** [detect(raw_data)["encoding"] or "gb2312"] on the first 1024 bytes *)
Definition encoding_of (cs : codecs) (raw : bytes) : string :=
  match detect cs (take 1024 raw) with
  | Some e => if decide (e = "") then "gb2312" else e
  | None => "gb2312"
  end.

(** [f_in.read(size)] on what is left of the text: the chunk read and the
    rest.  A negative size reads to the end. *)
Definition read (size : Z) (f_in : text) : text * text :=
  if decide (size < 0) then (f_in, [])
  else (take (Z.to_nat size) f_in, drop (Z.to_nat size) f_in).

(** The [while True] loop, with a bound on the number of its rounds:
    [None] when the bound is reached before the loop ends.  The result is
    what the output file holds when it is closed, and whether the loop
    came to its [break] ([true]) or a [write] raised ([false]). *)
Fixpoint copy (rounds : nat) (enc : encoder) (buffer_size : Z) (f_in : text)
    (s : enc_state enc) (f_out : bytes) : option (bytes * bool) :=
  match rounds with
  | O => None
  | S rounds =>
      let (chunk, rest) := read buffer_size f_in in
      match chunk with
      | [] => Some (f_out, true)
      | _ :: _ =>
          match encode enc s chunk with
          | None => Some (f_out, false)
          | Some (b, s') => copy rounds enc buffer_size rest s' (f_out ++ b)
          end
      end
  end.

(** The body of the [for] loop for one name.  The input file is opened
    twice, for the detection and for reading; then the output file is
    opened, which empties it, also when the target encoding turns out to
    be unknown.  When the two paths are the same file, the file read is
    the file just emptied.  The loop is given one round for each
    character and one more. *)
Definition convert (cs : codecs) (input_dir output_dir : string)
    (target_encoding : string) (buffer_size : Z) (filename : string)
    (d : disk) : option (disk * outcome ()) :=
  let input_path := (input_dir, filename) in
  let output_path := (output_dir, filename) in
  match files d !! input_path with
  | None => Some (d, Raised (FileNotFoundError input_path))
  | Some Directory => Some (d, Raised (IsADirectoryError input_path))
  | Some (File raw) =>
      let encoding := encoding_of cs raw in
      match decoder cs encoding with
      | None => Some (d, Raised (LookupError encoding))
      | Some decode =>
          match files d !! output_path with
          | Some Directory =>
              Some (d, Raised (IsADirectoryError output_path))
          | _ =>
              match encoder_of cs target_encoding with
              | None =>
                  Some ({| files := <[output_path := File []]> (files d);
                           printed := printed d |},
                        Raised (LookupError target_encoding))
              | Some enc =>
                  let f_in :=
                    if decide (output_path = input_path) then []
                    else decode raw in
                  match copy (S (length f_in)) enc buffer_size f_in
                          (enc_start enc) [] with
                  | None => None
                  | Some (f_out, true) =>
                      Some ({| files :=
                                 <[output_path := File f_out]> (files d);
                               printed := printed d ++
                                 [(filename, encoding, target_encoding)] |},
                            Return ())
                  | Some (f_out, false) =>
                      Some ({| files :=
                                 <[output_path := File f_out]> (files d);
                               printed := printed d |},
                            Raised (UnicodeEncodeError target_encoding))
                  end
              end
          end
      end
  end.

Fixpoint convert_all (cs : codecs) (input_dir output_dir : string)
    (target_encoding : string) (buffer_size : Z) (csv_files : list string)
    (d : disk) : option (disk * outcome ()) :=
  match csv_files with
  | [] => Some (d, Return ())
  | filename :: csv_files =>
      match convert cs input_dir output_dir target_encoding buffer_size
              filename d with
      | Some (d', Return _) =>
          convert_all cs input_dir output_dir target_encoding buffer_size
            csv_files d'
      | r => r
      end
  end.

(** [batch_convert(input_dir, output_dir, target_encoding, buffer_size)].
    [listing] is what [os.makedirs(output_dir, exist_ok=True)] followed
    by [os.listdir(input_dir)] gives: the names, or [None] when one of
    the two raises; [fs] holds the files at that moment. *)
Definition batch_convert (cs : codecs) (listing : option (list string))
    (fs : gmap path entry) (input_dir output_dir : string)
    (target_encoding : string) (buffer_size : Z)
    : option (disk * outcome ()) :=
  match listing with
  | None => Some ({| files := fs; printed := [] |}, Raised OSError)
  | Some names =>
      let csv_files := filter (λ f, is_csv f = true) names in
      convert_all cs input_dir output_dir target_encoding buffer_size
        csv_files {| files := fs; printed := [] |}
  end.

(** ** Notions used in the statements *)

(** The text that the loop passes to [write]. *)
Definition written (buffer_size : Z) (f_in : text) : text :=
  if decide (buffer_size = 0) then [] else f_in.

(** A cutting of that text into the chunks of the loop: none is empty,
    and none is longer than a positive buffer size. *)
Definition chunking (buffer_size : Z) (f_in : text) (chunks : list text)
    : Prop :=
  concat chunks = written buffer_size f_in ∧
  Forall (λ c, c ≠ [] ∧
               (0 < buffer_size → (length c ≤ Z.to_nat buffer_size)%nat))
    chunks.

(** The chunks that the reads of the loop deliver, within a number of
    rounds. *)
Fixpoint pieces (rounds : nat) (buffer_size : Z) (f_in : text) : list text :=
  match rounds with
  | O => []
  | S rounds =>
      let (chunk, rest) := read buffer_size f_in in
      match chunk with
      | [] => []
      | _ :: _ => chunk :: pieces rounds buffer_size rest
      end
  end.

(** What the encoder makes of chunks written one after the other: the
    bytes of the chunks before the first it refuses, and whether it took
    them all. *)
Fixpoint feed (enc : encoder) (s : enc_state enc) (chunks : list text)
    (f_out : bytes) : bytes * bool :=
  match chunks with
  | [] => (f_out, true)
  | chunk :: chunks =>
      match encode enc s chunk with
      | None => (f_out, false)
      | Some (b, s') => feed enc s' chunks (f_out ++ b)
      end
  end.

(** The encoding has every character of a text: the encoder refuses no
    chunk made of them, in any state. *)
Definition encodes (enc : encoder) (t : text) : Prop :=
  ∀ s chunk, chunk ⊆ t → is_Some (encode enc s chunk).

(** A name of the listing is listed. *)
Definition listed (listing : option (list string)) (name : string) : Prop :=
  ∃ names, listing = Some names ∧ name ∈ names.

(** The exception with which the input file of a name cannot be opened,
    for the detection or for reading. *)
Definition input_failure (cs : codecs) (fs : gmap path entry)
    (input_dir filename : string) : option exn :=
  match fs !! (input_dir, filename) with
  | None => Some (FileNotFoundError (input_dir, filename))
  | Some Directory => Some (IsADirectoryError (input_dir, filename))
  | Some (File raw) =>
      match decoder cs (encoding_of cs raw) with
      | None => Some (LookupError (encoding_of cs raw))
      | Some _ => None
      end
  end.

(** A name that can be converted with an encoder: the input is a file
    in an encoding Python knows, the output path is not a directory, and
    the target encoding has every character of the text of the input. *)
Definition convertible (cs : codecs) (enc : encoder) (fs : gmap path entry)
    (input_dir output_dir filename : string) : Prop :=
  input_failure cs fs input_dir filename = None ∧
  fs !! (output_dir, filename) ≠ Some Directory ∧
  ∀ raw decode,
    fs !! (input_dir, filename) = Some (File raw) →
    decoder cs (encoding_of cs raw) = Some decode →
    encodes enc (decode raw).

(** ** Example directory *)

(** A detector that knows two byte-order marks, single-byte decoders, and
    two encoders: utf-8 and ascii. *)
Definition detect_ex (raw : bytes) : option string :=
  match raw with
  | Byte.xef :: Byte.xbb :: Byte.xbf :: _ => Some "UTF-8-SIG"
  | Byte.xff :: Byte.xfe :: _ => Some "UTF-16"
  | _ => None
  end.

Definition decoder_ex (encoding : string) : option (bytes → text) :=
  if decide (encoding = "gb2312") then Some (fmap Byte.to_N)
  else if decide (encoding = "UTF-8-SIG")
       then Some (λ raw, Byte.to_N <$> drop 3 raw)
       else None.

Definition byte_of (n : N) : Byte.byte := default Byte.x00 (Byte.of_N n).

Definition utf8 (c : N) : bytes :=
  (if decide (c < 128) then [byte_of c]
   else if decide (c < 2048)
        then [byte_of (192 + c / 64); byte_of (128 + c mod 64)]
   else if decide (c < 65536)
        then [byte_of (224 + c / 4096); byte_of (128 + (c / 64) mod 64);
              byte_of (128 + c mod 64)]
   else [byte_of (240 + (c / 262144) mod 8);
         byte_of (128 + (c / 4096) mod 64);
         byte_of (128 + (c / 64) mod 64); byte_of (128 + c mod 64)])%N.

Definition utf8_encoder : encoder :=
  {| enc_state := ();
     enc_start := ();
     encode := λ s chunk, Some (chunk ≫= utf8, s) |}.

Definition ascii_encoder : encoder :=
  {| enc_state := ();
     enc_start := ();
     encode := λ s chunk,
       if decide (Forall (λ c, c < 128)%N chunk)
       then Some (byte_of <$> chunk, s) else None |}.

Definition encoder_ex (encoding : string) : option encoder :=
  if decide (encoding = "utf-8") then Some utf8_encoder
  else if decide (encoding = "ascii") then Some ascii_encoder
  else None.

Definition codecs_ex : codecs :=
  {| detect := detect_ex; decoder := decoder_ex; encoder_of := encoder_ex |}.

Definition raw_ex : bytes := [Byte.x61; Byte.x2c; Byte.x62; Byte.x0a; Byte.x31].
Definition raw_bom : bytes := [Byte.xef; Byte.xbb; Byte.xbf; Byte.x61].
Definition raw_utf16 : bytes := [Byte.xff; Byte.xfe; Byte.x61; Byte.x00].

(** The directory [raw] with three files, and the directory [utf] with
    two files of an earlier run. *)
Definition fs_ex : gmap path entry :=
  <[("raw", "a.csv") := File raw_ex]>
    (<[("raw", "notes.txt") := File raw_ex]>
       (<[("raw", "B.CSV") := File raw_bom]>
          (<[("utf", "notes.txt") := File [Byte.x6e]]>
             (<[("utf", "z.csv") := File [Byte.x7a]]> ∅)))).

Definition listing_ex : list string := ["a.csv"; "notes.txt"; "B.CSV"].

(** The same with a file in an encoding the decoders do not know. *)
Definition fs_bad : gmap path entry :=
  <[("raw", "w.csv") := File raw_utf16]>
    (<[("raw", "z.csv") := File raw_bom]> fs_ex).

(** The files and the lines printed after the call on [fs_ex] with a
    buffer of two characters. *)
Definition disk_ex : disk :=
  {| files :=
       <[("utf", "B.CSV") := File [Byte.x61]]>
         (<[("utf", "a.csv") := File raw_ex]> fs_ex);
     printed :=
       [("a.csv", "gb2312", "utf-8"); ("B.CSV", "UTF-8-SIG", "utf-8")] |}.

End Converter.

(** * Properties *)

(** ** Arithmetic of the cells *)

Lemma Q_zero_spec (q : Q) : Q_zero q = true ↔ (q == 0)%Q.
Proof.
  unfold Q_zero, Qeq. destruct q as [n d]; simpl.
  rewrite Z.eqb_eq. lia.
Qed.

Lemma div_self (x : float64) :
  is_finite x = true → is_zero x = false → div x x = Fin 1.
Proof.
  destruct x as [| |q]; simpl; try discriminate.
  intros _ Hz. rewrite Hz. f_equal.
  change 1%Q with (Qred 1). apply Qred_complete.
  apply Qmult_inv_r. intros H. apply Q_zero_spec in H. congruence.
Qed.

Lemma rebase_self (x : float64) :
  is_finite x = true → is_zero x = false →
  mul (div x x) (of_Z 100) = of_Z 100.
Proof. intros Hf Hz. by rewrite div_self. Qed.

Lemma mul_nan_r (x : float64) : mul x NaN = NaN.
Proof. by destruct x. Qed.

Lemma div_nan_r (x : float64) : div x NaN = NaN.
Proof. by destruct x. Qed.

(** A NaN entry does not take part in a sum. *)
Lemma nansum_skip (l1 l2 : list float64) :
  nansum (l1 ++ NaN :: l2) = nansum (l1 ++ l2).
Proof.
  unfold nansum. rewrite !filter_app, filter_cons.
  by rewrite decide_False by done.
Qed.

(** ** Group keys *)

Lemma insert_key_elem (k x : Z) (l : list Z) :
  x ∈ insert_key k l ↔ x = k ∨ x ∈ l.
Proof.
  induction l as [|y l IH]; simpl.
  - rewrite list_elem_of_singleton, elem_of_nil. tauto.
  - destruct (Z.ltb_spec k y); [by rewrite elem_of_cons|].
    destruct (Z.eqb_spec k y) as [->|Hne].
    + rewrite elem_of_cons. tauto.
    + rewrite !elem_of_cons, IH. tauto.
Qed.

Lemma group_keys_elem (x : Z) (l : list Z) : x ∈ group_keys l ↔ x ∈ l.
Proof.
  unfold group_keys. induction l as [|y l IH]; simpl; [done|].
  rewrite insert_key_elem, IH, elem_of_cons. tauto.
Qed.

Lemma group_keys_nil_inv (l : list Z) : group_keys l = [] → l = [].
Proof.
  destruct l as [|x l]; [done|]. intros H.
  assert (x ∈ group_keys (x :: l)) as Hx by (apply group_keys_elem; left).
  rewrite H in Hx. by apply elem_of_nil in Hx.
Qed.

(** The keys come out strictly ascending: one bucket per period. *)
Lemma insert_key_sorted (k : Z) (l : list Z) :
  StronglySorted Z.lt l → StronglySorted Z.lt (insert_key k l).
Proof.
  induction 1 as [|y l Hl IH Hy]; simpl.
  - repeat constructor.
  - destruct (Z.ltb_spec k y) as [Hk|Hk].
    + constructor; [by constructor|].
      constructor; [done|]. eapply Forall_impl; [exact Hy|]. simpl; lia.
    + destruct (Z.eqb_spec k y) as [->|Hne]; [by constructor|].
      constructor; [done|].
      apply Forall_forall. intros x Hx. apply insert_key_elem in Hx.
      destruct Hx as [->|Hx]; [lia|].
      by eapply Forall_forall in Hy.
Qed.

Lemma group_keys_sorted (l : list Z) : StronglySorted Z.lt (group_keys l).
Proof.
  unfold group_keys. induction l; simpl; [constructor|].
  by apply insert_key_sorted.
Qed.

Lemma min_of_le_init (x : Z) (l : list Z) : min_of x l ≤ x.
Proof.
  unfold min_of. revert x. induction l as [|y l IH]; intros x; simpl; [lia|].
  specialize (IH (Z.min x y)). lia.
Qed.

Lemma min_of_le (x y : Z) (l : list Z) : y ∈ l → min_of x l ≤ y.
Proof.
  unfold min_of. revert x. induction l as [|z l IH]; intros x Hy; simpl.
  - by apply elem_of_nil in Hy.
  - apply elem_of_cons in Hy as [->|Hy].
    + pose proof (min_of_le_init (Z.min x z) l). unfold min_of in *. lia.
    + by apply IH.
Qed.

Lemma min_of_elem (x : Z) (l : list Z) : min_of x l ∈ x :: l.
Proof.
  unfold min_of. revert x. induction l as [|z l IH]; intros x; simpl.
  - left.
  - specialize (IH (Z.min x z)). apply elem_of_cons in IH as [IH|IH].
    + rewrite IH.
      destruct (Z.min_spec x z) as [[_ ->]|[_ ->]]; [left|right; left].
    + by do 2 right.
Qed.

(** ** The composer always succeeds on a non-empty join *)

Lemma groupby_agg_elem (b : bucket) (merged : list merged_row) :
  b ∈ groupby_agg merged ↔
  ∃ r, r ∈ merged ∧ b = aggregate (time_period r) merged.
Proof.
  unfold groupby_agg. rewrite list_elem_of_fmap. split.
  - intros (t & -> & Ht). apply group_keys_elem, list_elem_of_fmap in Ht.
    destruct Ht as (r & -> & Hr). eauto.
  - intros (r & Hr & ->). eexists; split; [done|].
    apply group_keys_elem, list_elem_of_fmap. eauto.
Qed.

Lemma groupby_agg_nil_inv (merged : list merged_row) :
  groupby_agg merged = [] → merged = [].
Proof.
  unfold groupby_agg. intros H.
  apply fmap_nil_inv, group_keys_nil_inv, fmap_nil_inv in H. done.
Qed.

(** Two buckets of one aggregation with the same period are the same. *)
Lemma groupby_agg_inj (b b' : bucket) (merged : list merged_row) :
  b ∈ groupby_agg merged → b' ∈ groupby_agg merged →
  g_time_period b = g_time_period b' → b = b'.
Proof.
  rewrite !groupby_agg_elem. intros (r & _ & ->) (r' & _ & ->). simpl.
  by intros ->.
Qed.

Lemma compose_ok (g : string) (merged : list merged_row) :
  merged ≠ [] →
  ∃ b, b ∈ groupby_agg merged ∧
       (∀ b', b' ∈ groupby_agg merged → g_time_period b ≤ g_time_period b') ∧
       compose g merged =
         (base_price_warning merged ++ [Info_dynamic_base (g_time_period b)],
          Ok (rebase g (cpi b) (groupby_agg merged))).
Proof.
  intros Hne. destruct merged as [|r0 merged0]; [done|].
  unfold compose. set (merged := r0 :: merged0) in *.
  destruct (groupby_agg merged) as [|b0 bs] eqn:Hagg.
  { by apply groupby_agg_nil_inv in Hagg. }
  set (base_date := min_of (g_time_period b0) (g_time_period <$> bs)).
  assert (base_date ∈ g_time_period <$> (b0 :: bs)) as Hin
    by apply min_of_elem.
  apply list_elem_of_fmap in Hin as (bm & Hbm & Hin).
  destruct (filter (λ b, g_time_period b = base_date) (b0 :: bs))
    as [|b bs'] eqn:Hf.
  { exfalso. by apply (filter_nil_not_elem_of _ _ bm Hf). }
  assert (b ∈ filter (λ b, g_time_period b = base_date) (b0 :: bs)) as Hb
    by (rewrite Hf; left).
  apply list_elem_of_filter in Hb as [Hbt Hb].
  exists b. split; [done|]. split; [|by rewrite Hbt].
  intros b' Hb'. rewrite Hbt. unfold base_date.
  apply elem_of_cons in Hb' as [->|Hb'].
  - apply min_of_le_init.
  - apply min_of_le, list_elem_of_fmap. eauto.
Qed.

Lemma calculate_cpi_unfold (g : string) (base_prices : list base_row)
    (time_data : list time_row) (weights : list weight_row) :
  snd (calculate_cpi g base_prices time_data weights) =
  snd (compose g (merged_of time_data base_prices weights)).
Proof.
  unfold calculate_cpi.
  destruct (compose g (merged_of time_data base_prices weights)) as [log [f|e]];
    done.
Qed.

(** ** Rebasing *)

(** The end-to-end example: price relatives 120 and 110, cpi
    (120 * 0.6 + 110 * 0.4) / (0.6 + 0.4) = 116, index 100. *)
Example end_to_end :
  price_index <$> merged_of ex_time ex_base ex_weights = [Fin 120; Fin 110] ∧
  calculate_cpi "month" ex_base ex_time ex_weights =
    (query_log "month" ex_base ex_time ex_weights ++
       [Info_dynamic_base d_2025_01_01],
     Ok (one_bucket "month" (Fin 116) (Fin 100))).
Proof. split; by vm_compute. Qed.

Example example_dates :
  d_2025_01_01 = 20089 ∧ d_2025_01_15 - d_2025_01_01 = 14 ∧
  d_2025_02_01 - d_2025_01_15 = 17 ∧
  d_2025_02_15 - d_2025_02_01 = d_2025_03_01 - d_2025_02_15.
Proof. done. Qed.

Lemma key_PyDate_le (d d' : Z) (r r' : cpi_row) :
  r_time_period r = PyDate d → r_time_period r' = PyDate d' →
  key r ≤ key r' → d ≤ d'.
Proof. unfold key, ns_per_day. intros -> ->. lia. Qed.

Lemma calculate_cpi_ok_inv (g : string) (base_prices : list base_row)
    (time_data : list time_row) (weights : list weight_row)
    (log : list log_record) (f : cpi_frame) :
  calculate_cpi g base_prices time_data weights = (log, Ok f) →
  let merged := merged_of time_data base_prices weights in
  ∃ b, b ∈ groupby_agg merged ∧
       (∀ b', b' ∈ groupby_agg merged → g_time_period b ≤ g_time_period b') ∧
       f = rebase g (cpi b) (groupby_agg merged).
Proof.
  intros Hrun merged.
  pose proof (calculate_cpi_unfold g base_prices time_data weights) as Hsnd.
  rewrite Hrun in Hsnd. simpl in Hsnd. fold merged in Hsnd.
  destruct (decide (merged = [])) as [Hnil|Hne].
  { rewrite Hnil in Hsnd. done. }
  destruct (compose_ok g merged Hne) as (b & Hb & Hmin & Hc).
  rewrite Hc in Hsnd. simpl in Hsnd. exists b. by simplify_eq.
Qed.

(** A quotient [x / x * 100]: 100 for a finite non-zero [x], as in IEEE
    arithmetic, where a correctly rounded [x / x] is exactly 1; NaN for
    every other [x]. *)
Lemma rebase_self_undefined (x : float64) :
  is_finite x = false ∨ is_zero x = true →
  mul (div x x) (of_Z 100) = NaN.
Proof.
  destruct x as [|a|q]; simpl; [done|done|].
  intros [?|Hz]; [done|]. by rewrite Hz.
Qed.

Lemma StronglySorted_lt_NoDup (l : list Z) : StronglySorted Z.lt l → NoDup l.
Proof.
  induction 1 as [|x l Hs IH Hx]; constructor; [|done].
  intros Hin. rewrite Forall_forall in Hx. specialize (Hx x Hin). lia.
Qed.

Lemma NoDup_fst_inj {A B : Type} (l : list (A * B)) (p q : A * B) :
  NoDup (fst <$> l) → p ∈ l → q ∈ l → fst p = fst q → p = q.
Proof.
  induction l as [|x l IH]; intros Hnd Hp Hq Hpq.
  { by apply elem_of_nil in Hp. }
  rewrite fmap_cons in Hnd. apply NoDup_cons in Hnd as [Hx Hnd].
  apply elem_of_cons in Hp as [->|Hp]; apply elem_of_cons in Hq as [->|Hq].
  - done.
  - exfalso. apply Hx. rewrite Hpq. apply list_elem_of_fmap. eauto.
  - exfalso. apply Hx. rewrite <- Hpq. apply list_elem_of_fmap. eauto.
  - by apply IH.
Qed.

(** What [dynamic_base] returns on a frame with rows: the base date is
    the least period, it is the period of some row, and the base cpi is
    the [cpi] of a row of that period. *)
Lemma dynamic_base_ok (g : string) (cpi_result : list (Z * float64)) :
  cpi_result ≠ [] →
  ∃ p, p ∈ cpi_result ∧
       (∀ q, q ∈ cpi_result → fst p ≤ fst q) ∧
       dynamic_base g cpi_result =
         Ok (fst p,
             {| granularity := g;
                rows := (λ q, {| r_time_period := PyDate (fst q);
                                 r_cpi := snd q;
                                 r_cpi_index :=
                                   mul (div (snd q) (snd p)) (of_Z 100) |})
                        <$> cpi_result |}).
Proof.
  intros Hne. destruct cpi_result as [|p0 ps]; [done|].
  unfold dynamic_base.
  set (base_date := min_of (fst p0) (fst <$> ps)).
  assert (base_date ∈ fst <$> (p0 :: ps)) as Hin by apply min_of_elem.
  apply list_elem_of_fmap in Hin as (pm & Hpm & Hin).
  destruct (filter (λ p, fst p = base_date) (p0 :: ps)) as [|p ps'] eqn:Hf.
  { exfalso. by apply (filter_nil_not_elem_of _ _ pm Hf). }
  assert (p ∈ filter (λ p, fst p = base_date) (p0 :: ps)) as Hp
    by (rewrite Hf; left).
  apply list_elem_of_filter in Hp as [Hpt Hp].
  exists p. split; [done|]. split; [|by rewrite Hpt].
  intros q Hq. rewrite Hpt. unfold base_date.
  apply elem_of_cons in Hq as [->|Hq].
  - apply min_of_le_init.
  - apply min_of_le, list_elem_of_fmap. eauto.
Qed.

(** [calculate_cpi] ends with this step: the frame it returns is what
    [dynamic_base] makes of the two columns of its aggregated frame,
    which has one row per period. *)
Lemma calculate_cpi_dynamic_base (g : string) (base_prices : list base_row)
    (time_data : list time_row) (weights : list weight_row)
    (log : list log_record) (f : cpi_frame) :
  calculate_cpi g base_prices time_data weights = (log, Ok f) →
  ∃ cpi_result base_date,
    cpi_result =
      cpi_columns (groupby_agg (merged_of time_data base_prices weights)) ∧
    cpi_result ≠ [] ∧
    NoDup (fst <$> cpi_result) ∧
    dynamic_base g cpi_result = Ok (base_date, f).
Proof.
  intros Hrun.
  apply calculate_cpi_ok_inv in Hrun as (b & Hb & Hmin & ->).
  set (agg := groupby_agg (merged_of time_data base_prices weights)) in *.
  assert (NoDup (fst <$> cpi_columns agg)) as Hnd.
  { unfold cpi_columns. rewrite <- list_fmap_compose.
    unfold agg, groupby_agg. rewrite <- list_fmap_compose.
    erewrite list_fmap_ext; [rewrite list_fmap_id|by intros].
    apply StronglySorted_lt_NoDup, group_keys_sorted. }
  assert (cpi_columns agg ≠ []) as Hne.
  { intros Hnil. apply fmap_nil_inv in Hnil. rewrite Hnil in Hb.
    by apply elem_of_nil in Hb. }
  destruct (dynamic_base_ok g _ Hne) as (p & Hp & Hpmin & Hdb).
  exists (cpi_columns agg), (fst p). split; [done|]. split; [done|].
  split; [done|]. rewrite Hdb. do 2 f_equal.
  assert (p = (g_time_period b, cpi b)) as ->.
  { apply (NoDup_fst_inj (cpi_columns agg)); [done|done| |].
    - apply list_elem_of_fmap. eauto.
    - simpl. apply Z.le_antisymm.
      + apply (Hpmin (g_time_period b, cpi b)), list_elem_of_fmap. eauto.
      + apply list_elem_of_fmap in Hp as (b' & -> & Hb'). by apply Hmin. }
  unfold rebase, cpi_columns. simpl. f_equal.
  by rewrite <- list_fmap_compose.
Qed.

(** C1 (as amended): the rebasing step of [calculate_cpi] (lines 112-127),
    for every aggregated frame with rows and one row per period,
    whatever its [cpi] values: it returns, and in the frame returned the
    row at the minimum [time_period] is the row of the base date; its
    [cpi_index] is exactly 100, hence within the tolerance 1e-9, when its
    [cpi] is a finite non-zero number, and NaN when its [cpi] is NaN,
    zero or infinite.  Every frame [calculate_cpi] returns comes out of
    this step ([calculate_cpi_dynamic_base]). *)
Theorem rebase_anchor (g : string) (cpi_result : list (Z * float64)) :
  cpi_result ≠ [] →
  NoDup (fst <$> cpi_result) →
  ∃ base_date f,
    dynamic_base g cpi_result = Ok (base_date, f) ∧
    rows f ≠ [] ∧
    ∀ r, earliest f r →
         r_time_period r = PyDate base_date ∧
         (is_finite (r_cpi r) = true → is_zero (r_cpi r) = false →
          r_cpi_index r = of_Z 100 ∧
          within tolerance (of_Z 100) (r_cpi_index r) = true) ∧
         (is_finite (r_cpi r) = false ∨ is_zero (r_cpi r) = true →
          r_cpi_index r = NaN).
Proof.
  intros Hne Hnd.
  destruct (dynamic_base_ok g cpi_result Hne) as (p & Hp & Hpmin & ->).
  eexists _, _. split; [done|]. simpl. split.
  { intros Hnil. by apply fmap_nil_inv in Hnil. }
  intros r [Hr Hmin]. simpl in Hr, Hmin.
  apply list_elem_of_fmap in Hr as (q & -> & Hq). simpl.
  assert (q = p) as ->.
  { apply (NoDup_fst_inj cpi_result); [done|done|done|].
    apply Z.le_antisymm; [|by apply Hpmin].
    eapply key_PyDate_le; [| |apply Hmin, list_elem_of_fmap; by exists p];
      done. }
  split; [done|]. split.
  - intros Hfin Hnz. by rewrite rebase_self.
  - apply rebase_self_undefined.
Qed.

Lemma rebase_anchor_witness :
  ∃ base_date f,
    dynamic_base "month" [(d_2025_02_01, Fin 58); (d_2025_01_01, Fin 116)]
      = Ok (base_date, f) ∧
    rows f ≠ [] ∧
    ∀ r, earliest f r →
         r_time_period r = PyDate base_date ∧
         (is_finite (r_cpi r) = true → is_zero (r_cpi r) = false →
          r_cpi_index r = of_Z 100 ∧
          within tolerance (of_Z 100) (r_cpi_index r) = true) ∧
         (is_finite (r_cpi r) = false ∨ is_zero (r_cpi r) = true →
          r_cpi_index r = NaN).
Proof.
  apply (rebase_anchor "month"
           [(d_2025_02_01, Fin 58); (d_2025_01_01, Fin 116)]).
  - done.
  - apply (bool_decide_unpack _). by vm_compute.
Defined.

(** The frame returned has one row per period, in ascending order. *)
Lemma calculate_cpi_ascending (g : string) (base_prices : list base_row)
    (time_data : list time_row) (weights : list weight_row)
    (log : list log_record) (f : cpi_frame) :
  calculate_cpi g base_prices time_data weights = (log, Ok f) →
  StronglySorted (λ a b, key a < key b) (rows f).
Proof.
  intros (b & _ & _ & ->)%calculate_cpi_ok_inv. simpl.
  unfold groupby_agg. rewrite <- list_fmap_compose.
  eapply StronglySorted_fmap; [|apply group_keys_sorted].
  intros x y Hxy. unfold key, ns_per_day. simpl. lia.
Qed.

(** ** Filters *)

Section Filter.
Context {A : Type} (P : A → Prop) `{!∀ x, Decision (P x)}.

Lemma filter_none (l : list A) :
  (∀ x, x ∈ l → ¬ P x) → filter P l = [].
Proof.
  induction l as [|x l IH]; intros Hl; [done|].
  rewrite filter_cons_False by (apply Hl; left).
  apply IH. intros y Hy. apply Hl. by right.
Qed.

Lemma filter_all (l : list A) :
  (∀ x, x ∈ l → P x) → filter P l = l.
Proof.
  induction l as [|x l IH]; intros Hl; [done|].
  rewrite filter_cons_True by (apply Hl; left).
  f_equal. apply IH. intros y Hy. apply Hl. by right.
Qed.
End Filter.

(** The two outcomes of a run, with the whole log. *)
Lemma calculate_cpi_cases (g : string) (base_prices : list base_row)
    (time_data : list time_row) (weights : list weight_row) :
  let merged := merged_of time_data base_prices weights in
  let head := query_log g base_prices time_data weights in
  match merged with
  | [] =>
      calculate_cpi g base_prices time_data weights =
        (head ++ [Error_failed g ValueError_merged_empty],
         Raise ValueError_merged_empty)
  | _ :: _ =>
      ∃ b, b ∈ groupby_agg merged ∧
           (∀ b', b' ∈ groupby_agg merged →
                  g_time_period b ≤ g_time_period b') ∧
           calculate_cpi g base_prices time_data weights =
             (head ++ base_price_warning merged ++
                [Info_dynamic_base (g_time_period b)],
              Ok (rebase g (cpi b) (groupby_agg merged)))
  end.
Proof.
  intros merged head. unfold calculate_cpi. fold merged. fold head.
  destruct merged as [|r0 merged0] eqn:Hm; [done|].
  destruct (compose_ok g (r0 :: merged0)) as (b & Hb & Hmin & ->); [done|].
  eauto.
Qed.

(** C1 fails as stated: with weights that do not parse the only bucket
    has total_weight 0, its cpi is NaN and so is its cpi_index. *)
Lemma rebase_invariant_fails :
  calculate_cpi "month" ex_base ex_time bad_weights =
    (query_log "month" ex_base ex_time bad_weights ++
       [Info_dynamic_base d_2025_01_01],
     Ok (one_bucket "month" NaN NaN)) ∧
  rows (one_bucket "month" NaN NaN) ≠ [] ∧
  ¬ rebase_invariant (one_bucket "month" NaN NaN).
Proof.
  split; [by vm_compute|]. split; [done|].
  intros H. specialize (H _ (conj (list_elem_of_here _ _)
    (λ r' Hr', eq_ind_r (λ x, key _ ≤ key x) (Z.le_refl _)
       (proj1 (list_elem_of_singleton _ _) Hr')))).
  discriminate H.
Qed.

(** ** Failure on an empty join *)

(** C2 (as amended): [calculate_cpi] raises its [ValueError] exactly when
    the three-way join has no row, and then returns no frame; when the
    join has rows the run goes on and returns a non-empty frame, also
    when some joined row has a null base_price: such rows are only
    counted in a warning. *)
Theorem empty_join_fails (g : string) (base_prices : list base_row)
    (time_data : list time_row) (weights : list weight_row) :
  let merged := merged_of time_data base_prices weights in
  let run := calculate_cpi g base_prices time_data weights in
  match merged with
  | [] =>
      run = (query_log g base_prices time_data weights ++
               [Error_failed g ValueError_merged_empty],
             Raise ValueError_merged_empty)
  | _ :: _ =>
      ∃ f base_date,
        run = (query_log g base_prices time_data weights ++
                 base_price_warning merged ++ [Info_dynamic_base base_date],
               Ok f) ∧
        rows f ≠ [] ∧
        base_price_warning merged =
          if decide (Exists (λ r, isna (base_price r) = true) merged)
          then [Warning_invalid_base_price (isna_sum merged)] else []
  end.
Proof.
  intros merged run.
  pose proof (calculate_cpi_cases g base_prices time_data weights) as H.
  simpl in H. fold merged run in H.
  destruct merged as [|r0 merged0] eqn:Hm; [done|].
  destruct H as (b & Hb & _ & Hrun).
  eexists _, _. split; [exact Hrun|]. split.
  - simpl. intros Hnil. apply fmap_nil_inv in Hnil.
    rewrite Hnil in Hb. by apply elem_of_nil in Hb.
  - unfold base_price_warning, isna_sum.
    set (P := λ r : merged_row, isna (base_price r) = true).
    destruct (decide (Exists P (r0 :: merged0))) as [Hex|Hnex].
    + rewrite decide_False; [done|].
      apply Exists_exists in Hex as (r & Hr & HP).
      intros Hlen. apply length_zero_iff_nil in Hlen.
      by apply (filter_nil_not_elem_of _ _ r Hlen).
    + rewrite decide_True; [done|].
      apply length_zero_iff_nil, filter_none.
      intros r Hr HP. apply Hnex, Exists_exists. eauto.
Qed.

(** C2 fails as stated: a joined row with a null base_price does not stop
    the run; it is counted in a warning and a frame is returned. *)
Lemma null_base_price_continues :
  Exists (λ r, isna (base_price r) = true)
    (merged_of ex_time null_base ex_weights) ∧
  calculate_cpi "month" null_base ex_time ex_weights =
    (query_log "month" null_base ex_time ex_weights ++
       [Warning_invalid_base_price 1; Info_dynamic_base d_2025_01_01],
     Ok (one_bucket "month" (Fin 44) (Fin 100))).
Proof. split; [by left | by vm_compute]. Qed.

(** Base prices for C only and period prices for D only: no frame. *)
Lemma empty_join_fails_witness :
  calculate_cpi "month" only_C only_D ex_weights =
    (query_log "month" only_C only_D ex_weights ++
       [Error_failed "month" ValueError_merged_empty],
     Raise ValueError_merged_empty).
Proof. exact (empty_join_fails "month" only_C only_D ex_weights). Defined.

(** ** Nulls in the weighted sums *)

Lemma isna_true (x : float64) : isna x = true ↔ x = NaN.
Proof. destruct x; simpl; split; congruence. Qed.

Lemma group_app (t : Z) (l1 l2 : list merged_row) :
  group t (l1 ++ l2) = group t l1 ++ group t l2.
Proof. apply filter_app. Qed.

Lemma weighted_nan_weight (r : merged_row) :
  weight r = NaN → weighted r = NaN.
Proof. unfold weighted. intros ->. apply mul_nan_r. Qed.

Lemma price_index_nan_base (r : merged_row) :
  base_price r = NaN → price_index r = NaN.
Proof. unfold price_index. intros ->. by rewrite div_nan_r. Qed.

(** A row whose [weighted] is NaN leaves [total_weighted] as it is. *)
Lemma total_weighted_drop (r : merged_row) (t : Z) (l1 l2 : list merged_row) :
  weighted r = NaN →
  total_weighted (aggregate t (l1 ++ r :: l2)) =
  total_weighted (aggregate t (l1 ++ l2)).
Proof.
  intros Hw. simpl. rewrite !group_app. unfold group at 2.
  rewrite filter_cons. case_decide; [|done].
  by rewrite !fmap_app, fmap_cons, Hw, nansum_skip.
Qed.

(** A row whose [weight] is NaN leaves [total_weight] as it is. *)
Lemma total_weight_drop (r : merged_row) (t : Z) (l1 l2 : list merged_row) :
  weight r = NaN →
  total_weight (aggregate t (l1 ++ r :: l2)) =
  total_weight (aggregate t (l1 ++ l2)).
Proof.
  intros Hw. simpl. rewrite !group_app. unfold group at 2.
  rewrite filter_cons. case_decide; [|done].
  by rewrite !fmap_app, fmap_cons, Hw, nansum_skip.
Qed.

(** ** Infinities in the weighted sums *)

Lemma add_not_finite_l (x y : float64) :
  is_finite x = false → is_finite (add x y) = false.
Proof. destruct x as [|a|p], y as [|b|q]; simpl; try done.
  by destruct (Bool.eqb a b). Qed.

Lemma add_inf_r (x : float64) (a : bool) : is_finite (add x (Inf a)) = false.
Proof. destruct x as [|b|p]; simpl; try done. by destruct (Bool.eqb b a). Qed.

Lemma foldl_add_not_finite (l : list float64) (acc : float64) :
  is_finite acc = false → is_finite (foldl add acc l) = false.
Proof.
  revert acc. induction l as [|x l IH]; intros acc Hacc; simpl; [done|].
  by apply IH, add_not_finite_l.
Qed.

Lemma nansum_inf (l : list float64) (a : bool) :
  Inf a ∈ l → is_finite (nansum l) = false.
Proof.
  intros Hin. unfold nansum.
  assert (Inf a ∈ filter (λ x, isna x = false) l) as Hin'
    by (by apply list_elem_of_filter).
  apply list_elem_of_split in Hin' as (l1 & l2 & ->).
  rewrite foldl_app. simpl. apply foldl_add_not_finite, add_inf_r.
Qed.

Lemma div_not_finite_l (x y : float64) :
  is_finite x = false → is_finite (div x y) = false.
Proof. by destruct x as [|a|p], y as [|b|q]. Qed.

Lemma mul_not_finite_l (x y : float64) :
  is_finite x = false → is_finite (mul x y) = false.
Proof. destruct x as [|a|p], y as [|b|q]; simpl; try done.
  by destruct (Q_zero q). Qed.

Lemma not_finite_cases (x : float64) :
  is_finite x = false → isna x = false → ∃ a, x = Inf a.
Proof. destruct x; simpl; try done. eauto. Qed.

Lemma price_index_zero_base (r : merged_row) :
  is_zero (base_price r) = true →
  price_index r =
    match avg_price r with
    | Fin p => if Q_zero p then NaN else Inf (Q_neg p)
    | Inf a => Inf a
    | NaN => NaN
    end.
Proof.
  unfold price_index. destruct (base_price r) as [| |q]; simpl; try done.
  intros Hq. destruct (avg_price r) as [|a|p]; simpl; [done| |].
  - unfold Q_zero, Q_neg in *. apply Z.eqb_eq in Hq. rewrite Hq. simpl.
    by destruct a.
  - rewrite Hq. destruct (Q_zero p); [done|]. simpl. by destruct (Q_neg p).
Qed.

(** C3 (as amended): a joined row whose base_price is null has a null
    price_index and a null weighted value, and is left out of
    total_weighted for its bucket.  A zero base_price is not treated as
    missing: the division is carried out and gives an infinity (NaN when
    avg_price is zero or null); unless the weighted value is null this
    infinity enters total_weighted and cpi of the bucket, neither of
    which is then a finite number. *)
Theorem null_base_price_excluded (r : merged_row) :
  (isna (base_price r) = true →
   price_index r = NaN ∧ weighted r = NaN ∧
   ∀ t l1 l2, total_weighted (aggregate t (l1 ++ r :: l2)) =
              total_weighted (aggregate t (l1 ++ l2))) ∧
  (is_zero (base_price r) = true →
   price_index r =
     match avg_price r with
     | Fin p => if Q_zero p then NaN else Inf (Q_neg p)
     | Inf a => Inf a
     | NaN => NaN
     end ∧
   (isna (weighted r) = false →
    ∀ merged, r ∈ merged →
      is_finite (total_weighted (aggregate (time_period r) merged)) = false ∧
      is_finite (cpi (aggregate (time_period r) merged)) = false)).
Proof.
  split.
  - intros Hna%isna_true.
    assert (weighted r = NaN) as Hw.
    { unfold weighted. by rewrite price_index_nan_base. }
    split; [by apply price_index_nan_base|]. split; [done|].
    intros t l1 l2. by apply total_weighted_drop.
  - intros Hz. split; [by apply price_index_zero_base|].
    intros Hw merged Hr.
    assert (is_finite (weighted r) = false) as Hnf.
    { unfold weighted. apply mul_not_finite_l.
      rewrite price_index_zero_base by done.
      destruct (avg_price r) as [| |p]; try done. by destruct (Q_zero p). }
    destruct (not_finite_cases _ Hnf Hw) as [a Ha].
    assert (is_finite (total_weighted (aggregate (time_period r) merged))
            = false) as Htw.
    { simpl. apply (nansum_inf _ a). rewrite <- Ha.
      apply list_elem_of_fmap. exists r. split; [done|].
      by apply list_elem_of_filter. }
    split; [done|]. by apply div_not_finite_l.
Qed.

Lemma null_base_price_excluded_witness :
  price_index (row_A NaN (Fin (6 # 10))) = NaN ∧
  price_index (row_B (Fin 0) (Fin (4 # 10))) = Inf false ∧
  is_finite (cpi (aggregate d_2025_01_01
                    [row_A (Fin 10) (Fin (6 # 10));
                     row_B (Fin 0) (Fin (4 # 10))])) = false.
Proof.
  split; [|split].
  - apply (proj1 (null_base_price_excluded (row_A NaN (Fin (6 # 10))))).
    reflexivity.
  - apply (proj2 (null_base_price_excluded (row_B (Fin 0) (Fin (4 # 10))))).
    reflexivity.
  - apply (proj2 (null_base_price_excluded (row_B (Fin 0) (Fin (4 # 10)))));
      [reflexivity | reflexivity | right; left].
Defined.

(** C3 fails as stated: a zero base_price gives the price relative
    +infinity, which is summed into total_weighted and reaches cpi. *)
Lemma zero_base_price_propagates :
  merged_of ex_time zero_base ex_weights =
    [row_A (Fin 10) (Fin (6 # 10)); row_B (Fin 0) (Fin (4 # 10))] ∧
  is_zero (base_price (row_B (Fin 0) (Fin (4 # 10)))) = true ∧
  price_index (row_B (Fin 0) (Fin (4 # 10))) = Inf false ∧
  total_weighted (aggregate d_2025_01_01
                    (merged_of ex_time zero_base ex_weights)) = Inf false ∧
  calculate_cpi "month" zero_base ex_time ex_weights =
    (query_log "month" zero_base ex_time ex_weights ++
       [Info_dynamic_base d_2025_01_01],
     Ok (one_bucket "month" (Inf false) NaN)).
Proof. repeat split; by vm_compute. Qed.

(** ** The log does not depend on the weight cells *)

Section MergeMap.
Context {A B : Type}.
Variable key_l : A → string.
Variable key_r : B → string.
Variable h : B → B.
Hypothesis key_h : ∀ b, key_r (h b) = key_r b.

Lemma filter_key_fmap (k : string) (right : list B) :
  filter (λ b, key_r b = k) (h <$> right) =
  h <$> filter (λ b, key_r b = k) right.
Proof.
  induction right as [|b right IH]; [done|].
  rewrite fmap_cons, !filter_cons, key_h, IH. by case_decide.
Qed.

(** Rewriting cells of the right table that are not the key rewrites
    them in the join and changes nothing else. *)
Lemma merge_inner_fmap_r (left : list A) (right : list B) :
  merge_inner key_l key_r left (h <$> right) =
  prod_map id h <$> merge_inner key_l key_r left right.
Proof.
  unfold merge_inner. induction left as [|a left IH]; [done|].
  rewrite !bind_cons, fmap_app, IH. f_equal.
  rewrite filter_key_fmap.
  induction (filter (λ b, key_r b = key_l a) right) as [|b l IHl]; [done|].
  rewrite fmap_cons, !bind_cons, fmap_app, IHl. done.
Qed.
End MergeMap.

Lemma merged_of_map_weights (f : raw → raw) (time_df : list time_row)
    (base_df : list base_row) (weight_df : list weight_row) :
  time_period <$> merged_of time_df base_df (map_weights f weight_df) =
    time_period <$> merged_of time_df base_df weight_df ∧
  base_price <$> merged_of time_df base_df (map_weights f weight_df) =
    base_price <$> merged_of time_df base_df weight_df.
Proof.
  unfold merged_of, map_weights.
  rewrite merge_inner_fmap_r by done.
  rewrite <- !list_fmap_compose.
  split; apply list_fmap_ext; by intros i [[t b] w].
Qed.

Lemma isna_sum_base_price (merged : list merged_row) :
  isna_sum merged =
  length (filter (λ x, isna x = true) (base_price <$> merged)).
Proof.
  unfold isna_sum. induction merged as [|r merged IH]; [done|].
  rewrite fmap_cons, !filter_cons. case_decide; simpl; by rewrite IH.
Qed.

Lemma groupby_agg_periods (merged : list merged_row) :
  g_time_period <$> groupby_agg merged = group_keys (time_period <$> merged).
Proof.
  unfold groupby_agg. rewrite <- list_fmap_compose.
  etrans; [|apply list_fmap_id]. by apply list_fmap_ext.
Qed.

(** The period logged as dynamic base is the least group key. *)
Lemma least_bucket_period (merged merged' : list merged_row) (b b' : bucket) :
  time_period <$> merged' = time_period <$> merged →
  b ∈ groupby_agg merged →
  (∀ x, x ∈ groupby_agg merged → g_time_period b ≤ g_time_period x) →
  b' ∈ groupby_agg merged' →
  (∀ x, x ∈ groupby_agg merged' → g_time_period b' ≤ g_time_period x) →
  g_time_period b' = g_time_period b.
Proof.
  intros Ht Hb Hmin Hb' Hmin'.
  assert (g_time_period <$> groupby_agg merged' =
          g_time_period <$> groupby_agg merged) as Hp
    by (by rewrite !groupby_agg_periods, Ht).
  assert (g_time_period b ∈ g_time_period <$> groupby_agg merged') as H1.
  { rewrite Hp. apply list_elem_of_fmap. eauto. }
  assert (g_time_period b' ∈ g_time_period <$> groupby_agg merged) as H2.
  { rewrite <- Hp. apply list_elem_of_fmap. eauto. }
  apply list_elem_of_fmap in H1 as (x1 & Hx1 & Hin1).
  apply list_elem_of_fmap in H2 as (x2 & Hx2 & Hin2).
  apply Hmin' in Hin1. apply Hmin in Hin2. lia.
Qed.

Lemma calculate_cpi_map_weights (f : raw → raw) (g : string)
    (base_prices : list base_row) (time_data : list time_row)
    (weights : list weight_row) :
  fst (calculate_cpi g base_prices time_data (map_weights f weights)) =
    fst (calculate_cpi g base_prices time_data weights) ∧
  ∀ e, snd (calculate_cpi g base_prices time_data (map_weights f weights))
         = Raise e ↔
       snd (calculate_cpi g base_prices time_data weights) = Raise e.
Proof.
  pose proof (calculate_cpi_cases g base_prices time_data weights) as H.
  pose proof (calculate_cpi_cases g base_prices time_data
                (map_weights f weights)) as H'.
  destruct (merged_of_map_weights f time_data base_prices weights)
    as [Ht Hb].
  cbv zeta in H, H'.
  assert (query_log g base_prices time_data (map_weights f weights) =
          query_log g base_prices time_data weights) as Hq.
  { unfold query_log, map_weights. by rewrite length_fmap. }
  rewrite Hq in H'.
  destruct (merged_of time_data base_prices weights) as [|r m] eqn:Hm;
    destruct (merged_of time_data base_prices (map_weights f weights))
      as [|r' m'] eqn:Hm'; try done.
  - by rewrite H, H'.
  - destruct H as (b & Hin & Hmin & ->). destruct H' as (b' & Hin' & Hmin' & ->).
    simpl. split; [|done].
    assert (base_price_warning (r' :: m') = base_price_warning (r :: m)) as ->.
    { unfold base_price_warning. by rewrite !isna_sum_base_price, Hb. }
    by rewrite (least_bucket_period (r :: m) (r' :: m') b b').
Qed.

(** C4 (as amended): a joined row whose weight does not parse changes
    neither total_weight nor total_weighted of any bucket, and the run
    goes on; but nothing is counted: the log of a run, and whether it
    fails, are the same whatever the weight cells hold, so no record of
    it reports unparseable weights. *)
Theorem unparseable_weight_excluded :
  (∀ (r : merged_row) (t : Z) (l1 l2 : list merged_row),
     isna (weight r) = true →
     aggregate t (l1 ++ r :: l2) = aggregate t (l1 ++ l2)) ∧
  (∀ (f : raw → raw) (g : string) (base_prices : list base_row)
     (time_data : list time_row) (weights : list weight_row),
     fst (calculate_cpi g base_prices time_data (map_weights f weights)) =
       fst (calculate_cpi g base_prices time_data weights) ∧
     ∀ e, snd (calculate_cpi g base_prices time_data (map_weights f weights))
            = Raise e ↔
          snd (calculate_cpi g base_prices time_data weights) = Raise e).
Proof.
  split; [|apply calculate_cpi_map_weights].
  intros r t l1 l2 Hna%isna_true.
  pose proof (total_weight_drop r t l1 l2 Hna) as H1.
  pose proof (total_weighted_drop r t l1 l2 (weighted_nan_weight r Hna)) as H2.
  unfold aggregate in *. simpl in *. by rewrite H1, H2.
Qed.

Lemma unparseable_weight_excluded_witness :
  aggregate d_2025_01_01
    ([] ++ row_A (Fin 10) NaN :: [row_B (Fin 20) (Fin (4 # 10))]) =
    aggregate d_2025_01_01 ([] ++ [row_B (Fin 20) (Fin (4 # 10))]) ∧
  fst (calculate_cpi "month" ex_base ex_time
         (map_weights (λ _, Unparseable) ex_weights)) =
    fst (calculate_cpi "month" ex_base ex_time ex_weights).
Proof.
  split.
  - apply (proj1 unparseable_weight_excluded). reflexivity.
  - apply (proj2 unparseable_weight_excluded).
Defined.

(** C4 fails as stated: the weight of A does not parse, the run returns
    its frame and logs nothing but the usual records: no warning, no
    count of unparseable cells. *)
Lemma unparseable_weight_not_counted :
  merged_of ex_time ex_base one_bad_weight =
    [row_A (Fin 10) NaN; row_B (Fin 20) (Fin (4 # 10))] ∧
  calculate_cpi "month" ex_base ex_time one_bad_weight =
    ([Info_start "month"; Info_base_rows 2; Info_time_rows 2 "month";
      Info_weight_rows 2; Info_merge_start "month";
      Info_dynamic_base d_2025_01_01],
     Ok (one_bucket "month" (Fin 110) (Fin 100))) ∧
  ¬ flagged (calculate_cpi "month" ex_base ex_time one_bad_weight).
Proof.
  split; [by vm_compute|]. split; [by vm_compute|].
  intros [H|[e H]]; [|by vm_compute in H].
  vm_compute in H. repeat (apply Exists_cons in H as [H|H]; [done|]).
  by apply Exists_nil in H.
Qed.

(** ** Buckets of zero total weight *)

Lemma Qred_zero (q : Q) : Q_zero q = true → Qred q = 0%Q.
Proof.
  intros H%Q_zero_spec. change 0%Q with (Qred 0). by apply Qred_complete.
Qed.

Lemma add_zero_null_or_zero (x : float64) :
  is_zero x = true → add (Fin 0) x = Fin 0.
Proof.
  destruct x as [| |q]; simpl; try done. intros Hq. f_equal.
  apply Qred_zero. unfold Q_zero in *. destruct q as [n d]; simpl in *.
  apply Z.eqb_eq in Hq. subst n. done.
Qed.

Lemma nansum_null_or_zero (l : list float64) :
  Forall (λ x, null_or_zero x = true) l → nansum l = Fin 0.
Proof.
  unfold nansum. induction 1 as [|x l Hx _ IH]; [done|].
  rewrite filter_cons. case_decide as Hna; [|done].
  unfold null_or_zero in Hx. rewrite Hna in Hx. simpl in Hx.
  cbn [foldl]. by rewrite add_zero_null_or_zero.
Qed.

Lemma mul_zero_r (x y : float64) :
  is_zero y = true → null_or_zero (mul x y) = true.
Proof.
  destruct y as [| |q]; simpl; try done. intros Hq.
  destruct x as [|a|p]; simpl; [done|by rewrite Hq|].
  unfold null_or_zero. simpl. rewrite Qred_zero; [done|].
  unfold Q_zero in *. destruct p as [pn pd], q as [qn qd]; simpl in *.
  apply Z.eqb_eq in Hq. subst qn. apply Z.eqb_eq. lia.
Qed.

Lemma weighted_null_or_zero (r : merged_row) :
  null_or_zero (weight r) = true → null_or_zero (weighted r) = true.
Proof.
  unfold weighted, null_or_zero at 1.
  intros [Hna%isna_true|Hz]%orb_true_iff.
  - by rewrite Hna, mul_nan_r.
  - by apply mul_zero_r.
Qed.

Lemma aggregate_null_or_zero (t : Z) (merged : list merged_row) :
  (∀ r, r ∈ merged → time_period r = t → null_or_zero (weight r) = true) →
  total_weight (aggregate t merged) = Fin 0 ∧
  total_weighted (aggregate t merged) = Fin 0 ∧
  cpi (aggregate t merged) = NaN.
Proof.
  intros H.
  assert (Forall (λ r, null_or_zero (weight r) = true) (group t merged)) as HF.
  { apply Forall_forall. intros r [Ht Hr]%list_elem_of_filter. by apply H. }
  assert (total_weight (aggregate t merged) = Fin 0) as H1.
  { simpl. apply nansum_null_or_zero. by apply Forall_fmap. }
  assert (total_weighted (aggregate t merged) = Fin 0) as H2.
  { simpl. apply nansum_null_or_zero, Forall_fmap.
    eapply Forall_impl; [exact HF|]. intros r. apply weighted_null_or_zero. }
  unfold cpi. by rewrite H1, H2.
Qed.

(** C5 (as amended): for a bucket in which every joined row has a null or
    zero weight, total_weight and total_weighted are both 0, the division
    is carried out all the same and the row returned for the bucket
    carries cpi = 0/0 = NaN (never 0, never another number) and a NaN
    cpi_index; the run does not fail and the log holds nothing about the
    bucket: only the usual records and the base-price warning. *)
Theorem zero_weight_bucket_is_nan (g : string) (base_prices : list base_row)
    (time_data : list time_row) (weights : list weight_row)
    (log : list log_record) (f : cpi_frame) (row : cpi_row) (d : Z) :
  calculate_cpi g base_prices time_data weights = (log, Ok f) →
  row ∈ rows f →
  r_time_period row = PyDate d →
  (∀ r, r ∈ merged_of time_data base_prices weights →
        time_period r = d → null_or_zero (weight r) = true) →
  let merged := merged_of time_data base_prices weights in
  total_weight (aggregate d merged) = Fin 0 ∧
  r_cpi row = div (total_weighted (aggregate d merged))
                  (total_weight (aggregate d merged)) ∧
  r_cpi row = NaN ∧
  r_cpi_index row = NaN ∧
  ∃ base_date,
    log = query_log g base_prices time_data weights ++
          base_price_warning merged ++ [Info_dynamic_base base_date].
Proof.
  intros Hrun Hrow Hd Hw merged.
  destruct (aggregate_null_or_zero d merged Hw) as (H1 & H2 & H3).
  pose proof (calculate_cpi_cases g base_prices time_data weights) as Hc.
  cbv zeta in Hc. fold merged in Hc.
  destruct merged as [|r0 m0] eqn:Hm.
  { rewrite Hrun in Hc. done. }
  destruct Hc as (b & Hb & _ & Hc). rewrite Hrun in Hc.
  injection Hc as -> ->. simpl in Hrow.
  apply list_elem_of_fmap in Hrow as (b' & -> & Hb'). simpl in *.
  injection Hd as <-.
  apply groupby_agg_elem in Hb' as (r & _ & ->). simpl in *.
  fold (aggregate (time_period r) (r0 :: m0)) in *.
  unfold cpi in *. rewrite H3. eauto 10.
Qed.

Lemma zero_weight_bucket_is_nan_witness :
  total_weight (aggregate d_2025_01_01
                  (merged_of ex_time ex_base zero_weights)) = Fin 0 ∧
  r_cpi_index {| r_time_period := PyDate d_2025_01_01;
                 r_cpi := NaN; r_cpi_index := NaN |} = NaN.
Proof.
  pose proof (zero_weight_bucket_is_nan "month" ex_base ex_time zero_weights
    (query_log "month" ex_base ex_time zero_weights ++
       [Info_dynamic_base d_2025_01_01])
    (one_bucket "month" NaN NaN)
    {| r_time_period := PyDate d_2025_01_01; r_cpi := NaN; r_cpi_index := NaN |}
    d_2025_01_01) as H.
  cbv zeta in H. refine ((λ H', conj (proj1 H') (proj1 (proj2 (proj2 (proj2 H'))))) (H _ _ _ _)).
  - vm_compute. reflexivity.
  - left.
  - reflexivity.
  - apply (Forall_forall (λ r, time_period r = d_2025_01_01 →
                               null_or_zero (weight r) = true)).
    vm_compute. repeat constructor.
Defined.

(** C5 fails as stated: every weight is zero, total_weight is 0, the
    division is carried out and its result NaN is returned as the cpi of
    the bucket; the run does not fail and logs no warning. *)
Lemma zero_weight_bucket_not_flagged :
  total_weight (aggregate d_2025_01_01
                  (merged_of ex_time ex_base zero_weights)) = Fin 0 ∧
  div (Fin 0) (Fin 0) = NaN ∧
  calculate_cpi "month" ex_base ex_time zero_weights =
    ([Info_start "month"; Info_base_rows 2; Info_time_rows 2 "month";
      Info_weight_rows 2; Info_merge_start "month";
      Info_dynamic_base d_2025_01_01],
     Ok (one_bucket "month" NaN NaN)) ∧
  ¬ flagged (calculate_cpi "month" ex_base ex_time zero_weights).
Proof.
  split; [by vm_compute|]. split; [done|]. split; [by vm_compute|].
  intros [H|[e H]]; [|by vm_compute in H].
  vm_compute in H. repeat (apply Exists_cons in H as [H|H]; [done|]).
  by apply Exists_nil in H.
Qed.

(** ** Inner joins *)

Section MergeDrop.
Context {A B : Type}.
Variable key_l : A → string.
Variable key_r : B → string.

Lemma merge_inner_elem (a : A) (b : B) (left : list A) (right : list B) :
  (a, b) ∈ merge_inner key_l key_r left right ↔
  a ∈ left ∧ b ∈ right ∧ key_r b = key_l a.
Proof.
  unfold merge_inner. rewrite list_elem_of_bind. split.
  - intros (a' & Hin & Ha'). apply list_elem_of_bind in Hin as (b' & Hp & Hb').
    apply list_elem_of_singleton in Hp. injection Hp as -> ->.
    by apply list_elem_of_filter in Hb' as [? ?].
  - intros (Ha & Hb & Hk). exists a. split; [|done].
    apply list_elem_of_bind. exists b. split; [by left|].
    by apply list_elem_of_filter.
Qed.

(** Dropping a key from both tables drops it from the join. *)
Lemma merge_inner_drop (c : string) (left : list A) (right : list B) :
  merge_inner key_l key_r (drop_category key_l c left)
    (drop_category key_r c right) =
  filter (λ p, key_l p.1 ≠ c) (merge_inner key_l key_r left right).
Proof.
  unfold merge_inner, drop_category.
  induction left as [|a left IH]; [done|].
  rewrite bind_cons, filter_app, <- IH. clear IH.
  destruct (decide (key_l a ≠ c)) as [Hne|Heq].
  - rewrite filter_cons_True, bind_cons by done. f_equal.
    rewrite list_filter_filter.
    rewrite (list_filter_iff _ (λ b, key_r b = key_l a))
    by (intros b; split; [tauto | intros Hb; split; congruence]).
    symmetry. apply (filter_all (λ p : A * B, key_l p.1 ≠ c)).
    intros [a' b'] Hin.
    apply list_elem_of_bind in Hin as (b'' & Hp & _).
    apply list_elem_of_singleton in Hp. by injection Hp as -> ->.
  - rewrite filter_cons_False by done.
    rewrite (filter_none (λ p : A * B, key_l p.1 ≠ c)); [done|].
    intros [a' b'] Hin.
    apply list_elem_of_bind in Hin as (b'' & Hp & _).
    apply list_elem_of_singleton in Hp. by injection Hp as -> ->.
Qed.
End MergeDrop.

Lemma merged_of_elem (r : merged_row) (time_df : list time_row)
    (base_df : list base_row) (weight_df : list weight_row) :
  r ∈ merged_of time_df base_df weight_df →
  category_id r ∈ t_category_id <$> time_df ∧
  category_id r ∈ b_category_id <$> base_df ∧
  category_id r ∈ w_category_id <$> weight_df.
Proof.
  unfold merged_of. intros ([[t b] w] & -> & Hin)%list_elem_of_fmap.
  apply merge_inner_elem in Hin as (Htb & Hw & Hkw).
  apply merge_inner_elem in Htb as (Ht & Hb & Hkb). simpl in *.
  split; [|split]; apply list_elem_of_fmap.
  - by exists t.
  - by exists b.
  - by exists w.
Qed.

Lemma filter_fmap_coerce (c : string)
    (l : list (time_row * base_row * weight_row)) :
  filter (λ r, category_id r ≠ c) (coerce <$> l) =
  coerce <$> filter (λ x, t_category_id x.1.1 ≠ c) l.
Proof.
  induction l as [|[[t b] w] l IH]; [done|].
  rewrite fmap_cons, !filter_cons. simpl. case_decide; by rewrite IH.
Qed.

Lemma merged_of_drop (c : string) (time_df : list time_row)
    (base_df : list base_row) (weight_df : list weight_row) :
  merged_of (drop_category t_category_id c time_df)
    (drop_category b_category_id c base_df)
    (drop_category w_category_id c weight_df) =
  filter (λ r, category_id r ≠ c) (merged_of time_df base_df weight_df).
Proof.
  unfold merged_of. rewrite filter_fmap_coerce. f_equal.
  rewrite merge_inner_drop.
  apply (merge_inner_drop (λ tb, t_category_id tb.1) w_category_id).
Qed.

(** C8: a category that is missing from the period prices, from the base
    prices or from the weights is in no row of the join, and the frame
    (or the exception) that [calculate_cpi] returns is the one it returns
    when the rows of that category are removed from all three tables: an
    unmatched category contributes nothing, it is not counted as zero. *)
Theorem join_exclusivity (g : string) (c : string)
    (base_prices : list base_row) (time_data : list time_row)
    (weights : list weight_row) :
  c ∉ t_category_id <$> time_data ∨
  c ∉ b_category_id <$> base_prices ∨
  c ∉ w_category_id <$> weights →
  (∀ r, r ∈ merged_of time_data base_prices weights → category_id r ≠ c) ∧
  snd (calculate_cpi g (drop_category b_category_id c base_prices)
         (drop_category t_category_id c time_data)
         (drop_category w_category_id c weights)) =
  snd (calculate_cpi g base_prices time_data weights).
Proof.
  intros Hc.
  assert (∀ r, r ∈ merged_of time_data base_prices weights →
               category_id r ≠ c) as Hno.
  { intros r (Ht & Hb & Hw)%merged_of_elem Hr. rewrite Hr in *. tauto. }
  split; [done|].
  rewrite !calculate_cpi_unfold, merged_of_drop.
  by rewrite filter_all.
Qed.

Lemma join_exclusivity_witness :
  (∀ r, r ∈ merged_of time_with_E base_with_E ex_weights →
        category_id r ≠ "E") ∧
  snd (calculate_cpi "month" (drop_category b_category_id "E" base_with_E)
         (drop_category t_category_id "E" time_with_E)
         (drop_category w_category_id "E" ex_weights)) =
  snd (calculate_cpi "month" base_with_E time_with_E ex_weights).
Proof.
  apply join_exclusivity. right. right.
  intros H. vm_compute in H. by repeat (apply elem_of_cons in H as [H|H]; [done|]);
    apply elem_of_nil in H.
Defined.

(** ** The store after save_combined_results *)

Lemma bind_ok_inv {A B : Type} (m : M A) (f : A → M B) (h h' : heap) (b : B) :
  (m ≫= f) h = (h', Ok b) →
  ∃ a h1, m h = (h1, Ok a) ∧ f a h1 = (h', Ok b).
Proof.
  unfold mbind, M_bind. destruct (m h) as [h1 [a|e]]; [eauto|done].
Qed.

Lemma bind_ok {A B : Type} (m : M A) (f : A → M B) (h h1 : heap) (a : A) :
  m h = (h1, Ok a) → (m ≫= f) h = f a h1.
Proof. unfold mbind, M_bind. by intros ->. Qed.

Lemma time_column_eq (f : cpi_frame) (g : string) :
  "time_period_" +:+ g = time_column f ↔ granularity f = g.
Proof.
  unfold time_column. simpl. split; [|by intros ->].
  intros H. by simplify_eq.
Qed.

Lemma getitem_ok_inv (l : loc) (g : string) (h h' : heap)
    (v : list time_cell) :
  getitem l ("time_period_" +:+ g) h = (h', Ok v) ↔
  ∃ f, h !! l = Some f ∧ granularity f = g ∧
       v = r_time_period <$> rows f ∧ h' = h.
Proof.
  unfold getitem, mbind, M_bind, load.
  destruct (h !! l) as [f|]; [|split; [done|by intros (? & ? & _)]].
  case_decide as Hc; rewrite time_column_eq in Hc.
  - split.
    + intros [= <- <-]. eauto.
    + by intros (? & [= <-] & _ & -> & ->).
  - split; [done|]. by intros (? & [= <-] & ? & _).
Qed.

Lemma to_datetime_ok_iff (rs : list cpi_row) (v : list time_cell) :
  to_datetime (r_time_period <$> rs) = Ok v ↔
  Forall (λ r, - 2 ^ 63 < key r < 2 ^ 63) rs ∧
  v = (λ r, Timestamp (key r)) <$> rs.
Proof.
  revert v. induction rs as [|r rs IH]; intros v.
  { simpl. split; [by intros [= <-]|by intros [_ ->]]. }
  rewrite fmap_cons. cbn [to_datetime]. unfold to_datetime1 at 1.
  fold (key r). rewrite Forall_cons. case_decide as Hr.
  - destruct (to_datetime (r_time_period <$> rs)) as [v'|e] eqn:Hv.
    + destruct (IH v') as [[HF ->] _]; [done|]. split.
      * by intros [= <-].
      * by intros [_ ->].
    + split; [done|]. intros [[_ HF] _].
      destruct (IH ((λ r, Timestamp (key r)) <$> rs)) as [_ H'].
      specialize (H' (conj HF eq_refl)). congruence.
  - split; [done|]. by intros [[? _] _].
Qed.

Lemma zip_with_set_time (rs : list cpi_row) :
  zip_with set_time rs ((λ r, Timestamp (key r)) <$> rs) =
  (λ r, set_time r (Timestamp (key r))) <$> rs.
Proof.
  induction rs as [|r rs IH]; [done|].
  rewrite !fmap_cons. cbn [zip_with]. by rewrite IH.
Qed.

Lemma setitem_ok (l : loc) (g : string) (h : heap) (f : cpi_frame) :
  h !! l = Some f → granularity f = g →
  setitem l ("time_period_" +:+ g) ((λ r, Timestamp (key r)) <$> rows f) h =
  (<[l := converted f]> h, Ok ()).
Proof.
  intros Hl Hg. unfold setitem, mbind, M_bind, load. rewrite Hl.
  rewrite decide_True by (by apply time_column_eq).
  unfold store, converted. by rewrite zip_with_set_time.
Qed.

Lemma insert_row_Permutation (r : cpi_row) (l : list cpi_row) :
  insert_row r l ≡ₚ r :: l.
Proof.
  induction l as [|x l IH]; [done|]. simpl. case_decide; [done|].
  rewrite IH. apply Permutation_swap.
Qed.

Lemma sort_rows_Permutation (rs : list cpi_row) : sort_rows rs ≡ₚ rs.
Proof.
  unfold sort_rows. rewrite <- (app_nil_l rs) at 2.
  generalize (@nil cpi_row). induction rs as [|r rs IH]; intros acc.
  - by rewrite app_nil_r.
  - simpl. rewrite IH, insert_row_Permutation.
    apply Permutation_middle.
Qed.

Lemma insert_row_sorted (r : cpi_row) (l : list cpi_row) :
  StronglySorted key_le l → StronglySorted key_le (insert_row r l).
Proof.
  induction 1 as [|x l Hs IH Hx]; simpl; [by repeat constructor|].
  case_decide as Hlt.
  - constructor; [by constructor|]. constructor.
    + unfold key_le. lia.
    + eapply Forall_impl; [exact Hx|]. unfold key_le. intros y ?. lia.
  - constructor; [done|].
    rewrite insert_row_Permutation. constructor; [|done].
    unfold key_le. lia.
Qed.

Lemma sort_rows_sorted (rs : list cpi_row) :
  StronglySorted key_le (sort_rows rs).
Proof.
  unfold sort_rows.
  assert (StronglySorted key_le (@nil cpi_row)) as Hacc by constructor.
  revert Hacc. generalize (@nil cpi_row).
  induction rs as [|r rs IH]; intros acc Hacc; [done|].
  simpl. by apply IH, insert_row_sorted.
Qed.

Lemma sort_values_ok (l : loc) (g : string) (h : heap) (f : cpi_frame) :
  h !! l = Some f → granularity f = g →
  sort_values l ("time_period_" +:+ g) h =
  (h, Ok (sort_rows (rows f))).
Proof.
  intros Hl Hg. unfold sort_values, mbind, M_bind, load. rewrite Hl.
  by rewrite decide_True by (by apply time_column_eq).
Qed.

Lemma convert_column_ok_iff (l : loc) (g : string) (h h' : heap) :
  convert_column l g h = (h', Ok ()) ↔
  ∃ f, h !! l = Some f ∧ granularity f = g ∧ in_range f ∧
       h' = <[l := converted f]> h.
Proof.
  unfold convert_column. split.
  - intros (c & h1 & Hget & H)%bind_ok_inv.
    apply getitem_ok_inv in Hget as (f & Hl & Hg & -> & ->).
    apply bind_ok_inv in H as (c' & h1 & Hconv & Hset).
    injection Hconv as <- Hconv.
    apply to_datetime_ok_iff in Hconv as [HF ->].
    rewrite (setitem_ok _ _ _ f) in Hset by done.
    injection Hset as <-. eauto.
  - intros (f & Hl & Hg & HF & ->).
    assert (getitem l ("time_period_" +:+ g) h =
            (h, Ok (r_time_period <$> rows f))) as Hget.
    { apply getitem_ok_inv. eauto. }
    rewrite (bind_ok _ _ _ _ _ Hget).
    assert (to_datetime (r_time_period <$> rows f) =
            Ok ((λ r, Timestamp (key r)) <$> rows f)) as Hconv.
    { by apply to_datetime_ok_iff. }
    erewrite bind_ok; [|unfold lift; by rewrite Hconv].
    by apply setitem_ok.
Qed.

Lemma save_combined_results_unfold (monthly_data daily_data : loc) (h : heap) :
  save_combined_results monthly_data daily_data h =
  (_ ← convert_column daily_data "day";
   _ ← convert_column monthly_data "month";
   left ← sort_values daily_data "time_period_day";
   right ← sort_values monthly_data "time_period_month";
   mret (merge_asof left right)) h.
Proof.
  unfold save_combined_results, convert_column.
  change ("time_period_" +:+ "day") with "time_period_day".
  change ("time_period_" +:+ "month") with "time_period_month".
  unfold mbind, M_bind.
  destruct (getitem daily_data "time_period_day" h) as [h1 [c|e]]; [|done].
  destruct (lift (to_datetime c) h1) as [h2 [c'|e]]; [|done].
  destruct (setitem daily_data "time_period_day" c' h2) as [h3 [[]|e]]; [|done].
  destruct (getitem monthly_data "time_period_month" h3) as [h4 [m|e]]; [|done].
  destruct (lift (to_datetime m) h4) as [h5 [m'|e]]; [|done].
  done.
Qed.

Lemma converted_granularity (f : cpi_frame) :
  granularity (converted f) = granularity f.
Proof. done. Qed.

(** What a successful call does: both frames exist, carry the column the
    function asks for and convert; the store ends with both converted and
    the file holds the as-of join of the two sorted frames. *)
Lemma save_combined_results_ok_iff (monthly_data daily_data : loc)
    (h h' : heap) (combined : list combined_row) :
  save_combined_results monthly_data daily_data h = (h', Ok combined) ↔
  ∃ fd fm,
    h !! daily_data = Some fd ∧ h !! monthly_data = Some fm ∧
    granularity fd = "day" ∧ granularity fm = "month" ∧
    in_range fd ∧ in_range fm ∧
    h' = <[monthly_data := converted fm]> (<[daily_data := converted fd]> h) ∧
    combined = merge_asof (sort_rows (rows (converted fd)))
                          (sort_rows (rows (converted fm))).
Proof.
  rewrite save_combined_results_unfold. split.
  - intros ([] & h1 & Hd & H)%bind_ok_inv.
    apply convert_column_ok_iff in Hd as (fd & Hfd & Hgd & Hrd & ->).
    apply bind_ok_inv in H as ([] & h2 & Hm & H).
    apply convert_column_ok_iff in Hm as (fm & Hfm & Hgm & Hrm & ->).
    assert (daily_data ≠ monthly_data) as Hne.
    { intros <-. rewrite lookup_insert_eq in Hfm. injection Hfm as <-.
      rewrite converted_granularity, Hgd in Hgm. done. }
    rewrite lookup_insert_ne in Hfm by done.
    set (h2 := <[monthly_data:=converted fm]> (<[daily_data:=converted fd]> h))
      in *.
    assert (h2 !! daily_data = Some (converted fd)) as H2d.
    { unfold h2. rewrite lookup_insert_ne by done. apply lookup_insert_eq. }
    assert (h2 !! monthly_data = Some (converted fm)) as H2m
      by apply lookup_insert_eq.
    change "time_period_day" with ("time_period_" +:+ "day") in H.
    change "time_period_month" with ("time_period_" +:+ "month") in H.
    rewrite (bind_ok _ _ _ _ _ (sort_values_ok _ _ _ _ H2d Hgd)) in H.
    rewrite (bind_ok _ _ _ _ _ (sort_values_ok _ _ _ _ H2m Hgm)) in H.
    injection H as <- <-. exists fd, fm. done.
  - intros (fd & fm & Hfd & Hfm & Hgd & Hgm & Hrd & Hrm & -> & ->).
    assert (daily_data ≠ monthly_data) as Hne.
    { intros <-. congruence. }
    set (h1 := <[daily_data:=converted fd]> h).
    assert (convert_column daily_data "day" h = (h1, Ok ())) as H1.
    { apply convert_column_ok_iff. eauto 10. }
    rewrite (bind_ok _ _ _ _ _ H1).
    set (h2 := <[monthly_data:=converted fm]> h1).
    assert (convert_column monthly_data "month" h1 = (h2, Ok ())) as H2.
    { apply convert_column_ok_iff. exists fm.
      unfold h1. rewrite lookup_insert_ne by done. done. }
    rewrite (bind_ok _ _ _ _ _ H2).
    assert (h2 !! daily_data = Some (converted fd)) as H2d.
    { unfold h2, h1. rewrite lookup_insert_ne by done. apply lookup_insert_eq. }
    assert (h2 !! monthly_data = Some (converted fm)) as H2m
      by apply lookup_insert_eq.
    change "time_period_day" with ("time_period_" +:+ "day").
    change "time_period_month" with ("time_period_" +:+ "month").
    rewrite (bind_ok _ _ _ _ _ (sort_values_ok _ _ _ _ H2d Hgd)).
    rewrite (bind_ok _ _ _ _ _ (sort_values_ok _ _ _ _ H2m Hgm)).
    done.
Qed.

(** ** The as-of join *)

Global Instance key_le_trans : Transitive key_le.
Proof. unfold key_le. intros a b c. lia. Qed.

Global Instance key_le_total : Total key_le.
Proof. unfold key_le. intros a b. lia. Qed.

Lemma sorted_rows (rs : list cpi_row) :
  StronglySorted key_le (sort_rows rs).
Proof. apply sort_rows_sorted. Qed.

Lemma sorted_rows_elem (r : cpi_row) (rs : list cpi_row) :
  r ∈ sort_rows rs ↔ r ∈ rs.
Proof. by rewrite sort_rows_Permutation. Qed.

Section Asof.
Variable t : Z.

Lemma asof_backward_spec (right : list cpi_row) (found : option cpi_row) :
  StronglySorted key_le right →
  match asof_backward t right found with
  | Some b =>
      (found = Some b ∧ ∀ r, r ∈ right → t < key r) ∨
      (b ∈ right ∧ key b ≤ t ∧ ∀ r, r ∈ right → key r ≤ t → key r ≤ key b)
  | None => found = None ∧ ∀ r, r ∈ right → t < key r
  end.
Proof.
  intros Hs. revert found.
  induction Hs as [|x right Hs IH Hx]; intros found; simpl.
  { destruct found; [left|]; split; try done; by intros r ?%elem_of_nil. }
  rewrite Forall_forall in Hx. unfold key_le in Hx.
  case_decide as Hxt.
  - specialize (IH (Some x)).
    destruct (asof_backward t right (Some x)) as [b|]; [|by destruct IH].
    right. destruct IH as [[[= <-] Hgt]|(Hb & Hbt & Hmax)].
    + split; [left|]. split; [done|].
      intros r [->|Hr]%elem_of_cons Hrt; [done|]. apply Hgt in Hr. lia.
    + split; [by right|]. split; [done|].
      intros r [->|Hr]%elem_of_cons Hrt; [by apply Hx|by apply Hmax].
  - assert (∀ r, r ∈ x :: right → t < key r) as Hall.
    { intros r [->|Hr]%elem_of_cons; [lia|]. apply Hx in Hr. lia. }
    destruct found; [left|]; done.
Qed.

Lemma asof_forward_spec (right : list cpi_row) :
  StronglySorted key_le right →
  match asof_forward t right with
  | Some f =>
      f ∈ right ∧ t ≤ key f ∧ ∀ r, r ∈ right → t ≤ key r → key f ≤ key r
  | None => ∀ r, r ∈ right → key r < t
  end.
Proof.
  induction 1 as [|x right Hs IH Hx]; simpl.
  { by intros r ?%elem_of_nil. }
  rewrite Forall_forall in Hx. unfold key_le in Hx.
  case_decide as Hxt.
  - split; [left|]. split; [done|].
    intros r [->|Hr]%elem_of_cons _; [done|by apply Hx].
  - destruct (asof_forward t right) as [f|].
    + destruct IH as (Hf & Hft & Hmin). split; [by right|]. split; [done|].
      intros r [->|Hr]%elem_of_cons Hrt; [lia|by apply Hmin].
    + intros r [->|Hr]%elem_of_cons; [lia|by apply IH].
Qed.

(** On a sorted right table the row attached is a nearest one, and the
    earliest of the nearest ones. *)
Lemma asof_nearest_spec (right : list cpi_row) (r : cpi_row) :
  StronglySorted key_le right → r ∈ right →
  ∃ m, asof_nearest t right = Some m ∧ m ∈ right ∧
       Z.abs (t - key m) ≤ Z.abs (t - key r) ∧
       (Z.abs (t - key m) = Z.abs (t - key r) → key m ≤ key r).
Proof.
  intros Hs Hr. unfold asof_nearest.
  pose proof (asof_backward_spec right None Hs) as Hb.
  pose proof (asof_forward_spec right Hs) as Hf.
  destruct (asof_backward t right None) as [b|];
    destruct (asof_forward t right) as [f|].
  - destruct Hb as [[? _]|(Hb & Hbt & Hmax)]; [done|].
    destruct Hf as (Hf & Hft & Hmin).
    specialize (Hmax r Hr). specialize (Hmin r Hr).
    case_decide; eexists; (split; [done|]); (split; [done|]); lia.
  - destruct Hb as [[? _]|(Hb & Hbt & Hmax)]; [done|].
    specialize (Hmax r Hr). specialize (Hf r Hr).
    eexists; (split; [done|]); (split; [done|]); lia.
  - destruct Hb as [_ Hb]. destruct Hf as (Hf & Hft & Hmin).
    specialize (Hb r Hr). specialize (Hmin r Hr).
    eexists; (split; [done|]); (split; [done|]); lia.
  - destruct Hb as [_ Hb]. specialize (Hb r Hr). specialize (Hf r Hr). lia.
Qed.

End Asof.

Lemma merge_asof_length (left right : list cpi_row) :
  length (merge_asof left right) = length left.
Proof. unfold merge_asof. apply length_fmap. Qed.

Lemma merge_asof_daily (left right : list cpi_row) :
  c_daily <$> merge_asof left right = left.
Proof.
  unfold merge_asof. rewrite <- list_fmap_compose.
  etrans; [|apply list_fmap_id]. by apply list_fmap_ext.
Qed.

Lemma merge_asof_elem (c : combined_row) (left right : list cpi_row) :
  c ∈ merge_asof left right ↔
  c_daily c ∈ left ∧ c_monthly c = asof_nearest (key (c_daily c)) right.
Proof.
  unfold merge_asof. rewrite list_elem_of_fmap. split.
  - by intros (l & -> & Hl).
  - intros [Hl Hm]. exists (c_daily c). split; [|done].
    destruct c as [cd cm]. simpl in *. by rewrite Hm.
Qed.

(** ** The series merger *)

(** C6: in the file written by [save_combined_results] every daily row
    carries a monthly row whose time is nearest to its own, and of the
    nearest ones the earliest: no monthly row is closer, and one at the
    same distance is not earlier.  On the example the daily bucket
    2025-01-15 gets the monthly bucket 2025-01-01 (14 days against 17),
    and 2025-02-15, half-way between 2025-02-01 and 2025-03-01, gets
    2025-02-01. *)
Theorem merge_attaches_nearest :
  (∀ (monthly_data daily_data : loc) (h h' : heap)
     (combined : list combined_row) (c : combined_row)
     (fm : cpi_frame) (r : cpi_row),
     save_combined_results monthly_data daily_data h = (h', Ok combined) →
     c ∈ combined →
     h' !! monthly_data = Some fm →
     r ∈ rows fm →
     ∃ m, c_monthly c = Some m ∧ m ∈ rows fm ∧
          Z.abs (key (c_daily c) - key m) ≤ Z.abs (key (c_daily c) - key r) ∧
          (Z.abs (key (c_daily c) - key m) = Z.abs (key (c_daily c) - key r) →
           key m ≤ key r)) ∧
  snd (save_combined_results 1%positive 2%positive
         (store_of monthly_ex daily_ex)) = Ok combined_ex.
Proof.
  split; [|by vm_compute].
  intros monthly_data daily_data h h' combined c fm r Hrun Hc Hfm Hr.
  apply save_combined_results_ok_iff in Hrun
    as (fd & fm0 & _ & _ & _ & _ & _ & _ & -> & ->).
  rewrite lookup_insert_eq in Hfm. injection Hfm as <-.
  apply merge_asof_elem in Hc as [_ ->].
  destruct (asof_nearest_spec (key (c_daily c))
              (sort_rows (rows (converted fm0))) r)
    as (m & Hm & Hin & Hnear); [apply sorted_rows|by apply sorted_rows_elem|].
  exists m. split; [done|]. split; [by apply sorted_rows_elem|done].
Qed.

Lemma merge_attaches_nearest_witness :
  ∃ m, c_monthly {| c_daily := stamped d_2025_01_15 120 100;
                    c_monthly := Some (stamped d_2025_01_01 116 100) |}
       = Some m ∧
       m ∈ rows (converted monthly_ex) ∧
       Z.abs (d_2025_01_15 * ns_per_day - key m) ≤
         Z.abs (d_2025_01_15 * ns_per_day - d_2025_02_01 * ns_per_day) ∧
       (Z.abs (d_2025_01_15 * ns_per_day - key m) =
          Z.abs (d_2025_01_15 * ns_per_day - d_2025_02_01 * ns_per_day) →
        key m ≤ d_2025_02_01 * ns_per_day).
Proof.
  apply (proj1 merge_attaches_nearest 1%positive 2%positive
           (store_of monthly_ex daily_ex)
           (<[1%positive := converted monthly_ex]>
              (<[2%positive := converted daily_ex]>
                 (store_of monthly_ex daily_ex)))
           combined_ex
           {| c_daily := stamped d_2025_01_15 120 100;
              c_monthly := Some (stamped d_2025_01_01 116 100) |}
           (converted monthly_ex)
           (stamped d_2025_02_01 145 125)).
  - vm_compute. reflexivity.
  - left.
  - reflexivity.
  - right. left.
Defined.

(** C7: the file written has exactly one row per row of the daily frame:
    as many rows, and their daily parts are the rows of the daily frame
    (time column converted), each as often as it occurs there. *)
Theorem merge_complete (monthly_data daily_data : loc) (h h' : heap)
    (combined : list combined_row) (fd : cpi_frame) :
  save_combined_results monthly_data daily_data h = (h', Ok combined) →
  h !! daily_data = Some fd →
  length combined = length (rows fd) ∧
  c_daily <$> combined ≡ₚ rows (converted fd).
Proof.
  intros Hrun Hfd.
  apply save_combined_results_ok_iff in Hrun
    as (fd0 & fm & Hfd0 & _ & _ & _ & _ & _ & -> & ->).
  rewrite Hfd in Hfd0. injection Hfd0 as <-.
  rewrite merge_asof_length, merge_asof_daily. split.
  - rewrite sort_rows_Permutation. simpl. by rewrite length_fmap.
  - apply sort_rows_Permutation.
Qed.

Lemma merge_complete_witness :
  length combined_ex = length (rows daily_ex) ∧
  c_daily <$> combined_ex ≡ₚ rows (converted daily_ex).
Proof.
  apply (merge_complete 1%positive 2%positive (store_of monthly_ex daily_ex)
           (<[1%positive := converted monthly_ex]>
              (<[2%positive := converted daily_ex]>
                 (store_of monthly_ex daily_ex)))).
  - vm_compute. reflexivity.
  - reflexivity.
Defined.

(** C9 fails as stated: with an empty monthly frame and two daily rows
    the call succeeds and writes two rows, their monthly columns null. *)
Lemma empty_monthly_keeps_daily_rows :
  rows (empty_frame "month") = [] ∧
  snd (save_combined_results 1%positive 2%positive
         (store_of (empty_frame "month") daily_ex)) = Ok combined_no_month ∧
  length combined_no_month = 2%nat.
Proof. split; [done|]. split; [by vm_compute|done]. Qed.

(** C9 (as amended): given a monthly and a daily frame as [calculate_cpi]
    names them, with times in range, an empty input raises no error.  If
    the daily frame is empty the file written has no row.  If the monthly
    frame is empty the file has one row per daily row, each with null
    monthly columns. *)
Theorem merge_empty_inputs (monthly_data daily_data : loc) (h : heap)
    (fm fd : cpi_frame) :
  h !! monthly_data = Some fm →
  h !! daily_data = Some fd →
  granularity fm = "month" →
  granularity fd = "day" →
  in_range fm →
  in_range fd →
  rows fd = [] ∨ rows fm = [] →
  ∃ h' combined,
    save_combined_results monthly_data daily_data h = (h', Ok combined) ∧
    (rows fd = [] → combined = []) ∧
    (rows fm = [] →
     length combined = length (rows fd) ∧
     Forall (λ c, c_monthly c = None) combined).
Proof.
  intros Hfm Hfd Hgm Hgd Hrm Hrd _.
  eexists _, _. split.
  { apply save_combined_results_ok_iff. exists fd, fm. eauto 10. }
  split.
  - intros Hnil. unfold converted. by rewrite Hnil.
  - intros Hnil. split.
    + rewrite merge_asof_length, sort_rows_Permutation. simpl.
      by rewrite length_fmap.
    + apply Forall_forall. intros c [_ ->]%merge_asof_elem.
      unfold converted. by rewrite Hnil.
Qed.

Lemma merge_empty_inputs_witness :
  ∃ h' combined,
    save_combined_results 1%positive 2%positive
      (store_of (empty_frame "month") daily_ex) = (h', Ok combined) ∧
    (rows daily_ex = [] → combined = []) ∧
    (rows (empty_frame "month") = [] →
     length combined = length (rows daily_ex) ∧
     Forall (λ c, c_monthly c = None) combined).
Proof.
  apply (merge_empty_inputs 1%positive 2%positive
           (store_of (empty_frame "month") daily_ex)
           (empty_frame "month") daily_ex).
  - reflexivity.
  - reflexivity.
  - reflexivity.
  - reflexivity.
  - constructor.
  - apply (bool_decide_unpack _). by vm_compute.
  - right. reflexivity.
Defined.







(** A call that fails has already changed what it converted: here the
    second argument is a daily frame and so is the first, the call raises
    [KeyError] for the monthly column, and the daily frame is converted. *)
Example failed_call_has_converted :
  save_combined_results 1%positive 2%positive (store_of daily_ex daily_ex) =
    (<[2%positive := converted daily_ex]> (store_of daily_ex daily_ex),
     Raise (KeyError "time_period_month")).
Proof. by vm_compute. Qed.

(** The caller's daily frame before and after the call of the example. *)
Example caller_frame_changed :
  fst (save_combined_results 1%positive 2%positive
         (store_of monthly_ex daily_ex)) !! 2%positive =
    Some {| granularity := "day";
            rows := [ stamped d_2025_01_15 120 100;
                      stamped d_2025_02_15 150 125 ] |} ∧
  store_of monthly_ex daily_ex !! 2%positive =
    Some {| granularity := "day";
            rows := [ point d_2025_01_15 120 100;
                      point d_2025_02_15 150 125 ] |}.
Proof. split; by vm_compute. Qed.

(** * Further properties of calculate_cpi *)

Lemma groupby_agg_sorted (merged : list merged_row) :
  StronglySorted (λ a b, g_time_period a < g_time_period b)
    (groupby_agg merged).
Proof.
  unfold groupby_agg.
  eapply StronglySorted_fmap; [|apply group_keys_sorted]. done.
Qed.

(** On success the frame is the rebased aggregation, and the bucket used
    as base is its first row. *)
Lemma calculate_cpi_first_bucket (g : string) (base_prices : list base_row)
    (time_data : list time_row) (weights : list weight_row)
    (log : list log_record) (f : cpi_frame) :
  calculate_cpi g base_prices time_data weights = (log, Ok f) →
  let merged := merged_of time_data base_prices weights in
  ∃ b0 bs,
    groupby_agg merged = b0 :: bs ∧
    f = rebase g (cpi b0) (b0 :: bs) ∧
    log = query_log g base_prices time_data weights ++
          base_price_warning merged ++ [Info_dynamic_base (g_time_period b0)].
Proof.
  intros Hrun merged.
  pose proof (calculate_cpi_cases g base_prices time_data weights) as Hc.
  cbv zeta in Hc. fold merged in Hc.
  destruct merged as [|r0 m0] eqn:Hm; [by rewrite Hrun in Hc|].
  destruct Hc as (b & Hb & Hmin & Hc). rewrite Hrun in Hc.
  injection Hc as -> ->.
  pose proof (groupby_agg_sorted (r0 :: m0)) as Hs.
  destruct (groupby_agg (r0 :: m0)) as [|b0 bs] eqn:Hagg.
  { by apply elem_of_nil in Hb. }
  assert (b = b0) as ->.
  { apply (groupby_agg_inj b b0 (r0 :: m0)); [by rewrite Hagg|rewrite Hagg; left|].
    apply Z.le_antisymm; [apply Hmin; left|].
    apply elem_of_cons in Hb as [->|Hb]; [done|].
    apply StronglySorted_inv in Hs as [_ Hall].
    rewrite Forall_forall in Hall. apply Hall in Hb. lia. }
  exists b0, bs. done.
Qed.

Lemma merged_of_elem_iff (r : merged_row) (time_df : list time_row)
    (base_df : list base_row) (weight_df : list weight_row) :
  r ∈ merged_of time_df base_df weight_df ↔
  ∃ t b w, t ∈ time_df ∧ b ∈ base_df ∧ w ∈ weight_df ∧
           b_category_id b = t_category_id t ∧
           w_category_id w = t_category_id t ∧
           r = coerce (t, b, w).
Proof.
  unfold merged_of. rewrite list_elem_of_fmap. split.
  - intros ([[t b] w] & -> & Hin).
    apply merge_inner_elem in Hin as (Htb & Hw & Hkw).
    apply merge_inner_elem in Htb as (Ht & Hb & Hkb).
    exists t, b, w. done.
  - intros (t & b & w & Ht & Hb & Hw & Hkb & Hkw & ->).
    exists (t, b, w). split; [done|].
    apply merge_inner_elem. split; [|done]. by apply merge_inner_elem.
Qed.

(** The frame returned by [calculate_cpi] has its rows in strictly
    ascending order of period, so one row per period; its time cells are
    dates; and a period has a row exactly when some period-price row of
    that period has a category found in both the base prices and the
    weights. *)
Theorem frame_periods (g : string) (base_prices : list base_row)
    (time_data : list time_row) (weights : list weight_row)
    (log : list log_record) (f : cpi_frame) :
  calculate_cpi g base_prices time_data weights = (log, Ok f) →
  StronglySorted (λ a b, key a < key b) (rows f) ∧
  ∀ c, c ∈ r_time_period <$> rows f ↔
       ∃ t, c = PyDate (t_time_period t) ∧ t ∈ time_data ∧
            t_category_id t ∈ b_category_id <$> base_prices ∧
            t_category_id t ∈ w_category_id <$> weights.
Proof.
  intros Hrun. split; [by eapply calculate_cpi_ascending|].
  apply calculate_cpi_ok_inv in Hrun as (b0 & _ & _ & ->). simpl.
  intros c. rewrite <- list_fmap_compose. rewrite list_elem_of_fmap. split.
  - intros (b & -> & Hb). simpl.
    apply groupby_agg_elem in Hb as (r & Hr & ->). simpl.
    apply merged_of_elem_iff in Hr
      as (t & br & wr & Ht & Hbr & Hwr & Hkb & Hkw & ->).
    exists t. simpl. split; [done|]. split; [done|].
    split; apply list_elem_of_fmap; eauto.
  - intros (t & -> & Ht & Hb & Hw).
    apply list_elem_of_fmap in Hb as (br & Hkb & Hbr).
    apply list_elem_of_fmap in Hw as (wr & Hkw & Hwr).
    exists (aggregate (t_time_period t)
              (merged_of time_data base_prices weights)).
    split; [done|]. apply groupby_agg_elem.
    exists (coerce (t, br, wr)). split; [|done].
    apply merged_of_elem_iff. exists t, br, wr. done.
Qed.

Lemma frame_periods_witness :
  StronglySorted (λ a b, key a < key b)
    (rows (one_bucket "month" (Fin 116) (Fin 100))) ∧
  ∀ c, c ∈ r_time_period <$> rows (one_bucket "month" (Fin 116) (Fin 100)) ↔
       ∃ t, c = PyDate (t_time_period t) ∧ t ∈ ex_time ∧
            t_category_id t ∈ b_category_id <$> ex_base ∧
            t_category_id t ∈ w_category_id <$> ex_weights.
Proof.
  apply (frame_periods "month" ex_base ex_time ex_weights
           (query_log "month" ex_base ex_time ex_weights ++
              [Info_dynamic_base d_2025_01_01])).
  vm_compute. reflexivity.
Defined.

(** Every [cpi_index] of the frame is the row's cpi divided by the cpi of
    the first row, times 100, and the period logged as dynamic base is
    the period of that first row. *)
Theorem index_relative_to_first_row (g : string) (base_prices : list base_row)
    (time_data : list time_row) (weights : list weight_row)
    (log : list log_record) (f : cpi_frame) :
  calculate_cpi g base_prices time_data weights = (log, Ok f) →
  ∃ r0 rest d0,
    rows f = r0 :: rest ∧
    r_time_period r0 = PyDate d0 ∧
    last log = Some (Info_dynamic_base d0) ∧
    ∀ r, r ∈ rows f →
         r_cpi_index r = mul (div (r_cpi r) (r_cpi r0)) (of_Z 100).
Proof.
  intros (b0 & bs & Hagg & -> & ->)%calculate_cpi_first_bucket.
  eexists _, _, (g_time_period b0).
  split; [done|]. split; [done|]. split.
  - rewrite app_assoc. apply last_snoc.
  - simpl. intros r [->|Hr]%elem_of_cons; [done|].
    by apply list_elem_of_fmap in Hr as (b & -> & _).
Qed.

Lemma index_relative_to_first_row_witness :
  ∃ r0 rest d0,
    rows (one_bucket "month" (Fin 116) (Fin 100)) = r0 :: rest ∧
    r_time_period r0 = PyDate d0 ∧
    last (query_log "month" ex_base ex_time ex_weights ++
            [Info_dynamic_base d_2025_01_01]) = Some (Info_dynamic_base d0) ∧
    ∀ r, r ∈ rows (one_bucket "month" (Fin 116) (Fin 100)) →
         r_cpi_index r = mul (div (r_cpi r) (r_cpi r0)) (of_Z 100).
Proof.
  apply (index_relative_to_first_row "month" ex_base ex_time ex_weights).
  vm_compute. reflexivity.
Defined.

Lemma rebase_by_nan (x : float64) : mul (div x NaN) (of_Z 100) = NaN.
Proof. by rewrite div_nan_r. Qed.

Lemma rebase_by_zero (x y : float64) :
  is_zero y = true → is_finite (mul (div x y) (of_Z 100)) = false.
Proof.
  intros Hy. apply mul_not_finite_l.
  destruct y as [| |q]; try done. simpl in Hy.
  destruct x as [|a|p]; simpl; try done. rewrite Hy. by destruct (Q_zero p).
Qed.

Lemma rebase_by_inf (x : float64) (a : bool) :
  mul (div x (Inf a)) (of_Z 100) = NaN ∨
  mul (div x (Inf a)) (of_Z 100) = Fin 0.
Proof. destruct x as [|b|p]; simpl; auto. Qed.

(** When the cpi of the first row, the base of the series, is not a
    finite non-zero number, the whole series is lost: with a NaN base
    every [cpi_index] is NaN, with a zero base none is a finite number,
    with an infinite base each one is NaN or 0. *)
Theorem undefined_base_spoils_series (g : string)
    (base_prices : list base_row) (time_data : list time_row)
    (weights : list weight_row) (log : list log_record) (f : cpi_frame)
    (r0 r : cpi_row) :
  calculate_cpi g base_prices time_data weights = (log, Ok f) →
  head (rows f) = Some r0 →
  r ∈ rows f →
  (r_cpi r0 = NaN → r_cpi_index r = NaN) ∧
  (is_zero (r_cpi r0) = true → is_finite (r_cpi_index r) = false) ∧
  (∀ a, r_cpi r0 = Inf a → r_cpi_index r = NaN ∨ r_cpi_index r = Fin 0).
Proof.
  intros (b0 & bs & Hagg & -> & _)%calculate_cpi_first_bucket Hhead Hr.
  simpl in Hhead. injection Hhead as <-. simpl.
  assert (r_cpi_index r = mul (div (r_cpi r) (cpi b0)) (of_Z 100)) as ->.
  { simpl in Hr. apply elem_of_cons in Hr as [->|Hr]; [done|].
    by apply list_elem_of_fmap in Hr as (b & -> & _). }
  split; [|split].
  - intros ->. apply rebase_by_nan.
  - apply rebase_by_zero.
  - intros a ->. apply rebase_by_inf.
Qed.

Lemma undefined_base_spoils_series_witness :
  r_cpi_index {| r_time_period := PyDate d_2025_01_01;
                 r_cpi := NaN; r_cpi_index := NaN |} = NaN.
Proof.
  apply (undefined_base_spoils_series "month" ex_base ex_time bad_weights
           (query_log "month" ex_base ex_time bad_weights ++
              [Info_dynamic_base d_2025_01_01])
           (one_bucket "month" NaN NaN)
           {| r_time_period := PyDate d_2025_01_01;
              r_cpi := NaN; r_cpi_index := NaN |}).
  - vm_compute. reflexivity.
  - reflexivity.
  - left.
  - reflexivity.
Defined.

(** ** Size of the join *)

Section MergeLength.
Context {A B : Type}.
Variable key_l : A → string.
Variable key_r : B → string.

Lemma merge_inner_cons (a : A) (left : list A) (right : list B) :
  merge_inner key_l key_r (a :: left) right =
  ((λ b, (a, b)) <$> filter (λ b, key_r b = key_l a) right) ++
  merge_inner key_l key_r left right.
Proof.
  unfold merge_inner. rewrite bind_cons. f_equal.
Qed.

Lemma merge_inner_app (l1 l2 : list A) (right : list B) :
  merge_inner key_l key_r (l1 ++ l2) right =
  merge_inner key_l key_r l1 right ++ merge_inner key_l key_r l2 right.
Proof. unfold merge_inner. apply bind_app. Qed.

Lemma merge_inner_length (left : list A) (right : list B) :
  length (merge_inner key_l key_r left right) =
  sum_list_with (λ a, length (filter (λ b, key_r b = key_l a) right)) left.
Proof.
  induction left as [|a left IH]; [done|].
  rewrite merge_inner_cons, length_app, length_fmap, IH. done.
Qed.

(** A key occurs at most once in a table whose keys are distinct. *)
Lemma filter_key_NoDup (k : string) (right : list B) :
  NoDup (key_r <$> right) →
  filter (λ b, key_r b = k) right = [] ∨
  ∃ b, filter (λ b, key_r b = k) right = [b] ∧ b ∈ right ∧ key_r b = k.
Proof.
  induction right as [|b right IH]; [by left|].
  rewrite fmap_cons, NoDup_cons. intros [Hb Hnd].
  rewrite filter_cons. case_decide as Hk.
  - right. exists b. split; [|split; [left|done]]. f_equal.
    apply filter_none. intros b' Hb' Hk'. apply Hb.
    apply list_elem_of_fmap. exists b'. split; [congruence|done].
  - destruct (IH Hnd) as [H|(b' & H & Hin & Hk')]; [by left|].
    right. exists b'. split; [done|]. split; [by right|done].
Qed.
End MergeLength.

(** The number of joined rows: every period-price row gives as many rows
    as there are base-price rows of its category times weight rows of its
    category.  Nothing is deduplicated: a category listed twice in the
    weights counts twice in every bucket. *)
Theorem join_cardinality (time_df : list time_row) (base_df : list base_row)
    (weight_df : list weight_row) :
  length (merged_of time_df base_df weight_df) =
  sum_list_with
    (λ t, length (filter (λ b, b_category_id b = t_category_id t) base_df) *
          length (filter (λ w, w_category_id w = t_category_id t) weight_df))%nat
    time_df.
Proof.
  unfold merged_of. rewrite length_fmap.
  induction time_df as [|t time_df IH]; [done|].
  rewrite merge_inner_cons, merge_inner_app, length_app, IH. simpl.
  f_equal. clear IH.
  induction (filter (λ b, b_category_id b = t_category_id t) base_df)
    as [|b l IHl]; [done|].
  rewrite fmap_cons, merge_inner_cons, length_app, length_fmap, IHl. done.
Qed.

(** With one base price and one weight per category, as the GROUP BY of
    the base query gives, the join is a filter: the joined rows are the
    period-price rows whose category is in both tables, one each and in
    their order. *)
Theorem join_with_unique_keys (time_df : list time_row)
    (base_df : list base_row) (weight_df : list weight_row) :
  NoDup (b_category_id <$> base_df) →
  NoDup (w_category_id <$> weight_df) →
  (λ r, (time_period r, category_id r, avg_price r))
    <$> merged_of time_df base_df weight_df =
  (λ t, (t_time_period t, t_category_id t, to_numeric (t_avg_price t)))
    <$> filter (λ t, t_category_id t ∈ b_category_id <$> base_df ∧
                     t_category_id t ∈ w_category_id <$> weight_df) time_df.
Proof.
  intros Hb Hw. unfold merged_of.
  induction time_df as [|t time_df IH]; [done|].
  rewrite merge_inner_cons, merge_inner_app, !fmap_app, IH. clear IH.
  rewrite filter_cons.
  destruct (filter_key_NoDup b_category_id (t_category_id t) base_df Hb)
    as [Hfb|(b & Hfb & Hbin & Hbk)]; rewrite Hfb.
  { rewrite decide_False; [done|]. intros [Hin _].
    apply list_elem_of_fmap in Hin as (b & Hk & Hin).
    by apply (filter_nil_not_elem_of _ _ b Hfb). }
  cbn [fmap list_fmap]. rewrite merge_inner_cons.
  destruct (filter_key_NoDup w_category_id (t_category_id t) weight_df Hw)
    as [Hfw|(w & Hfw & Hwin & Hwk)]; cbn [fst]; rewrite Hfw.
  { rewrite decide_False; [done|]. intros [_ Hin].
    apply list_elem_of_fmap in Hin as (w & Hk & Hin).
    by apply (filter_nil_not_elem_of _ _ w Hfw). }
  rewrite decide_True; [done|].
  split; apply list_elem_of_fmap; eauto.
Qed.

Lemma join_with_unique_keys_witness :
  (λ r, (time_period r, category_id r, avg_price r))
    <$> merged_of time_with_E base_with_E ex_weights =
  (λ t, (t_time_period t, t_category_id t, to_numeric (t_avg_price t)))
    <$> filter (λ t, t_category_id t ∈ b_category_id <$> base_with_E ∧
                     t_category_id t ∈ w_category_id <$> ex_weights)
          time_with_E.
Proof.
  apply join_with_unique_keys.
  - apply (bool_decide_unpack _). by vm_compute.
  - apply (bool_decide_unpack _). by vm_compute.
Defined.

(** ** The two sums of a bucket run over different rows *)

Lemma nansum_fmap_filter {A : Type} (f : A → float64) (l : list A) :
  nansum (f <$> l) = nansum (f <$> filter (λ r, isna (f r) = false) l).
Proof.
  unfold nansum. f_equal.
  induction l as [|r l IH]; [done|].
  rewrite fmap_cons, !filter_cons. case_decide as Hr.
  - rewrite fmap_cons, filter_cons, decide_True by done. by rewrite IH.
  - done.
Qed.

Lemma price_index_nan_avg (r : merged_row) :
  avg_price r = NaN → price_index r = NaN.
Proof. unfold price_index. by intros ->. Qed.

(** In every bucket the numerator of cpi sums price_index * weight over
    the rows where that product is a number, the denominator sums weight
    over the rows where the weight is a number.  A row whose avg_price or
    base_price is null is in no numerator, but it stays in the
    denominator with its weight: it pulls the cpi of its bucket towards
    zero instead of being left out of the average. *)
Theorem cpi_sums_over_two_row_sets (t : Z) (merged : list merged_row) :
  cpi (aggregate t merged) =
    div (nansum (weighted <$>
                   filter (λ r, isna (weighted r) = false) (group t merged)))
        (nansum (weight <$>
                   filter (λ r, isna (weight r) = false) (group t merged))) ∧
  ∀ r, isna (avg_price r) = true ∨ isna (base_price r) = true →
       isna (weighted r) = true.
Proof.
  split.
  - unfold cpi, aggregate. simpl.
    by rewrite <- !nansum_fmap_filter.
  - intros r [H%isna_true|H%isna_true]; apply isna_true; unfold weighted.
    + by rewrite price_index_nan_avg.
    + by rewrite price_index_nan_base.
Qed.

(** With the base price of A null, the bucket of the example gets
    cpi 44 = (110 * 0.4) / (0.6 + 0.4), not the 110 of category B alone. *)
Example null_base_price_dilutes :
  cpi (aggregate d_2025_01_01 (merged_of ex_time null_base ex_weights))
    = Fin 44 ∧
  cpi (aggregate d_2025_01_01
         (merged_of ex_time (drop_category b_category_id "A" null_base)
            ex_weights)) = Fin 110.
Proof. split; by vm_compute. Qed.

(** * Further properties of save_combined_results *)



Lemma converted_idemp (f : cpi_frame) : converted (converted f) = converted f.
Proof.
  unfold converted. simpl. f_equal.
  rewrite <- list_fmap_compose. by apply list_fmap_ext.
Qed.

Lemma in_range_converted (f : cpi_frame) : in_range (converted f) ↔ in_range f.
Proof.
  unfold in_range, converted. simpl. rewrite Forall_fmap.
  apply Forall_proper; [|done]. by intros r.
Qed.

(** Calling [save_combined_results] again on the store it left writes the
    same file and leaves the store as it is: the conversion of the time
    columns is done once. *)
Theorem second_call_same (monthly_data daily_data : loc) (h h' : heap)
    (combined : list combined_row) :
  save_combined_results monthly_data daily_data h = (h', Ok combined) →
  save_combined_results monthly_data daily_data h' = (h', Ok combined).
Proof.
  intros (fd & fm & Hfd & Hfm & Hgd & Hgm & Hrd & Hrm & -> & ->)
    %save_combined_results_ok_iff.
  assert (daily_data ≠ monthly_data) as Hne by (intros <-; congruence).
  set (h' := <[monthly_data:=converted fm]> (<[daily_data:=converted fd]> h)).
  assert (h' !! daily_data = Some (converted fd)) as H2d.
  { unfold h'. rewrite lookup_insert_ne by done. apply lookup_insert_eq. }
  assert (h' !! monthly_data = Some (converted fm)) as H2m
    by apply lookup_insert_eq.
  apply save_combined_results_ok_iff.
  exists (converted fd), (converted fm).
  rewrite !converted_idemp, !in_range_converted.
  repeat (split; [done|]). split; [|done].
  rewrite (insert_id h' daily_data) by done.
  by rewrite insert_id.
Qed.

Lemma second_call_same_witness :
  save_combined_results 1%positive 2%positive
    (<[1%positive := converted monthly_ex]>
       (<[2%positive := converted daily_ex]> (store_of monthly_ex daily_ex)))
  = (<[1%positive := converted monthly_ex]>
       (<[2%positive := converted daily_ex]> (store_of monthly_ex daily_ex)),
     Ok combined_ex).
Proof.
  apply (second_call_same 1%positive 2%positive
           (store_of monthly_ex daily_ex)).
  vm_compute. reflexivity.
Defined.

(** The rows of the file written are in ascending order of the daily
    time, whatever the order of the rows of the daily frame. *)
Theorem combined_ascending (monthly_data daily_data : loc) (h h' : heap)
    (combined : list combined_row) :
  save_combined_results monthly_data daily_data h = (h', Ok combined) →
  StronglySorted key_le (c_daily <$> combined).
Proof.
  intros (fd & fm & _ & _ & _ & _ & _ & _ & _ & ->)
    %save_combined_results_ok_iff.
  rewrite merge_asof_daily. apply sorted_rows.
Qed.

Lemma combined_ascending_witness :
  StronglySorted key_le (c_daily <$> combined_ex).
Proof.
  apply (combined_ascending 1%positive 2%positive
           (store_of monthly_ex daily_ex)
           (<[1%positive := converted monthly_ex]>
              (<[2%positive := converted daily_ex]>
                 (store_of monthly_ex daily_ex)))).
  vm_compute. reflexivity.
Defined.

(** A daily row whose time is the time of some monthly row gets a monthly
    row of exactly that time. *)
Theorem exact_time_match (monthly_data daily_data : loc) (h h' : heap)
    (combined : list combined_row) (c : combined_row) (fm : cpi_frame)
    (r : cpi_row) :
  save_combined_results monthly_data daily_data h = (h', Ok combined) →
  c ∈ combined →
  h' !! monthly_data = Some fm →
  r ∈ rows fm →
  key r = key (c_daily c) →
  ∃ m, c_monthly c = Some m ∧ m ∈ rows fm ∧ key m = key (c_daily c).
Proof.
  intros (fd & fm0 & _ & _ & _ & _ & _ & _ & -> & ->)
    %save_combined_results_ok_iff Hc Hfm Hr Hk.
  rewrite lookup_insert_eq in Hfm. injection Hfm as <-.
  apply merge_asof_elem in Hc as [_ ->].
  destruct (asof_nearest_spec (key (c_daily c))
              (sort_rows (rows (converted fm0))) r)
    as (m & Hm & Hin & Hnear & _);
    [apply sorted_rows|by apply sorted_rows_elem|].
  exists m. split; [done|]. split; [by apply sorted_rows_elem|]. lia.
Qed.

Lemma asof_nearest_elem (t : Z) (right : list cpi_row) (m : cpi_row) :
  StronglySorted key_le right → asof_nearest t right = Some m → m ∈ right.
Proof.
  intros Hs Hm. destruct right as [|r0 right]; [done|].
  destruct (asof_nearest_spec t (r0 :: right) r0 Hs) as (m' & Hm' & Hin & _);
    [left|]. congruence.
Qed.

(** A later time never gets an earlier row attached. *)
Lemma asof_nearest_mono (t1 t2 : Z) (right : list cpi_row) (m1 m2 : cpi_row) :
  StronglySorted key_le right → t1 ≤ t2 →
  asof_nearest t1 right = Some m1 → asof_nearest t2 right = Some m2 →
  key m1 ≤ key m2.
Proof.
  intros Hs Ht H1 H2.
  pose proof (asof_nearest_elem _ _ _ Hs H1) as Hin1.
  pose proof (asof_nearest_elem _ _ _ Hs H2) as Hin2.
  destruct (asof_nearest_spec t1 right m2 Hs Hin2) as (m & Hm & _ & Ha & Hb).
  destruct (asof_nearest_spec t2 right m1 Hs Hin1) as (m' & Hm' & _ & Ha' & Hb').
  rewrite H1 in Hm. rewrite H2 in Hm'. injection Hm as <-. injection Hm' as <-.
  lia.
Qed.

Lemma exact_time_match_witness :
  ∃ m, c_monthly {| c_daily := stamped d_2025_02_01 145 100;
                    c_monthly := Some (stamped d_2025_02_01 145 125) |}
       = Some m ∧
       m ∈ rows (converted monthly_ex) ∧
       key m = key (stamped d_2025_02_01 145 100).
Proof.
  apply (exact_time_match 1%positive 2%positive
           (store_of monthly_ex daily_feb)
           (<[1%positive := converted monthly_ex]>
              (<[2%positive := converted daily_feb]>
                 (store_of monthly_ex daily_feb)))
           combined_feb
           {| c_daily := stamped d_2025_02_01 145 100;
              c_monthly := Some (stamped d_2025_02_01 145 125) |}
           (converted monthly_ex)
           (stamped d_2025_02_01 145 125)).
  - vm_compute. reflexivity.
  - left.
  - reflexivity.
  - right. left.
  - reflexivity.
Defined.

(** Along the file written the attached monthly times never go back: of
    two rows, the later one has a monthly row at least as late. *)
Theorem attached_months_ascend (monthly_data daily_data : loc) (h h' : heap)
    (l1 l2 l3 : list combined_row) (c1 c2 : combined_row) (m1 m2 : cpi_row) :
  save_combined_results monthly_data daily_data h =
    (h', Ok (l1 ++ c1 :: l2 ++ c2 :: l3)) →
  c_monthly c1 = Some m1 →
  c_monthly c2 = Some m2 →
  key m1 ≤ key m2.
Proof.
  intros Hrun H1 H2.
  assert (StronglySorted key_le (c_daily <$> (l1 ++ c1 :: l2 ++ c2 :: l3)))
    as Hs.
  { apply save_combined_results_ok_iff in Hrun
      as (fd & fm & _ & _ & _ & _ & _ & _ & _ & ->).
    rewrite merge_asof_daily. apply sorted_rows. }
  apply save_combined_results_ok_iff in Hrun
    as (fd & fm & _ & _ & _ & _ & _ & _ & _ & Hc).
  assert (c1 ∈ l1 ++ c1 :: l2 ++ c2 :: l3) as Hc1.
  { apply elem_of_app. right. left. }
  assert (c2 ∈ l1 ++ c1 :: l2 ++ c2 :: l3) as Hc2.
  { apply elem_of_app. right. right. apply elem_of_app. right. left. }
  rewrite Hc in Hc1, Hc2.
  apply merge_asof_elem in Hc1 as [_ Hn1].
  apply merge_asof_elem in Hc2 as [_ Hn2].
  rewrite H1 in Hn1. rewrite H2 in Hn2.
  eapply (asof_nearest_mono (key (c_daily c1)) (key (c_daily c2)));
    [apply sorted_rows| |done|done].
  rewrite fmap_app, fmap_cons in Hs.
  apply StronglySorted_app in Hs as (_ & _ & Hs).
  apply StronglySorted_inv in Hs as [_ Hall].
  rewrite Forall_forall in Hall. apply Hall.
  rewrite fmap_app, fmap_cons. apply elem_of_app. right. left.
Qed.

Lemma attached_months_ascend_witness :
  key (stamped d_2025_01_01 116 100) ≤ key (stamped d_2025_02_01 145 125).
Proof.
  apply (attached_months_ascend 1%positive 2%positive
           (store_of monthly_ex daily_ex)
           (<[1%positive := converted monthly_ex]>
              (<[2%positive := converted daily_ex]>
                 (store_of monthly_ex daily_ex)))
           [] [] []
           {| c_daily := stamped d_2025_01_15 120 100;
              c_monthly := Some (stamped d_2025_01_01 116 100) |}
           {| c_daily := stamped d_2025_02_15 150 125;
              c_monthly := Some (stamped d_2025_02_01 145 125) |}).
  - vm_compute. reflexivity.
  - reflexivity.
  - reflexivity.
Defined.

(** ** The two functions together *)

Lemma calculate_cpi_granularity (g : string) (base_prices : list base_row)
    (time_data : list time_row) (weights : list weight_row)
    (log : list log_record) (f : cpi_frame) :
  calculate_cpi g base_prices time_data weights = (log, Ok f) →
  granularity f = g ∧ rows f ≠ [].
Proof.
  by intros (b0 & bs & _ & -> & _)%calculate_cpi_first_bucket.
Qed.

(** The frames that [calculate_cpi] returns for the granularities month
    and day are what [save_combined_results] asks for: with times in
    range the call does not raise, it writes one row per daily bucket and
    every row carries a monthly row. *)
Theorem pipeline_composes (base_m base_d : list base_row)
    (time_m time_d : list time_row) (weights_m weights_d : list weight_row)
    (log_m log_d : list log_record) (fm fd : cpi_frame)
    (monthly_data daily_data : loc) (h : heap) :
  calculate_cpi "month" base_m time_m weights_m = (log_m, Ok fm) →
  calculate_cpi "day" base_d time_d weights_d = (log_d, Ok fd) →
  h !! monthly_data = Some fm →
  h !! daily_data = Some fd →
  in_range fm →
  in_range fd →
  ∃ h' combined,
    save_combined_results monthly_data daily_data h = (h', Ok combined) ∧
    length combined = length (rows fd) ∧
    Forall (λ c, is_Some (c_monthly c)) combined.
Proof.
  intros [Hgm Hnm]%calculate_cpi_granularity
         [Hgd Hnd]%calculate_cpi_granularity Hfm Hfd Hrm Hrd.
  eexists _, _. split.
  { apply save_combined_results_ok_iff. exists fd, fm. eauto 10. }
  split.
  - rewrite merge_asof_length, sort_rows_Permutation. simpl.
    by rewrite length_fmap.
  - apply Forall_forall. intros c [_ ->]%merge_asof_elem.
    destruct (rows fm) as [|r0 rs] eqn:Hrows; [done|].
    destruct (asof_nearest_spec (key (c_daily c))
                (sort_rows (rows (converted fm)))
                (set_time r0 (Timestamp (key r0))))
      as (m & -> & _); [apply sorted_rows| |done].
    apply sorted_rows_elem. unfold converted. simpl. rewrite Hrows. left.
Qed.

Lemma pipeline_composes_witness :
  ∃ h' combined,
    save_combined_results 1%positive 2%positive
      (store_of (one_bucket "month" (Fin 116) (Fin 100)) ex_day_frame)
    = (h', Ok combined) ∧
    length combined = length (rows ex_day_frame) ∧
    Forall (λ c, is_Some (c_monthly c)) combined.
Proof.
  apply (pipeline_composes ex_base ex_base ex_time ex_time_day
           ex_weights ex_weights
           (query_log "month" ex_base ex_time ex_weights ++
              [Info_dynamic_base d_2025_01_01])
           (query_log "day" ex_base ex_time_day ex_weights ++
              [Info_dynamic_base d_2025_01_15])
           (one_bucket "month" (Fin 116) (Fin 100)) ex_day_frame
           1%positive 2%positive
           (store_of (one_bucket "month" (Fin 116) (Fin 100)) ex_day_frame)).
  - vm_compute. reflexivity.
  - vm_compute. reflexivity.
  - reflexivity.
  - reflexivity.
  - apply (bool_decide_unpack _). by vm_compute.
  - apply (bool_decide_unpack _). by vm_compute.
Defined.

(** * Properties of cleaner.py *)

Module CleanerFacts.
Import Cleaner.

Lemma price_gt0_return (col : list price_cell) (m : list bool) :
  price_gt0 col = Return m →
  m = positive_price <$> col ∧ Forall (λ p, ∃ x, p = Number x) col.
Proof.
  revert m. induction col as [|[x|s] col IH]; intros m; simpl.
  - by intros [= <-].
  - destruct (price_gt0 col) as [m'|e]; [|done]. intros [= <-].
    destruct (IH m' eq_refl) as [-> HF]. split; [done|].
    constructor; [eauto|done].
  - done.
Qed.

Lemma price_gt0_raised (col : list price_cell) (e : exn) :
  price_gt0 col = Raised e ↔ e = TypeError ∧ ∃ s, Str s ∈ col.
Proof.
  induction col as [|[x|s] col IH]; simpl.
  - split; [done|]. by intros [_ [s Hs%elem_of_nil]].
  - destruct (price_gt0 col) as [m'|e'] eqn:Hp.
    + split; [done|]. intros [He [s Hs]].
      apply elem_of_cons in Hs as [?|Hs]; [done|].
      destruct IH as [_ IH]. by specialize (IH (conj He (ex_intro _ s Hs))).
    + split.
      * intros [= <-]. destruct IH as [IH _].
        destruct (IH eq_refl) as [-> [s Hs]]. split; [done|].
        exists s. by right.
      * intros [-> [s Hs]]. apply elem_of_cons in Hs as [?|Hs]; [done|].
        f_equal. destruct IH as [_ IH]. by injection (IH (conj eq_refl (ex_intro _ s Hs))).
  - split.
    + intros [= <-]. split; [done|]. exists s. left.
    + by intros [-> _].
Qed.

Lemma select_filter (kept : list row) :
  select (zip_with andb (positive_price <$> (price <$> kept))
            (zip_with andb (notna ∘ product_id <$> kept)
                           (notna ∘ category_id <$> kept))) kept =
  filter (λ r, positive_price (price r) && notna (product_id r) &&
               notna (category_id r) = true) kept.
Proof.
  induction kept as [|r kept IH]; [done|].
  rewrite !fmap_cons. cbn [zip_with select]. rewrite IH, filter_cons.
  rewrite <- andb_assoc. simpl.
  destruct (positive_price (price r) &&
            (notna (product_id r) && notna (category_id r))) eqn:Hm.
  - by rewrite decide_True.
  - by rewrite decide_False.
Qed.

Lemma kept_rows (rs : list row) :
  filter (λ r, change_date r ≠ NaT)
    ((λ r, set_change_date r (to_datetime_coerce (change_date r))) <$> rs) =
  (λ r, set_change_date r (to_datetime_coerce (change_date r)))
    <$> filter (λ r, parses (change_date r) = true) rs.
Proof.
  induction rs as [|r rs IH]; [done|].
  rewrite fmap_cons, !filter_cons, IH. unfold parses. simpl.
  destruct (to_datetime_coerce (change_date r)) eqn:Hc.
  - by destruct (change_date r) as [[?|]| |].
  - repeat case_decide; try done. by rewrite fmap_cons, Hc.
  - repeat case_decide; done.
Qed.

(** What a call returns when it does not raise, in terms of the frame it
    was given. *)
Lemma clean_price_data_inv (f : frame) (res : option (list clean_row)) :
  snd (clean_price_data (Some f)) = Return res →
  if empty f then res = None
  else res = Some (cleaned <$> filter (λ r, valid r = true) (rows f)) ∧
       Forall (λ r, parses (change_date r) = true → ∃ x, price r = Number x)
         (rows f).
Proof.
  unfold clean_price_data. destruct (empty f); [by intros [= <-]|].
  case_decide as Hcol; [|done].
  destruct (filter (λ c, c ∉ columns f) wanted) as [|c miss]; [|done].
  cbn [rows]. rewrite kept_rows.
  set (kept := (λ r, set_change_date r (to_datetime_coerce (change_date r)))
                 <$> filter (λ r, parses (change_date r) = true) (rows f)).
  destruct (price_gt0 (price <$> kept)) as [m|e] eqn:Hp; [|done].
  apply price_gt0_return in Hp as [-> HF].
  simpl. intros [= <-]. split.
  - f_equal. rewrite select_filter. unfold kept.
    assert (∀ l : list row,
      filter (λ r, positive_price (price r) && notna (product_id r) &&
                   notna (category_id r) = true)
        ((λ r, set_change_date r (to_datetime_coerce (change_date r))) <$> l) =
      (λ r, set_change_date r (to_datetime_coerce (change_date r))) <$>
        filter (λ r, positive_price (price r) && notna (product_id r) &&
                     notna (category_id r) = true) l) as Hcomm.
    { induction l as [|r l IH]; [done|].
      rewrite fmap_cons, !filter_cons, IH. simpl. by case_decide. }
    rewrite Hcomm, <- list_fmap_compose, list_filter_filter.
    f_equal. apply list_filter_iff. intros r. unfold valid.
    rewrite !andb_true_iff. tauto.
  - apply Forall_forall. intros r Hr Hpar.
    rewrite Forall_fmap in HF. unfold kept in HF. rewrite Forall_fmap in HF.
    rewrite Forall_forall in HF. apply (HF r). by apply list_elem_of_filter.
Qed.

(** The frame returned holds, in the order of the file, one row for each
    row of the file whose date parses, whose price is a number above
    zero and whose product and category are not null, and no other row.
    So every row returned has such a price, a product and a category. *)
Theorem clean_price_data_rows (f : frame) (out : list clean_row) :
  snd (clean_price_data (Some f)) = Return (Some out) →
  out = cleaned <$> filter (λ r, valid r = true) (rows f) ∧
  Forall (λ c, (∃ x, c_price c = Number x ∧ gt0 x = true) ∧
               is_Some (c_product_id c) ∧ is_Some (c_category_id c)) out.
Proof.
  intros H%clean_price_data_inv. destruct (empty f); [done|].
  destruct H as [[= ->] _]. split; [done|].
  apply Forall_fmap, Forall_forall. intros r [Hv _]%list_elem_of_filter.
  unfold valid in Hv. rewrite !andb_true_iff in Hv.
  destruct Hv as [[[_ Hp] Hpid] Hcid]. simpl.
  split; [|split].
  - destruct (price r) as [x|s]; [eauto|done].
  - by destruct (product_id r).
  - by destruct (category_id r).
Qed.

Lemma clean_price_data_rows_witness :
  [good_clean_row] = cleaned <$> filter (λ r, valid r = true) (rows good_file) ∧
  Forall (λ c, (∃ x, c_price c = Number x ∧ gt0 x = true) ∧
               is_Some (c_product_id c) ∧ is_Some (c_category_id c))
    [good_clean_row].
Proof. apply (clean_price_data_rows good_file). vm_compute. reflexivity. Defined.

Lemma wanted_present (f : frame) :
  filter (λ c, c ∉ columns f) wanted = [] ↔ Forall (λ c, c ∈ columns f) wanted.
Proof.
  split.
  - intros H. apply Forall_forall. intros c Hc.
    destruct (decide (c ∈ columns f)) as [|Hn]; [done|].
    by apply (filter_nil_not_elem_of _ _ c H) in Hn.
  - intros H. apply filter_none. intros c Hc Hn.
    rewrite Forall_forall in H. by apply Hn, H.
Qed.

(** [clean_price_data] raises [TypeError] exactly when the frame is not
    empty, has the five columns, and some row whose date parses has a
    text price; a text price in a row whose date does not parse does no
    harm.  When it raises, the frame of the caller has its [change_date]
    column converted all the same. *)
Theorem clean_price_data_type_error (f : frame) :
  (snd (clean_price_data (Some f)) = Raised TypeError ↔
   empty f = false ∧ Forall (λ c, c ∈ columns f) wanted ∧
   ∃ r s, r ∈ rows f ∧ parses (change_date r) = true ∧ price r = Str s) ∧
  (snd (clean_price_data (Some f)) = Raised TypeError →
   fst (clean_price_data (Some f)) = Some (dates_converted f)).
Proof.
  unfold clean_price_data. destruct (empty f); [split; [split|]; [done|by intros [? _]|done]|].
  case_decide as Hcol.
  2:{ split; [split|]; [done| |done]. intros (_ & Hw & _).
      rewrite Forall_forall in Hw. exfalso. apply Hcol, Hw.
      unfold wanted. do 4 right. left. }
  pose proof (wanted_present f) as Hw.
  destruct (filter (λ c, c ∉ columns f) wanted) as [|c miss].
  2:{ split; [split|]; [done| |done]. intros (_ & Hw' & _).
      by apply Hw in Hw'. }
  cbn [rows]. rewrite kept_rows.
  set (kept := (λ r, set_change_date r (to_datetime_coerce (change_date r)))
                 <$> filter (λ r, parses (change_date r) = true) (rows f)).
  assert ((∃ s, Str s ∈ price <$> kept) ↔
          ∃ r s, r ∈ rows f ∧ parses (change_date r) = true ∧ price r = Str s)
    as Hstr.
  { unfold kept. rewrite <- list_fmap_compose. split.
    - intros (s & (r & Hs & [Hp Hr]%list_elem_of_filter)%list_elem_of_fmap).
      exists r, s. done.
    - intros (r & s & Hr & Hp & Hs). exists s.
      apply list_elem_of_fmap. exists r. split; [done|].
      by apply list_elem_of_filter. }
  destruct (price_gt0 (price <$> kept)) as [m|e] eqn:Hp; simpl.
  - split; [split|]; [done| |done]. intros (_ & _ & Hex).
    apply Hstr in Hex.
    assert (Return m = Raised TypeError) as Hbad; [|done].
    rewrite <- Hp. by apply price_gt0_raised.
  - apply price_gt0_raised in Hp as [-> Hex]. split; [|done]. split; [|done].
    intros _. split; [done|]. split; [by apply Hw|]. by apply Hstr.
Qed.

Lemma clean_price_data_type_error_witness :
  fst (clean_price_data (Some text_price_file)) =
    Some (dates_converted text_price_file).
Proof.
  apply (proj2 (clean_price_data_type_error text_price_file)).
  vm_compute. reflexivity.
Defined.

(** [clean_price_data] returns [None] only for no frame or an empty one.
    A frame with rows of which none is kept gives an empty frame, which
    is not [None]. *)
Theorem clean_price_data_none (df : option frame) :
  snd (clean_price_data df) = Return None ↔
  df = None ∨ ∃ f, df = Some f ∧ empty f = true.
Proof.
  destruct df as [f|]; [|split; [by left|done]].
  split.
  - intros H. pose proof (clean_price_data_inv f None H) as Hinv.
    destruct (empty f) eqn:He; [eauto|]. by destruct Hinv.
  - intros [?|(f' & [= <-] & He)]; [done|].
    unfold clean_price_data. by rewrite He.
Qed.

(** ** main *)

Lemma clean_price_data_file_rows (df : option frame)
    (res : option (list clean_row)) :
  snd (clean_price_data df) = Return res → res = file_rows df.
Proof.
  destruct df as [f|]; [|by intros [= <-]].
  intros H%clean_price_data_inv. simpl. destruct (empty f); [done|].
  by destruct H.
Qed.

Lemma clean_all_return (files : list (option frame))
    (acc res : list (list clean_row)) :
  clean_all files acc = Return res → res = acc ++ omap file_rows files.
Proof.
  revert acc. induction files as [|df files IH]; intros acc; simpl.
  { intros [= <-]. by rewrite app_nil_r. }
  destruct (snd (clean_price_data df)) as [r|e] eqn:Hdf; [|done].
  apply clean_price_data_file_rows in Hdf as ->.
  destruct (file_rows df) as [rs|].
  - intros ->%IH. by rewrite <- app_assoc.
  - apply IH.
Qed.

Lemma clean_all_all_return (files : list (option frame))
    (acc : list (list clean_row)) :
  Forall (λ df, ∃ r, snd (clean_price_data df) = Return r) files →
  clean_all files acc = Return (acc ++ omap file_rows files).
Proof.
  intros HF. revert acc.
  induction HF as [|df files [r Hdf] _ IH]; intros acc; simpl.
  { by rewrite app_nil_r. }
  rewrite Hdf. apply clean_price_data_file_rows in Hdf as ->.
  destruct (file_rows df) as [rs|]; [|done].
  by rewrite IH, <- app_assoc.
Qed.

Lemma clean_all_app (l1 l2 : list (option frame))
    (acc : list (list clean_row)) :
  clean_all (l1 ++ l2) acc =
  match clean_all l1 acc with
  | Return acc' => clean_all l2 acc'
  | Raised e => Raised e
  end.
Proof.
  revert acc. induction l1 as [|df l1 IH]; intros acc; simpl; [done|].
  destruct (snd (clean_price_data df)) as [[rs|]|e]; by rewrite ?IH.
Qed.

Lemma main_price_file_inv {P C : Type} (df_products : option P)
    (df_categories : option C) (daily : list (option frame))
    (categories_exists : bool) (df_cat : outcome (list (list cat_cell)))
    (w : written) (n : nat) :
  main df_products df_categories daily categories_exists df_cat
    = (w, Return n) →
  price_csv w = Some (concat (omap file_rows daily)) ∧
  n = length (omap file_rows daily) ∧
  (1 ≤ n)%nat.
Proof.
  unfold main. destruct df_products, df_categories; try done.
  destruct (clean_all daily []) as [all|e] eqn:Hall; [|done].
  apply clean_all_return in Hall. simpl in Hall. subst all.
  destruct (omap file_rows daily) as [|rs all]; [done|].
  destruct categories_exists; [destruct df_cat; [|done]|];
    intros [= <- <-]; simpl; repeat split; lia.
Qed.

(** When [main] comes to its end, [price.csv] holds the cleaned rows of
    the daily files in the order of the listing, the files that could not
    be read or are empty giving none, and the number of files reported as
    processed is the number of the other files, at least one. *)
Theorem main_price_file {P C : Type} (df_products : option P)
    (df_categories : option C) (daily : list (option frame))
    (categories_exists : bool) (df_cat : outcome (list (list cat_cell)))
    (w : written) (n : nat) :
  main df_products df_categories daily categories_exists df_cat
    = (w, Return n) →
  price_csv w = Some (concat (omap file_rows daily)) ∧
  n = length (omap file_rows daily) ∧
  (1 ≤ n)%nat.
Proof. apply main_price_file_inv. Qed.

Lemma main_price_file_witness :
  price_csv {| price_csv := Some [good_clean_row]; categories_csv := None |} =
    Some (concat (omap file_rows [Some good_file; None; Some blank_price_file])) ∧
  2%nat = length (omap file_rows [Some good_file; None; Some blank_price_file]) ∧
  (1 ≤ 2)%nat.
Proof.
  apply (main_price_file (Some ()) (Some ())
           [Some good_file; None; Some blank_price_file] false (Return [])).
  vm_compute. reflexivity.
Defined.

(** [main] raises its "no valid price data" error, having written
    nothing, exactly when every daily file could not be read or is empty.
    One file with rows is enough to pass, even if none of its rows is
    kept. *)
Theorem main_no_price_data {P C : Type} (p : P) (c : C)
    (daily : list (option frame)) (categories_exists : bool)
    (df_cat : outcome (list (list cat_cell))) :
  main (Some p) (Some c) daily categories_exists df_cat =
    ({| price_csv := None; categories_csv := None |},
     Raised ValueError_no_price_data) ↔
  Forall (λ df, df = None ∨ ∃ f, df = Some f ∧ empty f = true) daily.
Proof.
  unfold main. split.
  - destruct (clean_all daily []) as [all|e] eqn:Hall.
    + pose proof (clean_all_return _ _ _ Hall) as Hr. simpl in Hr. subst all.
      destruct (omap file_rows daily) as [|rs all] eqn:Ho.
      * intros _. apply Forall_forall. intros df Hdf.
        destruct df as [f|]; [|by left]. right. exists f. split; [done|].
        destruct (empty f) eqn:He; [done|].
        assert (is_Some (file_rows (Some f))) as [rs Hrs]
          by (simpl; rewrite He; eauto).
        assert (rs ∈ omap file_rows daily) as Hin
          by (apply list_elem_of_omap; eauto).
        rewrite Ho in Hin. by apply elem_of_nil in Hin.
      * destruct categories_exists; [destruct df_cat|]; done.
    + intros [= ->]. exfalso. revert Hall. generalize (@nil (list clean_row)).
      induction daily as [|df daily IH]; intros acc; simpl; [done|].
      destruct (snd (clean_price_data df)) as [[rs|]|e] eqn:Hdf.
      * apply IH.
      * apply IH.
      * intros [= ->].
        destruct df as [f|]; [|done]. unfold clean_price_data in Hdf.
        destruct (empty f); [done|]. case_decide; [|done].
        destruct (filter _ wanted); [|done].
        destruct (price_gt0 _) as [m|e] eqn:Hp; [done|].
        apply CleanerFacts.price_gt0_raised in Hp as [-> _]. done.
  - intros HF.
    rewrite clean_all_all_return.
    2:{ eapply Forall_impl; [exact HF|]. intros df [->|(f & -> & He)].
        - by exists None.
        - exists None. unfold clean_price_data. by rewrite He. }
    assert (omap file_rows daily = []) as ->; [|done].
    induction HF as [|df daily Hdf _ IH]; [done|]. simpl.
    destruct Hdf as [->|(f & -> & He)]; simpl; [done|]. by rewrite He.
Qed.

(** The first daily file on which the cleaning raises stops [main] with
    that exception: the files cleaned before it are given up, the files
    after it are not looked at, and nothing is written. *)
Theorem first_bad_file_aborts {P C : Type} (p : P) (c : C)
    (before after : list (option frame)) (bad : option frame) (e : exn)
    (categories_exists : bool) (df_cat : outcome (list (list cat_cell))) :
  Forall (λ df, ∃ r, snd (clean_price_data df) = Return r) before →
  snd (clean_price_data bad) = Raised e →
  main (Some p) (Some c) (before ++ bad :: after) categories_exists df_cat =
    ({| price_csv := None; categories_csv := None |}, Raised e).
Proof.
  intros Hb Hbad. unfold main.
  rewrite clean_all_app, (clean_all_all_return _ _ Hb). simpl.
  by rewrite Hbad.
Qed.

Lemma first_bad_file_aborts_witness :
  main (Some ()) (Some ()) ([Some good_file] ++ Some text_price_file :: [None])
    false (Return []) =
    ({| price_csv := None; categories_csv := None |}, Raised TypeError).
Proof.
  apply first_bad_file_aborts.
  - constructor; [|constructor]. eexists. vm_compute. reflexivity.
  - vm_compute. reflexivity.
Defined.

(** A run can end well without a single record: when no row of any daily
    file is kept but some file has rows, [main] reports at least one file
    processed and writes a [price.csv] with no record. *)
Theorem processed_files_without_records {P C : Type} (df_products : option P)
    (df_categories : option C) (daily : list (option frame))
    (categories_exists : bool) (df_cat : outcome (list (list cat_cell)))
    (w : written) (n : nat) :
  main df_products df_categories daily categories_exists df_cat
    = (w, Return n) →
  Forall (λ df, ∀ f, df = Some f → Forall (λ r, valid r = false) (rows f))
    daily →
  price_csv w = Some [] ∧ (1 ≤ n)%nat.
Proof.
  intros (Hw & _ & Hn)%main_price_file_inv Hnone. split; [|done].
  rewrite Hw. f_equal. clear Hw Hn.
  induction Hnone as [|df daily Hdf _ IH]; [done|].
  assert (file_rows df = None ∨ file_rows df = Some []) as [Hf|Hf].
  { destruct df as [f|]; [|by left]. simpl.
    destruct (empty f); [by left|]. right.
    rewrite filter_none; [done|]. intros r Hr Hv.
    specialize (Hdf f eq_refl). rewrite Forall_forall in Hdf.
    by rewrite (Hdf r Hr) in Hv. }
  - cbn [omap list_omap]. by rewrite Hf.
  - cbn [omap list_omap]. rewrite Hf. cbn [concat]. by rewrite IH.
Qed.

Lemma processed_files_without_records_witness :
  price_csv {| price_csv := Some []; categories_csv := None |} = Some [] ∧
  (1 ≤ 1)%nat.
Proof.
  apply (processed_files_without_records (Some ()) (Some ())
           [Some blank_price_file] false (Return [])).
  - vm_compute. reflexivity.
  - constructor; [|constructor]. intros f [= <-].
    constructor; [|constructor]. reflexivity.
Defined.

End CleanerFacts.

(** * Properties of the connector *)

Module ConnectorFacts.
Import Connector.

Section Clients.
Context {Q : Type}.
Implicit Types (w : world Q) (evs : list (event Q)) (e : event Q).

Lemma open_clients_snoc evs e :
  open_clients (evs ++ [e]) =
  match e with
  | New n _ => open_clients evs ∪ {[n]}
  | Disconnect n => open_clients evs ∖ {[n]}
  | Execute _ _ => open_clients evs
  end.
Proof. unfold open_clients. by rewrite foldl_app. Qed.

Lemma open_clients_bound evs (n : nat) :
  n ∈ open_clients evs → ∃ e, e ∈ evs ∧ client_of e = n.
Proof.
  induction evs as [|e evs IH] using rev_ind.
  { intros H. by apply elem_of_empty in H. }
  rewrite open_clients_snoc. intros H.
  assert (n ∈ open_clients evs ∨ (∃ p, e = New n p)) as [Hn|[p ->]].
  { destruct e as [m p|m q|m]; [|by left|].
    - apply elem_of_union in H as [H|H]; [by left|].
      apply elem_of_singleton in H as ->. right. eauto.
    - apply elem_of_difference in H as [H _]. by left. }
  - destruct (IH Hn) as (e' & He' & Hc). exists e'. split; [|done].
    apply elem_of_app. by left.
  - exists (New n p). split; [|done]. apply elem_of_app. right. left.
Qed.

Lemma next_not_open w : well_formed w → next w ∉ open_clients (events w).
Proof.
  intros Hwf Hin. apply open_clients_bound in Hin as (e & He & Hc).
  unfold well_formed in Hwf. rewrite Forall_forall in Hwf.
  apply Hwf in He. lia.
Qed.

(** What [__enter__] does, by cases. *)
Lemma enter_cases (self : connector) w :
  match client_params (self_config self) with
  | Return p =>
      enter self w =
        ({| self_config := self_config self; self_client := Some (next w) |},
         {| next := S (next w); events := events w ++ [New (next w) p] |},
         Return (next w))
  | Raised e => enter self w = (self, w, Raised e)
  end.
Proof. unfold enter. by destruct (client_params (self_config self)). Qed.

Lemma execute_cases {R : Type} (self : connector) w (q : Q)
    (answer : outcome R) :
  match client_params (self_config self) with
  | Return p =>
      execute self w q answer =
        ({| self_config := self_config self; self_client := Some (next w) |},
         {| next := S (next w);
            events := events w ++ [New (next w) p; Execute (next w) q;
                                   Disconnect (next w)] |},
         answer)
  | Raised e => execute self w q answer = (self, w, Raised e)
  end.
Proof.
  unfold execute, enter.
  destruct (client_params (self_config self)) as [p|e]; [|done].
  unfold exit_, emit. simpl. by rewrite <- !app_assoc.
Qed.

Lemma open_clients_session evs (n : nat) (p : params) (qs : list Q) :
  n ∉ open_clients evs →
  open_clients (evs ++ New n p :: (Execute n <$> qs) ++ [Disconnect n]) =
  open_clients evs.
Proof.
  intros Hn.
  replace (evs ++ New n p :: (Execute n <$> qs) ++ [Disconnect n])
    with (((evs ++ [New n p]) ++ (Execute n <$> qs)) ++ [Disconnect n])
    by (by rewrite <- !app_assoc).
  rewrite open_clients_snoc.
  assert (open_clients ((evs ++ [New n p]) ++ (Execute n <$> qs)) =
          open_clients evs ∪ {[n]}) as ->.
  { induction qs as [|q qs IH] using rev_ind.
    - simpl. rewrite app_nil_r. apply open_clients_snoc.
    - rewrite fmap_app, app_assoc.
      change (Execute n <$> [q]) with [Execute (Q:=Q) n q].
      rewrite open_clients_snoc. apply IH. }
  apply set_eq. intros x.
  rewrite elem_of_difference, elem_of_union, elem_of_singleton.
  split; [tauto|]. intros Hx. split; [by left|]. by intros ->.
Qed.

End Clients.

Lemma subscript_raised (v : yaml) (key : string) (e : failure) :
  subscript v key = Raised e →
  (e = TypeError ∧ is_mapping v = false) ∨
  (e = KeyError key ∧ is_mapping v = true).
Proof.
  destruct v as [|s|l|m]; simpl; try (intros [= <-]; by left).
  destruct (m !! key); [done|]. intros [= <-]. by right.
Qed.

Lemma subscript_return (v x : yaml) (key : string) :
  subscript v key = Return x ↔ ∃ m, v = Mapping m ∧ m !! key = Some x.
Proof.
  destruct v as [|s|l|m]; simpl;
    try (split; [done|by intros (m' & ? & _)]).
  destruct (m !! key) as [y|] eqn:Hk.
  - split; [intros [= <-]; eauto|]. intros (m' & [= <-] & ?). congruence.
  - split; [done|]. intros (m' & [= <-] & ?). congruence.
Qed.

Lemma setting_raised (c : config) (key : string) (e : failure) :
  setting c key = Raised e →
  (e = TypeError ∧ not_mappings c) ∨
  (¬ not_mappings c ∧ (e = KeyError "clickhouse" ∨ e = KeyError key)).
Proof.
  unfold setting, not_mappings.
  destruct c as [|s|l|m]; simpl; try (intros [= <-]; left; auto).
  destruct (m !! "clickhouse") as [v|] eqn:Hs.
  - intros [[-> Hv]|[-> Hv]]%subscript_raised.
    + left. split; [done|]. right. eauto.
    + right. split; [|by right]. intros [?|(m' & v' & [= <-] & Hs' & Hv')];
        [done|]. congruence.
  - intros [= <-]. right. split; [|by left].
    intros [?|(m' & v' & [= <-] & Hs' & Hv')]; [done|]. congruence.
Qed.

Lemma setting_return (c : config) (key : string) (x : yaml) :
  setting c key = Return x ↔
  ∃ m section, c = Mapping m ∧ m !! "clickhouse" = Some (Mapping section) ∧
               section !! key = Some x.
Proof.
  unfold setting. split.
  - destruct (subscript c "clickhouse") as [v|] eqn:Hc; [|done].
    apply subscript_return in Hc as (m & -> & Hm).
    intros (section & -> & Hk)%subscript_return. eauto.
  - intros (m & section & -> & Hm & Hk). simpl. rewrite Hm. simpl.
    by rewrite Hk.
Qed.

Lemma client_params_raised (c : config) (e : failure) :
  client_params c = Raised e →
  (e = TypeError ∧ not_mappings c) ∨
  (¬ not_mappings c ∧ ∃ key, e = KeyError key).
Proof.
  unfold client_params.
  destruct (setting c "host") eqn:H1;
    [|intros [= <-]; apply setting_raised in H1 as [?|[? [->| ->]]]; eauto].
  destruct (setting c "port") eqn:H2;
    [|intros [= <-]; apply setting_raised in H2 as [?|[? [->| ->]]]; eauto].
  destruct (setting c "user") eqn:H3;
    [|intros [= <-]; apply setting_raised in H3 as [?|[? [->| ->]]]; eauto].
  destruct (setting c "password") eqn:H4;
    [|intros [= <-]; apply setting_raised in H4 as [?|[? [->| ->]]]; eauto].
  destruct (setting c "database") eqn:H5;
    [|intros [= <-]; apply setting_raised in H5 as [?|[? [->| ->]]]; eauto].
  apply setting_return in H5 as (m & section & -> & Hm & _).
  unfold get_settings. simpl. by rewrite Hm.
Qed.

Lemma client_params_return (c : config) :
  (∃ p, client_params c = Return p) ↔
  ∃ m section, c = Mapping m ∧ m !! "clickhouse" = Some (Mapping section) ∧
               Forall (λ k, is_Some (section !! k))
                 ["host"; "port"; "user"; "password"; "database"].
Proof.
  split.
  - intros [p Hp]. unfold client_params in Hp.
    destruct (setting c "host") as [x1|] eqn:H1; [|done].
    destruct (setting c "port") as [x2|] eqn:H2; [|done].
    destruct (setting c "user") as [x3|] eqn:H3; [|done].
    destruct (setting c "password") as [x4|] eqn:H4; [|done].
    destruct (setting c "database") as [x5|] eqn:H5; [|done].
    apply setting_return in H1 as (m & section & -> & Hm & Hk1).
    apply setting_return in H2 as (? & ? & [= <-] & Hm2 & Hk2).
    apply setting_return in H3 as (? & ? & [= <-] & Hm3 & Hk3).
    apply setting_return in H4 as (? & ? & [= <-] & Hm4 & Hk4).
    apply setting_return in H5 as (? & ? & [= <-] & Hm5 & Hk5).
    simplify_eq. exists m, section. split; [done|]. split; [done|].
    repeat (apply Forall_cons; split; [by eexists|]). constructor.
  - intros (m & section & -> & Hm & HF).
    repeat match goal with
           | H : Forall _ (_ :: _) |- _ =>
               apply Forall_cons in H as [[? ?] H]
           end.
    unfold client_params, setting, get_settings. simpl. rewrite Hm. simpl.
    repeat match goal with H : section !! _ = Some _ |- _ =>
             rewrite H; clear H end.
    eauto.
Qed.

Section Session.
Context {Q : Type}.

(** [execute], by cases on the configuration, with the clients left
    open. *)
Lemma execute_outcome {R : Type} (self self' : connector) (w w' : world Q)
    (q : Q) (answer res : outcome R) :
  well_formed w →
  execute self w q answer = (self', w', res) →
  open_clients (events w') = open_clients (events w) ∧
  match client_params (self_config self) with
  | Return p =>
      res = answer ∧
      events w' = events w ++ [New (next w) p; Execute (next w) q;
                               Disconnect (next w)]
  | Raised e => res = Raised e ∧ w' = w ∧ self' = self
  end.
Proof.
  intros Hwf Hex. pose proof (execute_cases self w q answer) as Hc.
  destruct (client_params (self_config self)) as [p|e] eqn:Hp.
  - rewrite Hex in Hc. injection Hc as -> -> ->. simpl. split; [|done].
    apply (open_clients_session (events w) (next w) p [q]).
    by apply next_not_open.
  - rewrite Hex in Hc. by injection Hc as -> -> ->.
Qed.

End Session.

(** Whatever the state of the connector, whatever [yaml.safe_load] gave
    and whatever the driver answers, [execute] leaves no client behind:
    it either fails on the configuration before a client is made, with a
    [TypeError] when the document or its [clickhouse] value is not a
    mapping and a [KeyError] when a key is missing; or it makes one
    client, runs the query on it and disconnects it, also when the query
    raises, and what it returns or raises is what the driver does. *)
Theorem execute_disconnects {Q R : Type} (self self' : connector)
    (w w' : world Q) (q : Q) (answer res : outcome R) :
  well_formed w →
  execute self w q answer = (self', w', res) →
  open_clients (events w') = open_clients (events w) ∧
  ((∃ e, res = Raised e ∧ w' = w ∧ self' = self ∧
         ((e = TypeError ∧ not_mappings (self_config self)) ∨
          (¬ not_mappings (self_config self) ∧ ∃ key, e = KeyError key))) ∨
   (∃ p, res = answer ∧
         events w' = events w ++ [New (next w) p; Execute (next w) q;
                                  Disconnect (next w)])).
Proof.
  intros Hwf Hex.
  destruct (execute_outcome _ _ _ _ _ _ _ Hwf Hex) as [Hopen Hres].
  split; [done|].
  destruct (client_params (self_config self)) as [p|e] eqn:Hp.
  - right. exists p. done.
  - left. exists e. destruct Hres as (-> & -> & ->).
    repeat split; try done. by apply client_params_raised.
Qed.

Lemma execute_disconnects_witness :
  open_clients (events (@world0 string)) =
    open_clients (events (@world0 string)) ∧
  ((∃ e, (Raised TypeError : outcome nat) = Raised e ∧
         @world0 string = world0 ∧
         {| self_config := config_empty_section; self_client := None |} =
           {| self_config := config_empty_section; self_client := None |} ∧
         ((e = TypeError ∧ not_mappings config_empty_section) ∨
          (¬ not_mappings config_empty_section ∧ ∃ key, e = KeyError key))) ∨
   (∃ p, (Raised TypeError : outcome nat) = Raised (DriverError "timeout") ∧
         events (@world0 string) =
           events (@world0 string) ++
             [New (next (@world0 string)) p;
              Execute (next (@world0 string)) "SELECT 1";
              Disconnect (next (@world0 string))])).
Proof.
  apply (execute_disconnects
           {| self_config := config_empty_section; self_client := None |}
           {| self_config := config_empty_section; self_client := None |}
           world0 world0 "SELECT 1"
           (Raised (DriverError "timeout")) (Raised TypeError)).
  - constructor.
  - vm_compute. reflexivity.
Defined.

(** [__enter__] makes a client exactly when what [yaml.safe_load] gave is
    a mapping whose [clickhouse] value is a mapping with [host], [port],
    [user], [password] and [database]; [settings] may be absent.
    Otherwise it makes no client, leaves the connector as it was and
    raises: a [TypeError] exactly when the document (an empty file gives
    [None]) or its [clickhouse] value (an empty section gives [None]) is
    not a mapping, and else the [KeyError] of a missing key. *)
Theorem enter_needs_configuration {Q : Type} (self : connector)
    (w : world Q) :
  ((∃ self' w' n, enter self w = (self', w', Return n)) ↔
   ∃ m section,
     self_config self = Mapping m ∧
     m !! "clickhouse" = Some (Mapping section) ∧
     Forall (λ k, is_Some (section !! k))
       ["host"; "port"; "user"; "password"; "database"]) ∧
  (∀ self' w' e,
     enter self w = (self', w', Raised e) →
     self' = self ∧ w' = w ∧
     ((e = TypeError ∧ not_mappings (self_config self)) ∨
      (¬ not_mappings (self_config self) ∧ ∃ key, e = KeyError key))).
Proof.
  pose proof (enter_cases self w) as Hc. split.
  - rewrite <- client_params_return.
    destruct (client_params (self_config self)) as [p|e].
    + split; eauto.
    + split; [|by intros [p ?]]. intros (s & w' & n & H). by rewrite Hc in H.
  - intros self' w' e H.
    destruct (client_params (self_config self)) as [p|e'] eqn:Hp.
    + by rewrite Hc in H.
    + rewrite Hc in H. injection H as <- <- <-.
      split; [done|]. split; [done|]. by apply client_params_raised.
Qed.

Lemma well_formed_snoc {Q : Type} (w : world Q) (e : event Q) (n : nat) :
  well_formed w → (client_of e < n)%nat → (next w ≤ n)%nat →
  well_formed {| next := n; events := events w ++ [e] |}.
Proof.
  unfold well_formed. simpl. intros Hwf He Hn.
  apply Forall_app. split; [|by constructor].
  eapply Forall_impl; [exact Hwf|]. simpl. lia.
Qed.

(** Use of a connector inside its own [with] block loses a client: the
    inner [execute] replaces [self.client], so the [__exit__] of the
    outer block disconnects the inner client once more and the client of
    the outer block stays open. *)
Theorem nested_use_leaves_client_open {Q R : Type} (self self1 self2 : connector)
    (w w1 w2 : world Q) (n : nat) (q : Q) (answer res : outcome R) :
  well_formed w →
  enter self w = (self1, w1, Return n) →
  execute self1 w1 q answer = (self2, w2, res) →
  open_clients (events (exit_ self2 w2)) = open_clients (events w) ∪ {[n]} ∧
  n ∉ open_clients (events w).
Proof.
  intros Hwf Hen Hex.
  pose proof (enter_cases self w) as Hc.
  destruct (client_params (self_config self)) as [p|e] eqn:Hp;
    rewrite Hen in Hc; [|done].
  injection Hc as -> -> ->.
  pose proof (execute_cases
    {| self_config := self_config self; self_client := Some (next w) |}
    {| next := S (next w); events := events w ++ [New (next w) p] |}
    q answer) as Hc.
  simpl in Hc. rewrite Hp, Hex in Hc. injection Hc as -> -> ->.
  split; [|by apply next_not_open].
  unfold exit_, emit. simpl.
  rewrite open_clients_snoc.
  pose proof (open_clients_session (events w ++ [New (next w) p])
                (S (next w)) p [q]) as Hs.
  cbn [fmap list_fmap app] in Hs. rewrite Hs.
  - rewrite open_clients_snoc. apply set_eq. intros x.
    rewrite elem_of_difference, !elem_of_union, !elem_of_singleton.
    split; [tauto|]. intros Hx. split; [done|]. intros ->.
    destruct Hx as [Hx|Hx]; [|lia].
    apply open_clients_bound in Hx as (e & He & Hce).
    unfold well_formed in Hwf. rewrite Forall_forall in Hwf.
    apply Hwf in He. lia.
  - rewrite open_clients_snoc. intros Hx.
    apply elem_of_union in Hx as [Hx|Hx].
    + apply open_clients_bound in Hx as (e & He & Hce).
      unfold well_formed in Hwf. rewrite Forall_forall in Hwf.
      apply Hwf in He. lia.
    + apply elem_of_singleton in Hx. lia.
Qed.

Lemma nested_use_leaves_client_open_witness :
  open_clients
    (events (exit_ {| self_config := config_ex; self_client := Some 1%nat |}
               {| next := 2;
                  events := [New 0 params_ex; New 1 params_ex;
                             Execute 1 "SELECT 1"; Disconnect 1] |})) =
    open_clients (events (@world0 string)) ∪ {[0%nat]} ∧
  0%nat ∉ open_clients (events (@world0 string)).
Proof.
  apply (nested_use_leaves_client_open (R:=nat) connector_ex connector_used
           {| self_config := config_ex; self_client := Some 1%nat |}
           world0 {| next := 1; events := [New 0 params_ex] |}
           {| next := 2;
              events := [New 0 params_ex; New 1 params_ex;
                         Execute 1 "SELECT 1"; Disconnect 1] |}
           0%nat "SELECT 1" (Return 7%nat) (Return 7%nat)).
  - constructor.
  - vm_compute. reflexivity.
  - vm_compute. reflexivity.
Defined.

(** [test_connection] reports success exactly when the configuration is
    complete and the query returns at least one row; a failure of the
    configuration or of the driver is reported, not raised; and in every
    case no client is left open. *)
Theorem test_connection_reports {T : Type} (client client' : connector)
    (w w' : world string) (answer : outcome (list T)) (ok : bool)
    (msg : message T) :
  well_formed w →
  test_connection client w answer = (client', w', (ok, msg)) →
  open_clients (events w') = open_clients (events w) ∧
  (ok = true ↔
   (∃ p, client_params (self_config client) = Return p) ∧
   ∃ x result, answer = Return (x :: result)).
Proof.
  intros Hwf. unfold test_connection.
  destruct (execute client w products_query answer) as [[c1 w1] res] eqn:Hex.
  destruct (execute_outcome _ _ _ _ _ _ _ Hwf Hex) as [Hopen _].
  pose proof (execute_cases client w products_query answer) as Hc.
  rewrite Hex in Hc.
  destruct (client_params (self_config client)) as [p|e] eqn:Hp.
  - injection Hc as -> -> ->.
    destruct answer as [[|x result]|e]; intros [= <- <- <- <-];
      (split; [done|]); split; try done.
    + by intros (_ & x & r & ?).
    + eauto.
    + by intros (_ & x & r & ?).
  - injection Hc as -> -> ->. intros [= <- <- <- <-]. split; [done|].
    split; [done|]. by intros [[p ?] _].
Qed.

Lemma test_connection_reports_witness :
  open_clients (events (world_used products_query)) =
    open_clients (events (@world0 string)) ∧
  (true = true ↔
   (∃ p, client_params (self_config connector_ex) = Return p) ∧
   ∃ x result, Return [1%nat] = Return (x :: result)).
Proof.
  apply (test_connection_reports connector_ex connector_used world0
           (world_used products_query) (Return [1%nat]) true
           (Sample [1%nat])).
  - constructor.
  - vm_compute. reflexivity.
Defined.

(** ** calculate_cpi with its connection *)

(** When the configuration is complete and the three queries return,
    the run is the computation of [calculate_cpi] on what they return:
    same log, same frame or exception; one client is made, asked the
    three queries in the order base prices, period prices, weights, and
    disconnected before the merge. *)
Theorem run_is_calculate_cpi (g : string) (c : config) (db : store)
    (w : world query) (p : params) (base_prices : list base_row)
    (time_data : list time_row) (weights : list weight_row) :
  client_params c = Return p →
  base_prices_of db "2025-05-17" "2026-05-17" = Return base_prices →
  time_data_of db (bool_decide (g = "month")) "2025-05-17" "2028-05-15"
    = Return time_data →
  weights_of db = Return weights →
  run_calculate_cpi g (Some c) db w =
    ({| next := S (next w);
        events := events w ++
          [New (next w) p;
           Execute (next w) (Base_query "2025-05-17" "2026-05-17");
           Execute (next w)
             (Time_query (bool_decide (g = "month")) "2025-05-17" "2028-05-15");
           Execute (next w) Weight_query;
           Disconnect (next w)] |},
     Logged <$> fst (calculate_cpi g base_prices time_data weights),
     match snd (calculate_cpi g base_prices time_data weights) with
     | Ok f => Return f
     | Raise e => Raised (Computation e)
     end).
Proof.
  intros Hp Hb Ht Hw. unfold run_calculate_cpi, init, enter. simpl.
  rewrite Hp, Hb, Ht, Hw. unfold exit_, emit. simpl.
  rewrite <- !app_assoc. simpl.
  by destruct (calculate_cpi g base_prices time_data weights) as [log [f|e]].
Qed.

Lemma run_is_calculate_cpi_witness :
  run_calculate_cpi "month" (Some config_ex) store_ex world0 =
    ({| next := 1;
        events :=
          [New 0 params_ex;
           Execute 0 (Base_query "2025-05-17" "2026-05-17");
           Execute 0 (Time_query true "2025-05-17" "2028-05-15");
           Execute 0 Weight_query;
           Disconnect 0] |},
     Logged <$> fst (calculate_cpi "month" ex_base ex_time ex_weights),
     match snd (calculate_cpi "month" ex_base ex_time ex_weights) with
     | Ok f => Return f
     | Raise e => Raised (Computation e)
     end).
Proof.
  apply (run_is_calculate_cpi "month" config_ex store_ex world0 params_ex);
    reflexivity.
Defined.

(** On every way out of [calculate_cpi], with a frame or with any
    exception, no client stays open: the connection made for the queries
    is released. *)
Theorem run_releases_client (g : string) (loaded : option config)
    (db : store) (w w' : world query) (log : list log_line)
    (res : outcome cpi_frame) :
  well_formed w →
  run_calculate_cpi g loaded db w = (w', log, res) →
  open_clients (events w') = open_clients (events w).
Proof.
  intros Hwf. unfold run_calculate_cpi.
  destruct loaded as [c|]; simpl; [|by intros [= <- _ _]].
  pose proof (enter_cases {| self_config := c; self_client := None |} w) as Hc.
  simpl in Hc.
  destruct (client_params c) as [p|e] eqn:Hp; rewrite Hc;
    [|by intros [= <- _ _]].
  unfold exit_, emit. simpl.
  pose proof (next_not_open w Hwf) as Hn.
  destruct (base_prices_of db _ _) as [b|e].
  2:{ intros [= <- _ _]. simpl. rewrite <- !app_assoc.
      apply (open_clients_session (events w) (next w) p [_]), Hn. }
  destruct (time_data_of db _ _ _) as [t|e].
  2:{ intros [= <- _ _]. simpl. rewrite <- !app_assoc.
      apply (open_clients_session (events w) (next w) p [_; _]), Hn. }
  destruct (weights_of db) as [wt|e].
  2:{ intros [= <- _ _]. simpl. rewrite <- !app_assoc.
      apply (open_clients_session (events w) (next w) p [_; _; _]), Hn. }
  destruct (calculate_cpi g b t wt) as [l [f|e]];
    intros [= <- _ _]; simpl; rewrite <- !app_assoc;
    apply (open_clients_session (events w) (next w) p [_; _; _]), Hn.
Qed.

Lemma run_releases_client_witness :
  open_clients
    (events {| next := 1;
               events :=
                 [New 0 params_ex;
                  Execute 0 (Base_query "2025-05-17" "2026-05-17");
                  Execute 0 (Time_query false "2025-05-17" "2028-05-15");
                  Execute 0 Weight_query; Disconnect 0] |}) =
  open_clients (events (@world0 query)).
Proof.
  apply (run_releases_client "week" (Some config_ex) store_no_weights world0 _
           [Logged (Info_start "week"); Logged (Info_base_rows 2);
            Logged (Info_time_rows 2 "week");
            Failed "week" (DriverError "table categories")]
           (Raised (DriverError "table categories"))).
  - constructor.
  - vm_compute. reflexivity.
Defined.

Lemma calculate_cpi_retag (g g' : string) (base_prices : list base_row)
    (time_data : list time_row) (weights : list weight_row) :
  snd (calculate_cpi g' base_prices time_data weights) =
  match snd (calculate_cpi g base_prices time_data weights) with
  | Ok f => Ok {| granularity := g'; rows := rows f |}
  | Raise e => Raise e
  end.
Proof.
  pose proof (calculate_cpi_cases g base_prices time_data weights) as H.
  pose proof (calculate_cpi_cases g' base_prices time_data weights) as H'.
  cbv zeta in H, H'.
  destruct (merged_of time_data base_prices weights) as [|r m] eqn:Hm.
  - by rewrite H, H'.
  - destruct H as (b & Hin & Hmin & ->). destruct H' as (b' & Hin' & Hmin' & ->).
    simpl. do 2 f_equal.
    assert (b' = b) as ->; [|done].
    apply (groupby_agg_inj _ _ (r :: m)); [done|done|].
    apply Z.le_antisymm; [by apply Hmin'|by apply Hmin].
Qed.

(** Only the granularity month asks for monthly buckets.  Any other
    value, not only day, runs the daily query: the run does to the
    clients what a run for day does, and returns the same rows or raises
    the same exception; only the name of the frame is the value given. *)
Theorem other_granularity_is_daily (g : string) (loaded : option config)
    (db : store) (w : world query) :
  g ≠ "month" →
  (run_calculate_cpi g loaded db w).1.1 =
    (run_calculate_cpi "day" loaded db w).1.1 ∧
  match (run_calculate_cpi g loaded db w).2,
        (run_calculate_cpi "day" loaded db w).2 with
  | Return f, Return f' => rows f = rows f' ∧ granularity f = g
  | Raised e, Raised e' => e = e'
  | _, _ => False
  end.
Proof.
  intros Hg. unfold run_calculate_cpi.
  rewrite (bool_decide_eq_false_2 _ Hg).
  change (bool_decide ("day" = "month")) with false.
  destruct (init loaded) as [self|e]; [|done].
  destruct (enter self w) as [[self1 w1] [client|e]]; [|done].
  destruct (base_prices_of db _ _) as [b|e]; [|done].
  destruct (time_data_of db _ _ _) as [t|e]; [|done].
  destruct (weights_of db) as [wt|e]; [|done].
  pose proof (calculate_cpi_retag "day" g b t wt) as Hr.
  pose proof (calculate_cpi_granularity g b t wt) as Hgr.
  destruct (calculate_cpi g b t wt) as [l [f|e]];
    destruct (calculate_cpi "day" b t wt) as [l' [f'|e']]; simpl in *;
    try done.
  - destruct (Hgr l f eq_refl) as [Hgf _].
    injection Hr as ->. by split.
  - by injection Hr as ->.
Qed.

Lemma other_granularity_is_daily_witness :
  (run_calculate_cpi "week" (Some config_ex) store_ex world0).1.1 =
    (run_calculate_cpi "day" (Some config_ex) store_ex world0).1.1 ∧
  match (run_calculate_cpi "week" (Some config_ex) store_ex world0).2,
        (run_calculate_cpi "day" (Some config_ex) store_ex world0).2 with
  | Return f, Return f' => rows f = rows f' ∧ granularity f = "week"
  | Raised e, Raised e' => e = e'
  | _, _ => False
  end.
Proof. apply other_granularity_is_daily. done. Defined.

End ConnectorFacts.

(** * Properties of the batch converter *)

Module ConverterFacts.
Import Converter.

Lemma written_nil (buffer_size : Z) : written buffer_size [] = [].
Proof. unfold written. by case_decide. Qed.

(** A read of a text with characters and a buffer size other than zero:
    the chunk has characters, it is a prefix of the text, and it is no
    longer than a positive size. *)
Lemma read_chunk (buffer_size : Z) (f_in : text) :
  f_in ≠ [] → buffer_size ≠ 0 →
  ∃ c chunk rest,
    read buffer_size f_in = (c :: chunk, rest) ∧
    f_in = (c :: chunk) ++ rest ∧
    (0 < buffer_size → (length (c :: chunk) ≤ Z.to_nat buffer_size)%nat).
Proof.
  intros Hne Hb. destruct f_in as [|c f_in]; [done|].
  unfold read. case_decide as Hneg.
  - exists c, f_in, []. rewrite app_nil_r. split; [done|]. split; [done|lia].
  - destruct (Z.to_nat buffer_size) as [|n] eqn:Hn; [lia|].
    exists c, (take n f_in), (drop n f_in). simpl.
    split; [done|]. split; [by rewrite take_drop|].
    intros _. rewrite length_take. lia.
Qed.

Lemma read_nothing (buffer_size : Z) (f_in : text) :
  f_in = [] ∨ buffer_size = 0 → fst (read buffer_size f_in) = [].
Proof.
  unfold read. intros [->| ->].
  - case_decide; [done|]. simpl. by rewrite take_nil.
  - by rewrite decide_False by lia.
Qed.

Lemma pieces_chunking (rounds : nat) (buffer_size : Z) (f_in : text) :
  (length f_in < rounds)%nat →
  chunking buffer_size f_in (pieces rounds buffer_size f_in).
Proof.
  revert f_in. induction rounds as [|rounds IH]; intros f_in Hlen; [lia|].
  cbn [pieces].
  destruct (decide (f_in = [] ∨ buffer_size = 0)) as [Hn|Hn].
  { pose proof (read_nothing _ _ Hn) as Hr.
    destruct (read buffer_size f_in) as [chunk rest]. simpl in Hr. subst chunk.
    split; [|constructor]. unfold written. simpl.
    destruct Hn as [->| ->]; [by case_decide|by rewrite decide_True]. }
  destruct (read_chunk buffer_size f_in) as (c & chunk & rest & -> & Hs & Hsz);
    [tauto|tauto|].
  destruct (IH rest) as [Hcat Hall].
  { apply (f_equal length) in Hs. rewrite length_app in Hs. simpl in *. lia. }
  split.
  - unfold written in *. rewrite decide_False in * by tauto.
    cbn [concat]. by rewrite Hcat, Hs.
  - by constructor.
Qed.

Lemma copy_pieces (rounds : nat) (enc : encoder) (buffer_size : Z)
    (f_in : text) (s : enc_state enc) (f_out : bytes) :
  (length f_in < rounds)%nat →
  copy rounds enc buffer_size f_in s f_out =
    Some (feed enc s (pieces rounds buffer_size f_in) f_out).
Proof.
  revert f_in s f_out.
  induction rounds as [|rounds IH]; intros f_in s f_out Hlen; [lia|].
  cbn [copy pieces].
  destruct (decide (f_in = [] ∨ buffer_size = 0)) as [Hn|Hn].
  { pose proof (read_nothing _ _ Hn) as Hr.
    destruct (read buffer_size f_in) as [chunk rest]. simpl in Hr.
    by subst chunk. }
  destruct (read_chunk buffer_size f_in) as (c & chunk & rest & -> & Hs & _);
    [tauto|tauto|].
  cbn [feed]. destruct (encode enc s (c :: chunk)) as [[b s']|]; [|done].
  apply IH. apply (f_equal length) in Hs. rewrite length_app in Hs.
  simpl in *. lia.
Qed.

Lemma written_subseteq (buffer_size : Z) (f_in : text) :
  written buffer_size f_in ⊆ f_in.
Proof.
  unfold written. case_decide; [|done]. intros x Hx. by apply elem_of_nil in Hx.
Qed.

Lemma elem_of_concat {A : Type} (x : A) (l : list A) (ls : list (list A)) :
  x ∈ l → l ∈ ls → x ∈ concat ls.
Proof.
  intros Hx Hl. induction ls as [|l' ls IH]; [by apply elem_of_nil in Hl|].
  simpl. apply elem_of_app. apply elem_of_cons in Hl as [<-|Hl]; auto.
Qed.

Lemma feed_encodes (enc : encoder) (s : enc_state enc) (buffer_size : Z)
    (f_in : text) (chunks : list text) (f_out : bytes) :
  encodes enc f_in → chunking buffer_size f_in chunks →
  snd (feed enc s chunks f_out) = true.
Proof.
  intros He [Hcat _].
  assert (∀ chunk, chunk ∈ chunks → chunk ⊆ f_in) as Hsub.
  { intros chunk Hc x Hx. apply (written_subseteq buffer_size).
    rewrite <- Hcat. by apply (elem_of_concat x chunk). }
  clear Hcat. revert s f_out.
  induction chunks as [|chunk chunks IH]; intros s f_out; [done|].
  cbn [feed]. destruct (He s chunk) as [[b s'] ->]; [apply Hsub; left|].
  apply IH. intros c Hc. apply Hsub. by right.
Qed.

(** The copying loop of [batch_convert] ends within one round for each
    character and one more, whatever the buffer size and the encoder.
    What it passes to [write] is a cutting of the whole text of the
    input, for every buffer size other than zero: a size larger than the
    text, one that does not divide its length, and a negative one, which
    reads the text in one chunk; with the size zero the first chunk is
    empty and nothing is written.  The file holds what the encoder made
    of the chunks before the first it refuses. *)
Theorem copy_whole_text (rounds : nat) (enc : encoder) (buffer_size : Z)
    (f_in : text) (s : enc_state enc) (f_out : bytes) :
  (length f_in < rounds)%nat →
  ∃ chunks,
    chunking buffer_size f_in chunks ∧
    copy rounds enc buffer_size f_in s f_out = Some (feed enc s chunks f_out).
Proof.
  intros Hlen. exists (pieces rounds buffer_size f_in).
  split; [by apply pieces_chunking|by apply copy_pieces].
Qed.

Lemma copy_whole_text_witness :
  ∃ chunks,
    chunking 2 [97; 44; 98; 10; 49]%N chunks ∧
    copy 6 utf8_encoder 2 [97; 44; 98; 10; 49]%N () [] =
      Some (feed utf8_encoder () chunks []).
Proof. apply copy_whole_text. simpl. lia. Defined.

(** ** One file *)

Lemma convert_files (cs : codecs) (input_dir output_dir : string)
    (target_encoding : string) (buffer_size : Z) (filename : string)
    (d d' : disk) (r : outcome ()) (p : path) :
  convert cs input_dir output_dir target_encoding buffer_size filename d
    = Some (d', r) →
  p ≠ (output_dir, filename) →
  files d' !! p = files d !! p.
Proof.
  intros Hc Hp. unfold convert in Hc.
  destruct (files d !! (input_dir, filename)) as [[raw|]|];
    [|by injection Hc as <- _..].
  destruct (decoder cs (encoding_of cs raw)) as [decode|];
    [|by injection Hc as <- _].
  assert (∀ f_out pr, files {| files := <[(output_dir, filename) := File f_out]>
                                          (files d); printed := pr |} !! p
                      = files d !! p) as Hins.
  { intros f_out pr. simpl. by rewrite lookup_insert_ne. }
  destruct (files d !! (output_dir, filename)) as [[raw'|]|];
    [|by injection Hc as <- _|];
    (destruct (encoder_of cs target_encoding) as [enc|];
     [|injection Hc as <- _; apply Hins]);
    (destruct (copy _ enc buffer_size _ _ []) as [[f_out []]|]; [| |done]);
    injection Hc as <- _; apply Hins.
Qed.

(** The conversion of a name whose files can be opened, in a directory
    other than the input directory, with a target encoding Python
    knows. *)
Lemma convert_convertible (cs : codecs) (input_dir output_dir : string)
    (target_encoding : string) (buffer_size : Z) (filename : string)
    (d : disk) (enc : encoder) :
  input_dir ≠ output_dir →
  encoder_of cs target_encoding = Some enc →
  convertible cs enc (files d) input_dir output_dir filename →
  ∃ raw decode chunks,
    files d !! (input_dir, filename) = Some (File raw) ∧
    decoder cs (encoding_of cs raw) = Some decode ∧
    chunking buffer_size (decode raw) chunks ∧
    convert cs input_dir output_dir target_encoding buffer_size filename d =
      Some ({| files :=
                 <[(output_dir, filename) :=
                     File (fst (feed enc (enc_start enc) chunks []))]>
                   (files d);
               printed := printed d ++
                 [(filename, encoding_of cs raw, target_encoding)] |},
            Return ()).
Proof.
  intros Hdir Henc (Hin & Hout & Hhas). unfold input_failure in Hin.
  unfold convert.
  destruct (files d !! (input_dir, filename)) as [[raw|]|]; [|done..].
  destruct (decoder cs (encoding_of cs raw)) as [decode|] eqn:Hdec; [|done].
  exists raw, decode, (pieces (S (length (decode raw))) buffer_size
                         (decode raw)).
  split; [done|]. split; [done|].
  assert (chunking buffer_size (decode raw)
            (pieces (S (length (decode raw))) buffer_size (decode raw)))
    as Hch by (apply pieces_chunking; lia).
  split; [done|].
  rewrite Henc, decide_False by congruence.
  rewrite copy_pieces by lia.
  pose proof (feed_encodes enc (enc_start enc) buffer_size (decode raw) _ []
                (Hhas raw decode eq_refl Hdec) Hch) as Hfed.
  destruct (feed enc (enc_start enc) _ []) as [f_out fin]. simpl in *.
  subst fin. by destruct (files d !! (output_dir, filename)) as [[|]|].
Qed.

Lemma convert_input_failure (cs : codecs) (input_dir output_dir : string)
    (target_encoding : string) (buffer_size : Z) (filename : string)
    (d : disk) (e : exn) :
  input_failure cs (files d) input_dir filename = Some e →
  convert cs input_dir output_dir target_encoding buffer_size filename d
    = Some (d, Raised e).
Proof.
  unfold input_failure, convert.
  destruct (files d !! (input_dir, filename)) as [[raw|]|];
    [|by intros [= <-]..].
  by destruct (decoder cs (encoding_of cs raw)); [|intros [= <-]].
Qed.

(** ** The listing *)

Lemma convert_all_files (cs : codecs) (input_dir output_dir : string)
    (target_encoding : string) (buffer_size : Z) (csv_files : list string)
    (d d' : disk) (r : outcome ()) (p : path) :
  convert_all cs input_dir output_dir target_encoding buffer_size csv_files d
    = Some (d', r) →
  fst p ≠ output_dir ∨ snd p ∉ csv_files →
  files d' !! p = files d !! p.
Proof.
  revert d. induction csv_files as [|filename csv_files IH]; intros d Hc Hp.
  { by injection Hc as <- _. }
  cbn [convert_all] in Hc.
  assert (p ≠ (output_dir, filename)) as Hne.
  { intros ->. simpl in Hp. destruct Hp as [?|Hp]; [done|].
    apply Hp. left. }
  assert (fst p ≠ output_dir ∨ snd p ∉ csv_files) as Hp'.
  { destruct Hp as [?|Hp]; [by left|]. right. intros ?. apply Hp. by right. }
  destruct (convert cs input_dir output_dir target_encoding buffer_size
              filename d) as [[d1 [[]|e1]]|] eqn:H1; [| |done].
  - rewrite (IH d1 Hc Hp'). by eapply convert_files.
  - injection Hc as <- _. by eapply convert_files.
Qed.

Lemma convert_all_app (cs : codecs) (input_dir output_dir : string)
    (target_encoding : string) (buffer_size : Z) (l1 l2 : list string)
    (d : disk) :
  convert_all cs input_dir output_dir target_encoding buffer_size (l1 ++ l2) d
  = match convert_all cs input_dir output_dir target_encoding buffer_size
            l1 d with
    | Some (d', Return _) =>
        convert_all cs input_dir output_dir target_encoding buffer_size l2 d'
    | r => r
    end.
Proof.
  revert d. induction l1 as [|filename l1 IH]; intros d; [done|].
  simpl.
  by destruct (convert cs input_dir output_dir target_encoding buffer_size
                 filename d) as [[d1 [[]|e1]]|].
Qed.

(** A listing of names that can be converted, converted to another
    directory. *)
Lemma convert_all_convertible (cs : codecs) (input_dir output_dir : string)
    (target_encoding : string) (buffer_size : Z) (enc : encoder)
    (csv_files : list string) (d : disk) :
  input_dir ≠ output_dir →
  encoder_of cs target_encoding = Some enc →
  Forall (convertible cs enc (files d) input_dir output_dir) csv_files →
  ∃ d',
    convert_all cs input_dir output_dir target_encoding buffer_size
      csv_files d = Some (d', Return ()) ∧
    (∀ name, files d' !! (input_dir, name) = files d !! (input_dir, name)) ∧
    (∀ name raw decode,
       name ∈ csv_files →
       files d !! (input_dir, name) = Some (File raw) →
       decoder cs (encoding_of cs raw) = Some decode →
       ∃ chunks,
         chunking buffer_size (decode raw) chunks ∧
         files d' !! (output_dir, name) =
           Some (File (fst (feed enc (enc_start enc) chunks [])))) ∧
    (λ l, l.1.1) <$> printed d' =
      ((λ l, l.1.1) <$> printed d) ++ csv_files.
Proof.
  intros Hdir Henc. revert d.
  induction csv_files as [|filename csv_files IH]; intros d Hall.
  { exists d. split; [done|]. split; [done|]. split; [|by rewrite app_nil_r].
    by intros ??? ?%elem_of_nil. }
  apply Forall_cons in Hall as [H0 Hall].
  destruct (convert_convertible cs input_dir output_dir target_encoding
              buffer_size filename d enc Hdir Henc H0)
    as (raw0 & decode0 & chunks0 & Hraw0 & Hdec0 & Hch0 & Hc).
  set (d1 := {| files := <[(output_dir, filename) :=
                             File (fst (feed enc (enc_start enc) chunks0 []))]>
                           (files d);
                printed := printed d ++
                  [(filename, encoding_of cs raw0, target_encoding)] |})
    in Hc.
  assert (∀ name, files d1 !! (input_dir, name) = files d !! (input_dir, name))
    as Hin1.
  { intros name. simpl. rewrite lookup_insert_ne; [done|]. congruence. }
  destruct (IH d1) as (d' & Hall' & Hin' & Hout' & Hpr').
  { eapply Forall_impl; [exact Hall|]. intros name (Hi & Ho & Hh).
    split; [|split].
    - unfold input_failure in *. by rewrite Hin1.
    - simpl. destruct (decide (name = filename)) as [->|Hne].
      + by rewrite lookup_insert_eq.
      + rewrite lookup_insert_ne; [done|]. congruence.
    - intros raw decode. rewrite Hin1. apply Hh. }
  exists d'. cbn [convert_all]. rewrite Hc. split; [done|]. split; [|split].
  - intros name. by rewrite Hin', Hin1.
  - intros name raw decode Hname Hraw Hdec.
    destruct (decide (name ∈ csv_files)) as [Hrest|Hrest].
    + apply (Hout' name raw decode Hrest); [|done]. by rewrite Hin1.
    + apply elem_of_cons in Hname as [->|?]; [|done].
      exists chunks0. assert (raw = raw0) as -> by congruence.
      assert (decode = decode0) as -> by congruence. split; [done|].
      rewrite (convert_all_files _ _ _ _ _ _ _ _ _ (output_dir, filename)
                 Hall') by (by right).
      simpl. by rewrite lookup_insert_eq.
  - rewrite Hpr'. simpl. rewrite fmap_app. simpl. by rewrite <- app_assoc.
Qed.

(** When the output directory is not the input directory, Python knows
    the target encoding, and every listed name ending in .csv, in any
    case of the letters, is a file whose detected encoding Python knows,
    whose output path is not a directory and whose text has only
    characters of the target encoding, [batch_convert] returns: the
    input files are as they were, every such name is in the output
    directory with what the encoder makes of a cutting of the whole text
    of the input file, or empty when the buffer size is zero, and one
    line is printed for each, in the order of the listing. *)
Theorem batch_convert_returns (cs : codecs) (names : list string)
    (fs : gmap path entry) (input_dir output_dir : string)
    (target_encoding : string) (buffer_size : Z) (enc : encoder) :
  input_dir ≠ output_dir →
  encoder_of cs target_encoding = Some enc →
  Forall (λ name, is_csv name = true →
                  convertible cs enc fs input_dir output_dir name) names →
  ∃ d',
    batch_convert cs (Some names) fs input_dir output_dir target_encoding
      buffer_size = Some (d', Return ()) ∧
    (∀ name, files d' !! (input_dir, name) = fs !! (input_dir, name)) ∧
    (∀ name raw decode,
       name ∈ names →
       is_csv name = true →
       fs !! (input_dir, name) = Some (File raw) →
       decoder cs (encoding_of cs raw) = Some decode →
       ∃ chunks,
         chunking buffer_size (decode raw) chunks ∧
         files d' !! (output_dir, name) =
           Some (File (fst (feed enc (enc_start enc) chunks [])))) ∧
    (λ l, l.1.1) <$> printed d' = filter (λ f, is_csv f = true) names.
Proof.
  intros Hdir Henc Hall. unfold batch_convert.
  destruct (convert_all_convertible cs input_dir output_dir target_encoding
              buffer_size enc (filter (λ f, is_csv f = true) names)
              {| files := fs; printed := [] |} Hdir Henc)
    as (d' & Hc & Hin & Hout & Hpr).
  { apply Forall_forall. intros name [Hcsv Hname]%list_elem_of_filter.
    rewrite Forall_forall in Hall. by apply Hall. }
  exists d'. split; [done|]. split; [done|]. split; [|done].
  intros name raw decode Hname Hcsv Hraw Hdec.
  apply (Hout name raw decode); [|done|done]. by apply list_elem_of_filter.
Qed.

Lemma encodes_utf8_encoder (t : text) : encodes utf8_encoder t.
Proof. intros s chunk _. by eexists. Qed.

Lemma batch_convert_returns_witness :
  ∃ d',
    batch_convert codecs_ex (Some listing_ex) fs_ex "raw" "utf" "utf-8" 2
      = Some (d', Return ()) ∧
    (∀ name, files d' !! ("raw", name) = fs_ex !! ("raw", name)) ∧
    (∀ name raw decode,
       name ∈ listing_ex →
       is_csv name = true →
       fs_ex !! ("raw", name) = Some (File raw) →
       decoder codecs_ex (encoding_of codecs_ex raw) = Some decode →
       ∃ chunks,
         chunking 2 (decode raw) chunks ∧
         files d' !! ("utf", name) =
           Some (File (fst (feed utf8_encoder (enc_start utf8_encoder)
                              chunks [])))) ∧
    (λ l, l.1.1) <$> printed d' = filter (λ f, is_csv f = true) listing_ex.
Proof.
  apply (batch_convert_returns codecs_ex listing_ex fs_ex "raw" "utf" "utf-8"
           2 utf8_encoder).
  - done.
  - reflexivity.
  - repeat (apply Forall_cons; split;
              [intros _; split; [by vm_compute|split; [by vm_compute|]];
               intros raw decode _ _; apply encodes_utf8_encoder|]).
    constructor.
Defined.

(** A path outside the output directory, or of a name that is not
    listed, or of a name that does not end in .csv, is never written:
    whatever the call does, also when it raises, the path names what it
    named before. *)
Theorem other_names_untouched (cs : codecs) (listing : option (list string))
    (fs : gmap path entry) (input_dir output_dir : string)
    (target_encoding : string) (buffer_size : Z) (d' : disk)
    (r : outcome ()) (dir name : string) :
  batch_convert cs listing fs input_dir output_dir target_encoding
    buffer_size = Some (d', r) →
  dir ≠ output_dir ∨ is_csv name = false ∨ ¬ listed listing name →
  files d' !! (dir, name) = fs !! (dir, name).
Proof.
  intros Hc Hn. unfold batch_convert in Hc.
  destruct listing as [names|]; [|by injection Hc as <- _].
  rewrite (convert_all_files _ _ _ _ _ _ _ _ _ (dir, name) Hc); [done|].
  simpl. destruct Hn as [?|Hn]; [by left|]. right.
  intros [Hcsv Hin]%list_elem_of_filter.
  destruct Hn as [?|Hn]; [congruence|]. apply Hn. by exists names.
Qed.

Lemma other_names_untouched_witness :
  files disk_ex !! ("utf", "notes.txt") = fs_ex !! ("utf", "notes.txt").
Proof.
  apply (other_names_untouched codecs_ex (Some listing_ex) fs_ex "raw" "utf"
           "utf-8" 2 disk_ex (Return ())).
  - vm_compute. reflexivity.
  - right. left. vm_compute. reflexivity.
Defined.

(** The first name ending in .csv whose input file cannot be opened,
    being gone, a directory, or a file whose detected encoding Python
    does not know, ends the call with the exception of [open]: when the
    output directory is not the input directory, Python knows the target
    encoding and the names ending in .csv listed before it can be
    converted, these are converted as if they were the whole listing,
    and nothing is written or printed for that name or for any name
    listed after it. *)
Theorem first_unreadable_aborts (cs : codecs) (before after : list string)
    (filename : string) (fs : gmap path entry)
    (input_dir output_dir : string) (target_encoding : string)
    (buffer_size : Z) (enc : encoder) (e : exn) :
  input_dir ≠ output_dir →
  encoder_of cs target_encoding = Some enc →
  Forall (λ name, is_csv name = true →
                  convertible cs enc fs input_dir output_dir name) before →
  is_csv filename = true →
  input_failure cs fs input_dir filename = Some e →
  ∃ d',
    batch_convert cs (Some before) fs input_dir output_dir target_encoding
      buffer_size = Some (d', Return ()) ∧
    batch_convert cs (Some (before ++ filename :: after)) fs input_dir
      output_dir target_encoding buffer_size = Some (d', Raised e).
Proof.
  intros Hdir Henc Hall Hcsv Hbad. unfold batch_convert.
  rewrite filter_app, filter_cons_True by done.
  rewrite convert_all_app.
  destruct (convert_all_convertible cs input_dir output_dir target_encoding
              buffer_size enc (filter (λ f, is_csv f = true) before)
              {| files := fs; printed := [] |} Hdir Henc)
    as (d' & Hc & Hin & _ & _).
  { apply Forall_forall. intros name [Hn Hname]%list_elem_of_filter.
    rewrite Forall_forall in Hall. by apply Hall. }
  exists d'. split; [done|]. rewrite Hc. cbn [convert_all].
  rewrite (convert_input_failure _ _ _ _ _ _ _ e); [done|].
  unfold input_failure in *. by rewrite Hin.
Qed.

Lemma first_unreadable_aborts_witness :
  ∃ d',
    batch_convert codecs_ex (Some ["a.csv"]) fs_bad "raw" "utf" "utf-8" 0
      = Some (d', Return ()) ∧
    batch_convert codecs_ex (Some (["a.csv"] ++ "w.csv" :: ["z.csv"])) fs_bad
      "raw" "utf" "utf-8" 0
      = Some (d', Raised (LookupError "UTF-16")).
Proof.
  apply (first_unreadable_aborts codecs_ex ["a.csv"] ["z.csv"] "w.csv" fs_bad
           "raw" "utf" "utf-8" 0 utf8_encoder).
  - done.
  - reflexivity.
  - repeat (apply Forall_cons; split;
              [intros _; split; [by vm_compute|split; [by vm_compute|]];
               intros raw decode _ _; apply encodes_utf8_encoder|]).
    constructor.
  - reflexivity.
  - vm_compute. reflexivity.
Defined.

(** ** The other ways out, on the example *)

(** With a target encoding Python does not know the call raises at the
    first name ending in .csv, whose output file it leaves empty. *)
Example unknown_target_encoding :
  ∃ d', batch_convert codecs_ex (Some listing_ex) fs_ex "raw" "utf"
          "no-such-codec" 2
          = Some (d', Raised (LookupError "no-such-codec")) ∧
        files d' !! ("utf", "a.csv") = Some (File []) ∧
        files d' !! ("utf", "B.CSV") = None ∧
        printed d' = [].
Proof. eexists. split; [by vm_compute|]. by vm_compute. Qed.

(** With the target ascii a character outside it stops the call: the
    file holds the chunks written before the chunk refused. *)
Example character_outside_target :
  ∃ d', batch_convert codecs_ex (Some ["e.csv"])
          (<[("raw", "e.csv") :=
               File [Byte.x61; Byte.x62; Byte.x63; Byte.x64; Byte.xe9;
                     Byte.x66]]> fs_ex)
          "raw" "utf" "ascii" 3
          = Some (d', Raised (UnicodeEncodeError "ascii")) ∧
        files d' !! ("utf", "e.csv") =
          Some (File [Byte.x61; Byte.x62; Byte.x63]) ∧
        printed d' = [].
Proof. eexists. split; [by vm_compute|]. by vm_compute. Qed.

(** With the input directory as output directory every file ending in
    .csv is emptied. *)
Example same_directory :
  ∃ d', batch_convert codecs_ex (Some listing_ex) fs_ex "raw" "raw" "utf-8" 2
          = Some (d', Return ()) ∧
        files d' !! ("raw", "a.csv") = Some (File []) ∧
        files d' !! ("raw", "B.CSV") = Some (File []) ∧
        files d' !! ("raw", "notes.txt") = Some (File raw_ex).
Proof. eexists. split; [by vm_compute|]. by vm_compute. Qed.

End ConverterFacts.
